(** * Alert pipeline of binance-whale-tracker

    A shallow embedding of the two stateful classes that make up the alert
    pipeline: [AlertManager] (alert store, trigger evaluation, cooldown,
    bounded history, dispatch to notifiers) and [TelegramNotifier] (rate
    limited outbound queue), and of the code around them: [ErrorHandler]
    (error counts, grading, recovery) and the two methods of [WhaleTracker]
    that add and remove alerts.

    Conventions.
    - Prices and timestamps are JavaScript numbers in the source.  They are
      represented by [Z]: a price in some fixed smallest unit, a timestamp in
      milliseconds.  Only the order and the difference of finite numbers are
      used by the code, and [undefined] is modelled by [option].  The bound
      [maxAlerts] is a count and is a whole number too.  Where the code
      writes a number into a text, the text is that of a whole number below
      10^21 in absolute value, which is its decimal digits, as [pretty]
      gives them.
    - Strings compared with [===] in the source are [string]s compared with
      [String.eqb].
    - The source mutates objects in place and awaits notifier calls.  The
      embedding threads an explicit [World] through a small state and
      exception monad; the wall clock is an oracle in the world, so that any
      amount of time may pass between two readings.
    - The calls of the manager's methods are run one after the other: no
      other call of the manager starts while [processPriceUpdate] awaits a
      notifier.  The notifier's [processQueue], whose [await]s let [send]
      calls in, is modelled with its suspension points. *)

From stdpp Require Import base option list sorting gmap strings pretty.
From Stdlib Require Import ZArith Lia Ascii.

Open Scope string_scope.
Open Scope Z_scope.

(** JavaScript truthiness of the values the code tests. *)
Definition truthy_string (s : string) : bool := negb (String.eqb s "").
Definition truthy_number (z : Z) : bool := negb (z =? 0).

(** [a || b] on numbers, with [undefined] as [None]. *)
Definition number_or (a : option Z) (b : Z) : Z :=
  match a with
  | Some z => if truthy_number z then z else b
  | None => b
  end.

(** Comparison of a possibly [undefined] number with a number: any comparison
    with [undefined] is false. *)
Definition lt_undef (a : option Z) (b : Z) : bool :=
  match a with Some x => x <? b | None => false end.
Definition gt_undef (a : option Z) (b : Z) : bool :=
  match a with Some x => x >? b | None => false end.

(** Template-literal rendering of a possibly [undefined] number. *)
Definition show_undef (a : option Z) : string :=
  match a with Some x => pretty x | None => "undefined" end.

Module AlertManager.

(** ** Data *)

Record Alert := mkAlert {
  id : string;
  symbol : string;
  price : Z;
  type : string;
  status : string;
  created : Z;
  lastPrice : option Z;
  triggeredAt : option Z;
  triggeredPrice : option Z;
  repeat : bool
}.

Definition set_status (s : string) (a : Alert) : Alert :=
  mkAlert (id a) (symbol a) (price a) (type a) s (created a)
          (lastPrice a) (triggeredAt a) (triggeredPrice a) (repeat a).
Definition set_lastPrice (p : option Z) (a : Alert) : Alert :=
  mkAlert (id a) (symbol a) (price a) (type a) (status a) (created a)
          p (triggeredAt a) (triggeredPrice a) (repeat a).
Definition set_triggeredAt (t : option Z) (a : Alert) : Alert :=
  mkAlert (id a) (symbol a) (price a) (type a) (status a) (created a)
          (lastPrice a) t (triggeredPrice a) (repeat a).
Definition set_triggeredPrice (p : option Z) (a : Alert) : Alert :=
  mkAlert (id a) (symbol a) (price a) (type a) (status a) (created a)
          (lastPrice a) (triggeredAt a) p (repeat a).

(** The argument of [addAlert], with the properties the class reads.  A
    field of type [option] is a property that may be absent from the object;
    [cfg_repeat] absent reads as [false]. *)
Record AlertConfig := mkAlertConfig {
  cfg_id : option string;
  cfg_symbol : string;
  cfg_price : Z;
  cfg_type : option string;
  cfg_status : option string;
  cfg_created : option Z;
  cfg_lastPrice : option Z;
  cfg_repeat : bool
}.

(** What a notifier receives: the alert's fields and the rendered text. *)
Record Notification := mkNotification {
  n_alert : Alert;
  message : string
}.

Inductive Error := mkError (msg : string).

(** A registered notifier: its [send] either resolves to a boolean or
    rejects. *)
Definition Notifier : Type := Notification -> Error + bool.

(** The instance fields of the class. *)
Record AlertManager := mkAlertManager {
  logger : bool;                          (* is config.logger set *)
  alerts : list (string * Alert);         (* Map, in insertion order *)
  notifiers : list Notifier;
  alertHistory : list Alert;
  maxAlerts : Z;
  cooldown : Z;
  lastAlertTimes : gmap string Z
}.

(** Observable effects, in the order they happen.  [alert_triggered k a]
    carries the key [k] of the store entry whose object is emitted;
    [dispatch n] marks one call of [sendAlert]; [notifier_send i n r] is the
    call of the [i]-th notifier's [send] and its outcome. *)
Inductive Event :=
| alert_created (a : Alert)
| alert_removed (a : Alert)
| alert_triggered (k : string) (a : Alert)
| dispatch (n : Notification)
| notifier_send (i : nat) (n : Notification) (r : Error + bool)
| logger_error (e : Error).

(** The manager together with its environment: [clock i] is the value the
    [i]-th reading of the wall clock returns, [reads] counts the readings
    made so far. *)
Record World := mkWorld {
  this : AlertManager;
  clock : nat -> Z;
  reads : nat;
  trace : list Event
}.

(** ** State and exception monad *)

Definition M (A : Type) : Type := World -> (Error + A) * World.

Definition ret {A} (x : A) : M A := fun w => (inr x, w).
Definition bind {A B} (m : M A) (k : A -> M B) : M B :=
  fun w => match m w with
           | (inl e, w') => (inl e, w')
           | (inr x, w') => k x w'
           end.
Definition throw {A} (e : Error) : M A := fun w => (inl e, w).
Definition try_catch {A} (m : M A) (h : Error -> M A) : M A :=
  fun w => match m w with
           | (inl e, w') => h e w'
           | (inr x, w') => (inr x, w')
           end.

Notation "x <- m ;; k" := (bind m (fun x => k))
  (at level 100, m at next level, right associativity).
Notation "m ;;; k" := (bind m (fun _ => k))
  (at level 100, right associativity).

Definition get_this : M AlertManager := fun w => (inr (this w), w).
Definition put_this (t : AlertManager) : M unit :=
  fun w => (inr tt, mkWorld t (clock w) (reads w) (trace w)).
Definition emit (e : Event) : M unit :=
  fun w => (inr tt, mkWorld (this w) (clock w) (reads w) (trace w ++ [e])).
(** [Date.now()] and [new Date()]: one reading of the clock. *)
Definition Date_now : M Z :=
  fun w => (inr (clock w (reads w)),
            mkWorld (this w) (clock w) (S (reads w)) (trace w)).

Definition set_alerts (l : list (string * Alert)) (t : AlertManager) :=
  mkAlertManager (logger t) l (notifiers t) (alertHistory t)
                 (maxAlerts t) (cooldown t) (lastAlertTimes t).
Definition set_notifiers (l : list Notifier) (t : AlertManager) :=
  mkAlertManager (logger t) (alerts t) l (alertHistory t)
                 (maxAlerts t) (cooldown t) (lastAlertTimes t).
Definition set_alertHistory (h : list Alert) (t : AlertManager) :=
  mkAlertManager (logger t) (alerts t) (notifiers t) h
                 (maxAlerts t) (cooldown t) (lastAlertTimes t).
Definition set_lastAlertTimes (m : gmap string Z) (t : AlertManager) :=
  mkAlertManager (logger t) (alerts t) (notifiers t) (alertHistory t)
                 (maxAlerts t) (cooldown t) m.

(** ** The [Map] of alerts, in insertion order *)

Fixpoint Map_get (k : string) (m : list (string * Alert)) : option Alert :=
  match m with
  | [] => None
  | (k', v) :: m' => if String.eqb k' k then Some v else Map_get k m'
  end.

(** [set] keeps the position of a key that is present and appends a new
    one. *)
Fixpoint Map_set (k : string) (v : Alert) (m : list (string * Alert))
  : list (string * Alert) :=
  match m with
  | [] => [(k, v)]
  | (k', v') :: m' =>
      if String.eqb k' k then (k, v) :: m' else (k', v') :: Map_set k v m'
  end.

Definition Map_delete (k : string) (m : list (string * Alert))
  : list (string * Alert) :=
  List.filter (fun e => negb (String.eqb (fst e) k)) m.

Definition Map_size (m : list (string * Alert)) : Z := Z.of_nat (length m).

(** ** constructor *)

Definition constructor (cfg_logger : bool) (cfg_maxAlerts cfg_cooldown : option Z)
  : AlertManager :=
  mkAlertManager cfg_logger [] [] []
    (number_or cfg_maxAlerts 100)
    (number_or cfg_cooldown 3600000)
    ∅.

(** ** addNotifier *)

Definition addNotifier (notifier : Notifier) : M unit :=
  t <- get_this ;;
  put_this (set_notifiers (notifiers t ++ [notifier]) t).

(** ** addAlert

    [uuid] is the string [uuidv4()] returns when it is called.  The object
    literal is built, with its [new Date()], before the capacity check; the
    spread of [alertConfig] overrides the defaults of the properties it
    has. *)
Definition addAlert (alertConfig : AlertConfig) (uuid : string) : M Alert :=
  let alertId :=
    match cfg_id alertConfig with
    | Some i => if truthy_string i then i else uuid
    | None => uuid
    end in
  now <- Date_now ;;
  let alert :=
    mkAlert (default alertId (cfg_id alertConfig))
            (cfg_symbol alertConfig)
            (cfg_price alertConfig)
            (default "above" (cfg_type alertConfig))
            (default "active" (cfg_status alertConfig))
            (default now (cfg_created alertConfig))
            (cfg_lastPrice alertConfig)
            None None
            (cfg_repeat alertConfig) in
  t <- get_this ;;
  if Map_size (alerts t) >=? maxAlerts t then
    throw (mkError ("Maximum number of alerts (" +:+ pretty (maxAlerts t)
                    +:+ ") reached"))
  else
    put_this (set_alerts (Map_set alertId alert (alerts t)) t) ;;;
    emit (alert_created alert) ;;;
    ret alert.

(** ** removeAlert

    [this.alerts.has(alertId)] and [this.alerts.get(alertId)] are the one
    lookup [Map_get]. *)

Definition removeAlert (alertId : string) : M bool :=
  t <- get_this ;;
  match Map_get alertId (alerts t) with
  | Some alert =>
      put_this (set_alerts (Map_delete alertId (alerts t)) t) ;;;
      emit (alert_removed alert) ;;;
      ret true
  | None => ret false
  end.

(** ** getAlerts *)

Record Filter := mkFilter {
  f_symbol : option string;
  f_status : option string;
  f_type : option string
}.

(** One [if (filter.x) alerts = alerts.filter(a => a.x === filter.x)]. *)
Definition filter_by (f : option string) (field : Alert -> string)
  (l : list (string * Alert)) : list (string * Alert) :=
  match f with
  | Some s =>
      if truthy_string s then List.filter (fun e => String.eqb (field (snd e)) s) l
      else l
  | None => l
  end.

(** The entries [getAlerts] selects, with their keys. *)
Definition getEntries (flt : Filter) (t : AlertManager) : list (string * Alert) :=
  filter_by (f_type flt) type
    (filter_by (f_status flt) status
       (filter_by (f_symbol flt) symbol (alerts t))).

Definition getAlerts (flt : Filter) (t : AlertManager) : list Alert :=
  map snd (getEntries flt t).

(** ** checkAlert

    Returns the verdict and the alert after the assignment to
    [alert.lastPrice]. *)
Definition checkAlert (alert : Alert) (currentPrice : Z) : bool * Alert :=
  if negb (String.eqb (status alert) "active") then (false, alert)
  else
    let shouldTrigger :=
      (String.eqb (type alert) "above" && (currentPrice >=? price alert)) ||
      (String.eqb (type alert) "below" && (currentPrice <=? price alert)) ||
      (String.eqb (type alert) "cross" &&
         ((lt_undef (lastPrice alert) (price alert) && (currentPrice >=? price alert)) ||
          (gt_undef (lastPrice alert) (price alert) && (currentPrice <=? price alert)))) in
    (shouldTrigger, set_lastPrice (Some currentPrice) alert).

(** ** Cooldown key and message text *)

(** The template literal [`${alert.symbol}-${alert.type}-${alert.price}`]. *)
Definition lastAlertKey (alert : Alert) : string :=
  symbol alert +:+ "-" +:+ type alert +:+ "-" +:+ pretty (price alert).

Definition formatAlertMessage (alert : Alert) : string :=
  let emoji := if String.eqb (type alert) "above" then "ðŸ“ˆ" else "ðŸ“‰" in
  emoji +:+ " " +:+ symbol alert +:+ " " +:+ type alert +:+ " $"
        +:+ pretty (price alert) +:+ " (current: $"
        +:+ show_undef (triggeredPrice alert) +:+ ")".

(** ** sendAlert *)

(** [await notifier.send(n)] for the [i]-th notifier: the call is recorded
    with its outcome, and a rejection is raised as an exception. *)
Definition call_send (i : nat) (notifier : Notifier) (n : Notification) : M bool :=
  emit (notifier_send i n (notifier n)) ;;;
  match notifier n with
  | inl e => throw e
  | inr b => ret b
  end.

(** The [for (const notifier of this.notifiers)] loop with its
    [try]/[catch]. *)
Fixpoint forNotifiers (i : nat) (ns : list Notifier) (n : Notification) : M unit :=
  match ns with
  | [] => ret tt
  | notifier :: rest =>
      try_catch
        (call_send i notifier n ;;; ret tt)
        (fun error =>
           t <- get_this ;;
           if logger t then emit (logger_error error) else ret tt) ;;;
      forNotifiers (S i) rest n
  end.

Definition sendAlert (alert : Alert) : M unit :=
  let message := formatAlertMessage alert in
  let n := mkNotification alert message in
  emit (dispatch n) ;;;
  t <- get_this ;;
  forNotifiers 0 (notifiers t) n.

(** ** processPriceUpdate *)

(** [this.alertHistory.push(rec)] followed by the trim to 100 entries. *)
Definition pushHistory (rec : Alert) (h : list Alert) : list Alert :=
  let h' := (h ++ [rec])%list in
  if Nat.ltb 100 (length h') then tl h' else h'.

(** [lastAlertTime && Date.now() - lastAlertTime < this.cooldown]: the clock
    is read only when the stored time is truthy. *)
Definition inCooldown (lastAlertTime : option Z) : M bool :=
  match lastAlertTime with
  | Some t =>
      if truthy_number t then
        now <- Date_now ;;
        t' <- get_this ;;
        ret (now - t <? cooldown t')
      else ret false
  | None => ret false
  end.

(** The three assignments that mark an alert as triggered. *)
Definition markTriggered (at_ price : Z) (alert : Alert) : Alert :=
  set_triggeredPrice (Some price)
    (set_triggeredAt (Some at_) (set_status "triggered" alert)).

(** The body of the [for (const alert of alerts)] loop, for the object
    stored under key [k]; it returns the object after its mutations. *)
Definition loopBody (k : string) (price : Z) (alert : Alert) : M Alert :=
  let '(shouldTrigger, alert) := checkAlert alert price in
  if shouldTrigger then
    let key := lastAlertKey alert in
    t <- get_this ;;
    skip <- inCooldown (lastAlertTimes t !! key) ;;
    if skip then ret alert
    else
      d1 <- Date_now ;;
      let alert := markTriggered d1 price alert in
      d2 <- Date_now ;;
      t <- get_this ;;
      put_this (set_lastAlertTimes (<[key := d2]> (lastAlertTimes t)) t) ;;;
      d3 <- Date_now ;;
      t <- get_this ;;
      put_this (set_alertHistory
                  (pushHistory (set_triggeredAt (Some d3) alert) (alertHistory t)) t) ;;;
      emit (alert_triggered k alert) ;;;
      sendAlert alert ;;;
      ret (if repeat alert then set_status "active" alert else alert)
  else ret alert.

(** Does [getAlerts(flt)] select this alert. *)
Definition passes (f : option string) (v : string) : bool :=
  match f with
  | Some s => if truthy_string s then String.eqb v s else true
  | None => true
  end.
Definition selects (flt : Filter) (a : Alert) : bool :=
  passes (f_symbol flt) (symbol a) && passes (f_status flt) (status a)
  && passes (f_type flt) (type a).

(** The loop over the array [getAlerts(flt)] returned.  The array holds the
    very objects of the store, in insertion order, and the loop mutates them
    in place: the store's entries are walked in order and the body runs on
    those the filter selected. *)
Fixpoint forAlerts (flt : Filter) (price : Z) (entries : list (string * Alert))
  : M (list (string * Alert)) :=
  match entries with
  | [] => ret []
  | (k, alert) :: rest =>
      alert' <- (if selects flt alert then loopBody k price alert else ret alert) ;;
      rest' <- forAlerts flt price rest ;;
      ret ((k, alert') :: rest')
  end.

Definition processPriceUpdate (symbol : string) (price : Z) : M unit :=
  let flt := mkFilter (Some symbol) (Some "active") None in
  t <- get_this ;;
  entries <- forAlerts flt price (alerts t) ;;
  t <- get_this ;;
  put_this (set_alerts entries t).

(** ** clearTriggered *)

Definition clearTriggered : M Z :=
  t <- get_this ;;
  let triggered := getAlerts (mkFilter None (Some "triggered") None) t in
  put_this (set_alerts
              (fold_left (fun m alert => Map_delete (id alert) m) triggered (alerts t))
              t) ;;;
  ret (Z.of_nat (length triggered)).

(** ** Observations used by the statements *)

(** The events one call of the notifier loop produces, notifier by notifier:
    the call with its outcome, then the logged error when the call rejected
    and a logger is configured. *)
Fixpoint sendEvents (lg : bool) (i : nat) (ns : list Notifier) (n : Notification)
  : list Event :=
  match ns with
  | [] => []
  | notifier :: rest =>
      (notifier_send i n (notifier n)
       :: match notifier n with
          | inl e => if lg then [logger_error e] else []
          | inr _ => []
          end)
      ++ sendEvents lg (S i) rest n
  end.

(** The delivery attempts in a list of events: notifier index, payload,
    outcome. *)
Definition attempts (evs : list Event) : list (nat * Notification * (Error + bool)) :=
  omap (fun e => match e with
                 | notifier_send i n r => Some (i, n, r)
                 | _ => None
                 end) evs.

(** The alerts emitted as [alert_triggered] for the store entry [k]. *)
Definition firingsOf (k : string) (evs : list Event) : list Alert :=
  omap (fun e => match e with
                 | alert_triggered k' a => if String.eqb k' k then Some a else None
                 | _ => None
                 end) evs.

(** The alerts emitted as [alert_triggered] whose cooldown key is [K]. *)
Definition triggeredFor (K : string) (evs : list Event) : list Alert :=
  omap (fun e => match e with
                 | alert_triggered _ a =>
                     if String.eqb (lastAlertKey a) K then Some a else None
                 | _ => None
                 end) evs.

(** The calls of [sendAlert] for an alert whose cooldown key is [K]. *)
Definition dispatchedFor (K : string) (evs : list Event) : list Notification :=
  omap (fun e => match e with
                 | dispatch n =>
                     if String.eqb (lastAlertKey (n_alert n)) K then Some n else None
                 | _ => None
                 end) evs.

(** All calls of [sendAlert]. *)
Definition dispatches (evs : list Event) : list Notification :=
  omap (fun e => match e with dispatch n => Some n | _ => None end) evs.

(** The value of the cooldown test of [processPriceUpdate] in world [w] for
    the key [key], and the number of clock readings it makes. *)
Definition cooling (w : World) (key : string) : bool :=
  match lastAlertTimes (this w) !! key with
  | Some t => truthy_number t && (clock w (reads w) - t <? cooldown (this w))
  | None => false
  end.
Definition coolReads (w : World) (key : string) : nat :=
  match lastAlertTimes (this w) !! key with
  | Some t => if truthy_number t then 1%nat else 0%nat
  | None => 0%nat
  end.

(** One iteration of the loop of [processPriceUpdate], for the object [alert]
    stored under [k], fires in world [w]: it ends normally, an alert with
    status [triggered] and the observed price is emitted as
    [alert_triggered] and handed to [sendAlert], a snapshot of it is pushed on
    the history, and the object is left [triggered] unless it repeats. *)
Definition fires (k : string) (price : Z) (alert : Alert) (w : World) : Prop :=
  exists alert' w' a2 evs at_,
    loopBody k price alert w = (inr alert', w') /\
    status a2 = "triggered" /\
    triggeredPrice a2 = Some price /\
    alert' = (if repeat alert then set_status "active" a2 else a2) /\
    alertHistory (this w') =
      pushHistory (set_triggeredAt (Some at_) a2) (alertHistory (this w)) /\
    trace w' =
      (trace w ++ alert_triggered k a2
         :: dispatch (mkNotification a2 (formatAlertMessage a2)) :: evs)%list.

(** The iteration stays quiet: it ends normally, the status is unchanged,
    the manager (history and cooldown times included) is as before and
    nothing is emitted or sent. *)
Definition quiet (k : string) (price : Z) (alert : Alert) (w : World) : Prop :=
  exists alert' w',
    loopBody k price alert w = (inr alert', w') /\
    status alert' = status alert /\
    this w' = this w /\
    trace w' = trace w.

(** The key [addAlert] stores the alert under, and the record it builds
    when the clock reads [now]. *)
Definition alertKey (alertConfig : AlertConfig) (uuid : string) : string :=
  match cfg_id alertConfig with
  | Some i => if truthy_string i then i else uuid
  | None => uuid
  end.
Definition newAlert (alertConfig : AlertConfig) (uuid : string) (now : Z) : Alert :=
  mkAlert (default (alertKey alertConfig uuid) (cfg_id alertConfig))
          (cfg_symbol alertConfig)
          (cfg_price alertConfig)
          (default "above" (cfg_type alertConfig))
          (default "active" (cfg_status alertConfig))
          (default now (cfg_created alertConfig))
          (cfg_lastPrice alertConfig)
          None None
          (cfg_repeat alertConfig).

(** The status of the alert stored under [k], and the events a computation
    from [w] to [w'] added. *)
Definition statusOf (k : string) (w : World) : option string :=
  status <$> Map_get k (alerts (this w)).
Definition newEvents (w w' : World) : list Event :=
  drop (length (trace w)) (trace w').

(** From world [w] on, every reading of the clock is truthy (not the epoch
    itself), and any two readings are less than the cooldown apart: what
    follows happens within one cooldown window.  (A run makes finitely many
    readings; the oracle is free beyond them.) *)
Definition clockTruthy (w : World) : Prop :=
  forall i, (reads w <= i)%nat -> clock w i <> 0.
Definition withinCooldown (w : World) : Prop :=
  forall i j, (reads w <= i)%nat -> (reads w <= j)%nat ->
    clock w j - clock w i < cooldown (this w).

(** The history after the records [recs] were pushed one after the other,
    and the records of a list whose cooldown key is [K]. *)
Definition pushAll (recs : list Alert) (h : list Alert) : list Alert :=
  fold_left (fun h rec => pushHistory rec h) recs h.
Definition keyed (K : string) (l : list Alert) : list Alert :=
  List.filter (fun a => String.eqb (lastAlertKey a) K) l.

(** The cooldown test is false for the key [K] in [w] and stays false as
    time passes, until [K] fires: [K] has no trigger time, or a falsy one, or
    one that every later reading of the clock is at least the cooldown
    after.  (With a clock that does not go back the last case says that the
    cooldown has elapsed in [w].) *)
Definition freeAt (w : World) (K : string) : Prop :=
  match lastAlertTimes (this w) !! K with
  | None => True
  | Some t =>
      t = 0 \/ forall i, (reads w <= i)%nat -> cooldown (this w) <= clock w i - t
  end.

(** Has the trigger time of [K] changed since [w0]: 1 if so, 0 if not. *)
Definition keyCount (K : string) (w0 w : World) : nat :=
  if decide (lastAlertTimes (this w) !! K = lastAlertTimes (this w0) !! K)
  then 0%nat else 1%nat.

(** [w] is a later stage of the run that started in [w0]: same clock and
    cooldown, and the trigger time of [K] is the one of [w0] or was read from
    the clock since [w0]. *)
Definition inWindow (K : string) (w0 w : World) : Prop :=
  clock w = clock w0 /\
  cooldown (this w) = cooldown (this w0) /\
  (reads w0 <= reads w)%nat /\
  (lastAlertTimes (this w) !! K = lastAlertTimes (this w0) !! K \/
   exists i, (reads w0 <= i)%nat /\ lastAlertTimes (this w) !! K = Some (clock w0 i)).

(** From [w] to [w'] events were added and records pushed, and those of the
    key [K] are as many as trigger times of [K] were recorded: one if [K]
    had the trigger time of [w0] before and has a new one now, none
    otherwise. *)
Definition stepFor (K : string) (w0 w w' : World) : Prop :=
  exists evs recs,
    trace w' = (trace w ++ evs)%list /\
    alertHistory (this w') = pushAll recs (alertHistory (this w)) /\
    (keyCount K w0 w <= keyCount K w0 w')%nat /\
    length (triggeredFor K evs) = (keyCount K w0 w' - keyCount K w0 w)%nat /\
    length (dispatchedFor K evs) = (keyCount K w0 w' - keyCount K w0 w)%nat /\
    length (keyed K recs) = (keyCount K w0 w' - keyCount K w0 w)%nat.

(** The entries other than the one stored under [k]: none has the key [k],
    none has the cooldown key [K]. *)
Definition others (k K : string) (entries : list (string * Alert)) : Prop :=
  Forall (fun e => fst e <> k /\ lastAlertKey (snd e) <> K) entries.

(** [w'] is a later stage than [w] of a run (same clock and cooldown), the
    trigger time of [K] did not change and no [alert_triggered] was emitted
    for the entry [k]. *)
Definition frame (k K : string) (w w' : World) : Prop :=
  clock w' = clock w /\
  cooldown (this w') = cooldown (this w) /\
  (reads w <= reads w')%nat /\
  lastAlertTimes (this w') !! K = lastAlertTimes (this w) !! K /\
  exists evs, trace w' = (trace w ++ evs)%list /\ firingsOf k evs = [].

(** The store holds the alert [a] under [k], and all its other entries are
    [others]. *)
Definition holds (k K : string) (a : Alert) (w : World) : Prop :=
  exists pre post,
    alerts (this w) = (pre ++ (k, a) :: post)%list /\
    others k K pre /\ others k K post.

(** Within the events [evs] of a price update that ended in [w'], the alert
    stored under [k] fired at price [p]: one [alert_triggered] was emitted
    for it, with status [triggered] and the observed price, [sendAlert] was
    called with it, and the store holds it [triggered], or [active] again if
    it repeats. *)
Definition firedIn (k : string) (p : Z) (alert : Alert) (w' : World)
  (evs : list Event) : Prop :=
  exists a2,
    firingsOf k evs = [a2] /\
    status a2 = "triggered" /\
    triggeredPrice a2 = Some p /\
    In (dispatch (mkNotification a2 (formatAlertMessage a2))) evs /\
    statusOf k w' = Some (if repeat alert then "active" else "triggered").

(** It did not fire: no [alert_triggered] for it, and the store holds it
    [active]. *)
Definition quietIn (k : string) (w' : World) (evs : list Event) : Prop :=
  firingsOf k evs = [] /\ statusOf k w' = Some "active".

(** A sequence of price updates for one symbol. *)
Fixpoint processPriceUpdates (symbol : string) (prices : list Z) : M unit :=
  match prices with
  | [] => ret tt
  | p :: rest => processPriceUpdate symbol p ;;; processPriceUpdates symbol rest
  end.

(** ** Reachable states

    The operations of the class that change it, and the worlds a freshly
    constructed manager reaches through them. *)
Inductive Op :=
| op_addNotifier (notifier : Notifier)
| op_addAlert (alertConfig : AlertConfig) (uuid : string)
| op_removeAlert (alertId : string)
| op_processPriceUpdate (symbol : string) (price : Z)
| op_clearTriggered.

Definition perform (o : Op) (w : World) : World :=
  match o with
  | op_addNotifier notifier => snd (addNotifier notifier w)
  | op_addAlert alertConfig uuid => snd (addAlert alertConfig uuid w)
  | op_removeAlert alertId => snd (removeAlert alertId w)
  | op_processPriceUpdate symbol price => snd (processPriceUpdate symbol price w)
  | op_clearTriggered => snd (clearTriggered w)
  end.

Inductive reachable : World -> Prop :=
| reachable_new lg mx cd clk :
    reachable (mkWorld (constructor lg mx cd) clk 0 [])
| reachable_perform o w :
    reachable w -> reachable (perform o w).

(** Is the operation a price update, the only one that can fire alerts. *)
Definition is_price_update (o : Op) : bool :=
  match o with op_processPriceUpdate _ _ => true | _ => false end.

(** ** Example worlds *)

(** A new manager with the default configuration and a clock that starts
    at 1000 and advances by one at every reading. *)
Definition new_world : World :=
  mkWorld (constructor false None None) (fun i => 1000 + Z.of_nat i) 0 [].
Definition btc_config : AlertConfig :=
  mkAlertConfig None "BTCUSDT" 50000 None None None None false.

(** A manager with a logger and two notifiers, the first of which rejects
    every call. *)
Definition failing_world : World :=
  mkWorld
    (set_notifiers [fun _ => inl (mkError "network down"); fun _ => inr true]
       (constructor true None None))
    (fun i => 1000 + Z.of_nat i) 0 [].

Definition eth_above : Alert :=
  mkAlert "a" "ETHUSDT" 3000 "above" "active" 0 None None None false.
Definition eth_below : Alert :=
  mkAlert "b" "ETHUSDT" 3000 "below" "active" 0 None None None true.

(** A store with room for one alert, holding one. *)
Definition full_world : World :=
  mkWorld
    (set_alerts [("a", mkAlert "a" "BTCUSDT" 50000 "above" "active" 0 None None None false)]
       (constructor false (Some 1) None))
    (fun i => 1000 + Z.of_nat i) 0 [].

(** The scenario of two alerts (ETHUSDT, 3000, above) added to the store and
    one price update of 3100. *)
Definition eth_config (i : option string) : AlertConfig :=
  mkAlertConfig i "ETHUSDT" 3000 (Some "above") None None None false.
Definition two_alerts_scenario (i1 i2 : option string) (u1 u2 : string) : M unit :=
  addAlert (eth_config i1) u1 ;;;
  addAlert (eth_config i2) u2 ;;;
  processPriceUpdate "ETHUSDT" 3100.

(** A world like [new_world] whose clock stops advancing after 50
    readings. *)
Definition steady_world : World :=
  mkWorld (constructor false None None)
    (fun i => 1000 + Z.of_nat (Nat.min i 50)) 0 [].

(** A store that holds one repeating alert (ETHUSDT, 3000, below), and one
    that holds a [cross] alert on the same target. *)
Definition repeat_world : World :=
  mkWorld (set_alerts [("b", eth_below)] (constructor false None None))
    (clock steady_world) 0 [].
Definition eth_cross : Alert :=
  mkAlert "c" "ETHUSDT" 3000 "cross" "active" 0 None None None true.
Definition cross_world : World :=
  mkWorld (set_alerts [("a", eth_above); ("c", eth_cross)] (constructor false None None))
    (clock steady_world) 0 [].

(** ** getStatistics *)

(** The property names an empty object literal inherits from
    [Object.prototype].  Reading one of them from [stats.bySymbol] gives a
    function or an object, not [undefined]. *)
Definition Object_prototype_names : list string :=
  ["constructor"; "__defineGetter__"; "__defineSetter__"; "hasOwnProperty";
   "__lookupGetter__"; "__lookupSetter__"; "isPrototypeOf";
   "propertyIsEnumerable"; "toString"; "valueOf"; "__proto__";
   "toLocaleString"].
Definition inherited (s : string) : bool :=
  existsb (String.eqb s) Object_prototype_names.

(** A property value of [stats.bySymbol]: a number, or the text that [+ 1]
    makes of an inherited function or object. *)
Inductive Cell :=
| cell_number (n : Z)
| cell_text.

(** [stats.bySymbol[s] = (stats.bySymbol[s] || 0) + 1] on the own properties
    [m] of the object.  An assignment to [__proto__] of a value that is not
    an object changes nothing. *)
Definition bump (s : string) (m : gmap string Cell) : gmap string Cell :=
  let v :=
    match m !! s with
    | Some (cell_number n) => cell_number ((if truthy_number n then n else 0) + 1)
    | Some cell_text => cell_text
    | None => if inherited s then cell_text else cell_number (0 + 1)
    end in
  if String.eqb s "__proto__" then m else <[s := v]> m.

(** [array.slice(-n)] *)
Definition slice_last {A} (n : nat) (l : list A) : list A :=
  drop (length l - n) l.

Record Statistics := mkStatistics {
  total : Z;
  active : Z;
  triggered : Z;
  bySymbol : gmap string Cell;
  recentTriggers : list Alert
}.

Definition getStatistics (t : AlertManager) : Statistics :=
  mkStatistics
    (Map_size (alerts t))
    (Z.of_nat (length (getAlerts (mkFilter None (Some "active") None) t)))
    (Z.of_nat (length (getAlerts (mkFilter None (Some "triggered") None) t)))
    (fold_left (fun m alert => bump (symbol alert) m) (map snd (alerts t)) ∅)
    (slice_last 10 (alertHistory t)).

(** ** uuidv4

    [random16 i] is the value of [Math.random() * 16 | 0] at the [i]-th call
    of the replacement function, a whole number from 0 to 15. *)

(** [v.toString(16)] for a [v] from 0 to 15. *)
Definition toString16 (v : Z) : string :=
  match v with
  | 0 => "0" | 1 => "1" | 2 => "2" | 3 => "3" | 4 => "4" | 5 => "5" | 6 => "6"
  | 7 => "7" | 8 => "8" | 9 => "9" | 10 => "a" | 11 => "b" | 12 => "c"
  | 13 => "d" | 14 => "e" | 15 => "f"
  | _ => ""
  end.

(** [template.replace(/[xy]/g, f)], the callback being called once for
    every match, from left to right. *)
Fixpoint replace_xy (random16 : nat -> Z) (i : nat) (template : string) : string :=
  match template with
  | EmptyString => EmptyString
  | String c rest =>
      if Ascii.eqb c "x"%char || Ascii.eqb c "y"%char then
        let r := random16 i in
        let v := if Ascii.eqb c "x"%char then r else Z.lor (Z.land r 3) 8 in
        toString16 v +:+ replace_xy random16 (S i) rest
      else String c (replace_xy random16 i rest)
  end.

Definition uuidv4 (random16 : nat -> Z) : string :=
  replace_xy random16 0 "xxxxxxxx-xxxx-4xxx-yxxx-xxxxxxxxxxxx".

(** The characters of a generated id, position by position of the
    template. *)
Definition hexDigits : list ascii :=
  ["0"; "1"; "2"; "3"; "4"; "5"; "6"; "7"; "8"; "9"; "a"; "b"; "c"; "d"; "e"; "f"]%char.
Definition fills (c d : ascii) : Prop :=
  if Ascii.eqb c "x"%char then In d hexDigits
  else if Ascii.eqb c "y"%char then In d ["8"; "9"; "a"; "b"]%char
  else d = c.

(** ** Observations on the store *)

(** Every alert is stored under its own [id], and no key occurs twice. *)
Definition wellKeyed (t : AlertManager) : Prop :=
  List.NoDup (map fst (alerts t)) /\
  List.Forall (fun e => id (snd e) = fst e) (alerts t).

(** [a'] is the alert [a] after some price updates: the fields given at
    creation are as they were. *)
Definition sameAlert (a a' : Alert) : Prop :=
  id a' = id a /\ symbol a' = symbol a /\ price a' = price a /\
  type a' = type a /\ created a' = created a /\ repeat a' = repeat a.

(** The history [h] once the records [recs] were added at its end one after
    the other, the oldest entry being dropped whenever an addition takes
    the length above 100. *)
Definition appended (recs h : list Alert) : list Alert :=
  drop (Nat.min (length recs) (length h + length recs - 100)) (h ++ recs).

(** [rec] is the history entry of a firing of [alert] at the price [p]. *)
Definition entryFor (alert : Alert) (p : Z) (rec : Alert) : Prop :=
  sameAlert alert rec /\ status rec = "triggered" /\
  triggeredPrice rec = Some p /\ triggeredAt rec <> None.

(** The iteration of the loop for [alert] appends its history entry. *)
Definition appendsEntry (k : string) (p : Z) (alert : Alert) (w : World) : Prop :=
  exists alert' w' rec,
    loopBody k p alert w = (inr alert', w') /\
    alertHistory (this w') = appended [rec] (alertHistory (this w)) /\
    entryFor alert p rec.

(** The number of alerts of a list with the symbol [s]. *)
Definition withSymbol (s : string) (l : list Alert) : nat :=
  length (List.filter (fun a => String.eqb (symbol a) s) l).

(** A record of the history is the snapshot of a firing. *)
Definition isSnapshot (rec : Alert) : Prop :=
  status rec = "triggered" /\ triggeredAt rec <> None /\ triggeredPrice rec <> None /\
  lastPrice rec = triggeredPrice rec.

(** The relation between an entry of the store and the same entry after a
    price update of price [p] whose filter is [flt]. *)
Definition updated (flt : Filter) (p : Z) (e e' : string * Alert) : Prop :=
  fst e' = fst e /\
  sameAlert (snd e) (snd e') /\
  (selects flt (snd e) = false -> snd e' = snd e) /\
  (selects flt (snd e) = true -> status (snd e) = "active" ->
     lastPrice (snd e') = Some p).

(** Every record of the history is the snapshot of a firing, and the
    cooldown key of its alert has a recorded trigger time. *)
Definition recorded (t : AlertManager) : Prop :=
  List.Forall
    (fun rec => isSnapshot rec /\ is_Some (lastAlertTimes t !! lastAlertKey rec))
    (alertHistory t).

(** A store with three alerts, one of them triggered, and a history of one
    record. *)
Definition eth_fired : Alert :=
  mkAlert "t" "ETHUSDT" 2500 "above" "triggered" 0 (Some 2600) (Some 7) (Some 2600) false.
Definition mixed_world : World :=
  mkWorld
    (set_alertHistory [eth_fired]
       (set_alerts [("a", eth_above); ("t", eth_fired); ("c", eth_cross)]
          (constructor false None None)))
    (clock steady_world) 0 [].
Definition sol_above : Alert :=
  mkAlert "s" "SOLUSDT" 150 "above" "active" 0 None None None false.
Definition sol_world : World :=
  mkWorld (set_alerts [("a", eth_above); ("s", sol_above)] (constructor false None None))
    (clock steady_world) 0 [].

(** A store whose one alert was added with the empty string as its id: the
    alert is kept under the generated key and its [id] property is the empty
    string. *)
Definition empty_id_config : AlertConfig := eth_config (Some "").
Definition empty_id_world : World := snd (addAlert empty_id_config "u1" new_world).
Definition empty_id_alert : Alert :=
  mkAlert "" "ETHUSDT" 3000 "above" "active" 1000 None None None false.

End AlertManager.

(** * The Telegram notifier

    [processQueue] is an [async] function: it runs until it reaches an
    [await], is suspended there, and is resumed later, while other calls
    ([send], [cleanup]) may run in between.  The embedding is a step
    relation whose steps are the synchronous segments between two [await]s;
    a suspended activation of [processQueue] is kept in the state with the
    point at which it waits. *)

Module TelegramNotifier.

Record Message := mkMessage {
  n_type : string;
  n_symbol : option string;
  n_message : option string;
  n_price : option Z
}.

Inductive SendError := mkSendError (msg : string).

(** The instance fields of the class; [bot] is [false] for [null]. *)
Record TelegramNotifier := mkTelegramNotifier {
  botToken : option string;
  chatId : option string;
  enabled : bool;
  bot : bool;
  lastSendTime : Z;
  minInterval : Z;
  messageQueue : list Message;
  processing : bool
}.

(** A suspended activation of [processQueue]: at [await this.sleep(ms)],
    whose timer was set to fire when the clock reads [wake], or at
    [await this.sendMessage(notification)] with the outcome of the call. *)
Inductive Drain :=
| sleeping (notification : Message) (wake : Z)
| sending (notification : Message) (outcome : SendError + bool).

(** What is observed: [message_sent] is emitted by [sendMessage], at the
    time of the delivery attempt; [send_error] by the [catch]; [sent_at]
    records the assignment [this.lastSendTime = Date.now()];
    [emitted_initialized] and [emitted_cleanup] are the events
    ['initialized'] and ['cleanup']. *)
Inductive Emitted :=
| message_sent (notification : Message) (time : Z)
| sent_at (notification : Message) (time : Z)
| send_error (notification : Message) (error : SendError)
| emitted_initialized
| emitted_cleanup.

(** The notifier together with its environment: the clock, the suspended
    activations and what was observed so far. *)
Record Runtime := mkRuntime {
  self : TelegramNotifier;
  now : Z;                       (* Date.now() *)
  drains : list Drain;
  log : list Emitted
}.

(** The constructor of the class. *)
Definition new_TelegramNotifier (cfg_botToken cfg_chatId : option string) (cfg_enabled : option bool)
  : TelegramNotifier :=
  mkTelegramNotifier cfg_botToken cfg_chatId
    (match cfg_enabled with Some false => false | _ => true end)
    false 0 1000 [] false.

Definition set_enabled (b : bool) (t : TelegramNotifier) :=
  mkTelegramNotifier (botToken t) (chatId t) b (bot t) (lastSendTime t)
    (minInterval t) (messageQueue t) (processing t).
Definition set_bot (b : bool) (t : TelegramNotifier) :=
  mkTelegramNotifier (botToken t) (chatId t) (enabled t) b (lastSendTime t)
    (minInterval t) (messageQueue t) (processing t).
Definition set_lastSendTime (z : Z) (t : TelegramNotifier) :=
  mkTelegramNotifier (botToken t) (chatId t) (enabled t) (bot t) z
    (minInterval t) (messageQueue t) (processing t).
Definition set_messageQueue (q : list Message) (t : TelegramNotifier) :=
  mkTelegramNotifier (botToken t) (chatId t) (enabled t) (bot t) (lastSendTime t)
    (minInterval t) q (processing t).
Definition set_processing (b : bool) (t : TelegramNotifier) :=
  mkTelegramNotifier (botToken t) (chatId t) (enabled t) (bot t) (lastSendTime t)
    (minInterval t) (messageQueue t) b.

Definition truthy_token (o : option string) : bool :=
  match o with Some s => negb (String.eqb s "") | None => false end.

(** ** initialize

    [listener_throws] says whether a listener of ['initialized'] throws,
    which is what takes the [try] to its [catch]: [bot] is set by then, and
    the [catch] disables the notifier. *)
Definition initialize (listener_throws : bool) (w : Runtime) : Runtime :=
  if negb (enabled (self w)) || negb (truthy_token (botToken (self w))) then w
  else
    let t := set_bot true (self w) in
    mkRuntime (if listener_throws then set_enabled false t else t)
      (now w) (drains w) (log w ++ [emitted_initialized]).

(** ** The loop of processQueue

    From the test of the [while] to the next [await] or to the end of the
    function.  [outcome] is what [sendMessage] answers if it is called. *)
Definition loopHead (outcome : SendError + bool) (w : Runtime) : Runtime :=
  match messageQueue (self w) with
  | [] =>
      mkRuntime (set_processing false (self w)) (now w) (drains w) (log w)
  | notification :: rest =>
      let t := set_messageQueue rest (self w) in
      let now_ := now w in
      let timeSinceLastSend := now_ - lastSendTime t in
      if timeSinceLastSend <? minInterval t then
        mkRuntime t (now w)
          (drains w ++ [sleeping notification (now_ + (minInterval t - timeSinceLastSend))])
          (log w)
      else
        mkRuntime t (now w)
          (drains w ++ [sending notification outcome])
          (log w ++ [message_sent notification (now w)])
  end.

(** ** processQueue, up to its first [await] *)
Definition processQueue (outcome : SendError + bool) (w : Runtime) : Runtime :=
  if processing (self w) || Nat.eqb (length (messageQueue (self w))) 0 then w
  else loopHead outcome
         (mkRuntime (set_processing true (self w)) (now w) (drains w) (log w)).

(** ** send, up to its [await] *)
Definition send (notification : Message) (outcome : SendError + bool) (w : Runtime)
  : Runtime :=
  if negb (enabled (self w)) || negb (bot (self w)) then w
  else
    let w1 := mkRuntime (set_messageQueue (messageQueue (self w) ++ [notification]) (self w))
                (now w) (drains w) (log w) in
    if negb (processing (self w1)) then processQueue outcome w1 else w1.

(** ** Resuming a suspended activation *)

(** After [await this.sleep(ms)]: [sendMessage] is called. *)
Definition afterSleep (notification : Message) (outcome : SendError + bool)
  (others : list Drain) (w : Runtime) : Runtime :=
  mkRuntime (self w) (now w) (others ++ [sending notification outcome])
    (log w ++ [message_sent notification (now w)]).

(** After [await this.sendMessage(notification)] resolved: the send time is
    recorded and the loop goes on. *)
Definition afterSent (notification : Message) (outcome : SendError + bool)
  (others : list Drain) (w : Runtime) : Runtime :=
  loopHead outcome
    (mkRuntime (set_lastSendTime (now w) (self w)) (now w) others
       (log w ++ [sent_at notification (now w)])).

(** After it rejected: the [catch] emits [send_error] and the loop goes on. *)
Definition afterFailed (notification : Message) (error : SendError)
  (outcome : SendError + bool) (others : list Drain) (w : Runtime) : Runtime :=
  loopHead outcome
    (mkRuntime (self w) (now w) others (log w ++ [send_error notification error])).

(** ** Steps

    Time passes; a method is called; a suspended activation is resumed.
    [Date.now()] and the timer of [sleep] are two clocks: nothing in the
    code ties the moment [setTimeout] fires to the value [Date.now()] has
    then, and [Date.now()] is the wall clock, which may be set back.  With
    [onTime] the steps are those of a run in which the clock does not go
    back and no sleep ends before the clock reads its wake time; without
    it any reading and any moment is allowed.  [cleanup] is its two halves:
    the call of [processQueue] when the queue is not empty, and
    [this.bot = null] with the event ['cleanup']; between the two the
    method awaits, and other steps may happen. *)
Inductive stepWith (onTime : bool) : Runtime -> Runtime -> Prop :=
| step_tick w d :
    (onTime = true -> 0 <= d) ->
    stepWith onTime w (mkRuntime (self w) (now w + d) (drains w) (log w))
| step_initialize w listener_throws :
    stepWith onTime w (initialize listener_throws w)
| step_send w notification outcome :
    stepWith onTime w (send notification outcome w)
| step_cleanup_drain w outcome :
    stepWith onTime w
      (if Nat.ltb 0 (length (messageQueue (self w))) then processQueue outcome w else w)
| step_cleanup_close w :
    stepWith onTime w
      (mkRuntime (if bot (self w) then set_bot false (self w) else self w)
         (now w) (drains w) (log w ++ [emitted_cleanup]))
| step_wake w notification wake outcome ds1 ds2 :
    drains w = (ds1 ++ sleeping notification wake :: ds2)%list ->
    (onTime = true -> wake <= now w) ->
    stepWith onTime w (afterSleep notification outcome (ds1 ++ ds2) w)
| step_sent w notification b outcome ds1 ds2 :
    drains w = (ds1 ++ sending notification (inr b) :: ds2)%list ->
    stepWith onTime w (afterSent notification outcome (ds1 ++ ds2) w)
| step_failed w notification error outcome ds1 ds2 :
    drains w = (ds1 ++ sending notification (inl error) :: ds2)%list ->
    stepWith onTime w (afterFailed notification error outcome (ds1 ++ ds2) w).

(** The steps of the notifier, whatever the timers and the clock do. *)
Definition step : Runtime -> Runtime -> Prop := stepWith false.

(** The states a notifier can be in after it was created, whatever the
    time it is created at. *)
Inductive reachesWith (onTime : bool) : Runtime -> Prop :=
| reaches_new token chat en t0 :
    reachesWith onTime (mkRuntime (new_TelegramNotifier token chat en) t0 [] [])
| reaches_step w w' :
    reachesWith onTime w -> stepWith onTime w w' -> reachesWith onTime w'.

Definition reaches : Runtime -> Prop := reachesWith false.
Definition reachesOnTime : Runtime -> Prop := reachesWith true.

(** What happens without a call of the notifier's methods, in a run that
    is on time: time passes, a sleep ends, a delivery settles. *)
Inductive settle : Runtime -> Runtime -> Prop :=
| settle_tick w d :
    0 <= d ->
    settle w (mkRuntime (self w) (now w + d) (drains w) (log w))
| settle_wake w notification wake outcome ds1 ds2 :
    drains w = (ds1 ++ sleeping notification wake :: ds2)%list ->
    wake <= now w ->
    settle w (afterSleep notification outcome (ds1 ++ ds2) w)
| settle_sent w notification b outcome ds1 ds2 :
    drains w = (ds1 ++ sending notification (inr b) :: ds2)%list ->
    settle w (afterSent notification outcome (ds1 ++ ds2) w)
| settle_failed w notification error outcome ds1 ds2 :
    drains w = (ds1 ++ sending notification (inl error) :: ds2)%list ->
    settle w (afterFailed notification error outcome (ds1 ++ ds2) w).

(** ** Observations *)

(** The recorded send times, oldest first. *)
Definition sendTimes (l : list Emitted) : list Z :=
  omap (fun e => match e with sent_at _ t => Some t | _ => None end) l.

(** The send time in force after the log [l], starting from [last]. *)
Definition lastRecorded (last : Z) (l : list Emitted) : Z :=
  fold_left (fun acc e => match e with sent_at _ t => t | _ => acc end) l last.

(** Every delivery attempt and every recorded send time of the log is at
    least [mi] after the send time recorded before it ([last] at the
    start). *)
Fixpoint spaced (mi last : Z) (l : list Emitted) : Prop :=
  match l with
  | [] => True
  | message_sent _ t :: l' => last + mi <= t /\ spaced mi last l'
  | sent_at _ t :: l' => last + mi <= t /\ spaced mi t l'
  | _ :: l' => spaced mi last l'
  end.

(** Any two consecutive elements are at least [mi] apart. *)
Definition wellSpaced (mi : Z) (ts : list Z) : Prop :=
  forall i t1 t2, ts !! i = Some t1 -> ts !! S i = Some t2 -> t1 + mi <= t2.

(** The timer of a sleeping activation is set to [lastSendTime +
    minInterval]. *)
Definition drainOk (w : Runtime) (d : Drain) : Prop :=
  match d with
  | sleeping _ wake => wake = lastSendTime (self w) + minInterval (self w)
  | sending _ _ => True
  end.

(** The invariant of the states a notifier can be in, whatever the timers
    and the clock do. *)
Definition Inv (w : Runtime) : Prop :=
  minInterval (self w) = 1000 /\
  ((processing (self w) = false /\ drains w = []) \/
   (processing (self w) = true /\ exists d, drains w = [d] /\ drainOk w d)) /\
  lastRecorded 0 (log w) = lastSendTime (self w).

(** What holds besides in a run that is on time: the log is spaced, and a
    delivery is awaited only [minInterval] or more after the last send
    time. *)
Definition Timed (w : Runtime) : Prop :=
  spaced 1000 0 (log w) /\
  forall n r, In (sending n r) (drains w) ->
    lastSendTime (self w) + minInterval (self w) <= now w.

(** What holds when the loop is entered or re-entered: the activation that
    runs is the only one. *)
Definition atHead (w : Runtime) : Prop :=
  minInterval (self w) = 1000 /\
  processing (self w) = true /\
  drains w = [] /\
  lastRecorded 0 (log w) = lastSendTime (self w).

(** ** formatMessage

    A property of the notification that may be a number or a string. *)
Inductive Value :=
| v_number (z : Z)
| v_text (s : string).

Definition truthy_value (v : option Value) : bool :=
  match v with
  | Some (v_number z) => truthy_number z
  | Some (v_text s) => truthy_string s
  | None => false
  end.
Definition show_value (v : option Value) : string :=
  match v with
  | Some (v_number z) => pretty z
  | Some (v_text s) => s
  | None => "undefined"
  end.

Definition newline : string := String "010"%char EmptyString.

(** [direction], [amount] and [impact] are the properties of these names of
    the notification, which [Message] does not hold; [time] is the text of
    [new Date().toLocaleTimeString()]. *)
Definition formatMessage (direction : option string) (amount impact : option Value)
  (time : string) (notification : Message) : string :=
  let emoji :=
    if String.eqb (n_type notification) "WHALE_DETECTED" then "ðŸ‹ "
    else if String.eqb (n_type notification) "PRICE_ALERT" then
      match direction with
      | Some d => if String.eqb d "above" then "ðŸ“ˆ " else "ðŸ“‰ "
      | None => "ðŸ“‰ "
      end
    else if String.eqb (n_type notification) "FLOW_ALERT" then "ðŸ”„ "
    else "ðŸ“¢ " in
  let title :=
    match n_symbol notification with
    | Some s => if truthy_string s then s +:+ newline else ""
    | None => ""
    end in
  let main :=
    match n_message notification with
    | Some s => if truthy_string s then s +:+ newline else ""
    | None => ""
    end in
  let price_ :=
    match n_price notification with
    | Some p => if truthy_number p then "Price: $" +:+ pretty p +:+ newline else ""
    | None => ""
    end in
  let amount_ :=
    if truthy_value amount then "Amount: " +:+ show_value amount +:+ newline else "" in
  let impact_ :=
    if truthy_value impact then "Impact: " +:+ show_value impact +:+ newline else "" in
  emoji +:+ title +:+ main +:+ price_ +:+ amount_ +:+ impact_
        +:+ newline +:+ "â° " +:+ time.

(** ** isReady, getQueueStatus *)

Definition isReady (t : TelegramNotifier) : bool := enabled t && bot t.

Record QueueStatus := mkQueueStatus {
  queued : nat;
  qs_processing : bool;
  qs_enabled : bool;
  ready : bool
}.

Definition getQueueStatus (t : TelegramNotifier) : QueueStatus :=
  mkQueueStatus (length (messageQueue t)) (processing t) (enabled t) (isReady t).

(** The value the promise of [send] resolves to. *)
Definition send_returns (w : Runtime) : bool :=
  if negb (enabled (self w)) || negb (bot (self w)) then false else true.

(** ** Observations on the queue *)

(** The notifications [sendMessage] was called with, oldest first. *)
Definition attempted (l : list Emitted) : list Message :=
  omap (fun e => match e with message_sent n _ => Some n | _ => None end) l.

(** The notifications taken off the queue that wait for the rate limit. *)
Definition sleepers (ds : list Drain) : list Message :=
  omap (fun d => match d with sleeping n _ => Some n | sending _ _ => None end) ds.

(** Every notification [send] accepted so far: those attempted, the one
    that waits for the rate limit, those still in the queue. *)
Definition inbox (w : Runtime) : list Message :=
  (attempted (log w) ++ sleepers (drains w) ++ messageQueue (self w))%list.

(** Nothing is queued and no activation of [processQueue] is in flight. *)
Definition idle (w : Runtime) : Prop :=
  processing (self w) = false /\ drains w = [] /\ messageQueue (self w) = [].

(** What the constructor and [initialize] establish about [bot], and the
    flag [processing] with respect to the queue. *)
Definition Configured (w : Runtime) : Prop :=
  (processing (self w) = false -> messageQueue (self w) = []) /\
  (bot (self w) = true -> truthy_token (botToken (self w)) = true).

(** A notifier without token, created at time 0. *)
Definition w_off : Runtime :=
  mkRuntime (new_TelegramNotifier None (Some "chat") None) 0 [] [].

(** ** Example run *)

Definition hello : Message := mkMessage "TEST" None (Some "hello") None.
Definition again : Message := mkMessage "TEST" None (Some "again") None.

(** A notifier created at time 5000 and initialized sends [hello] at once,
    queues [again] while that delivery is in flight, sleeps, and sends
    [again] 1200 ms later. *)
Definition w_0 : Runtime := mkRuntime (new_TelegramNotifier (Some "token") (Some "chat") None) 5000 [] [].
Definition w_1 : Runtime := initialize false w_0.
Definition w_2 : Runtime := send hello (inr true) w_1.
Definition w_3 : Runtime := send again (inr true) w_2.
Definition w_4 : Runtime := afterSent hello (inr true) [] w_3.
Definition w_5 : Runtime := mkRuntime (self w_4) (now w_4 + 1200) (drains w_4) (log w_4).
Definition w_6 : Runtime := afterSleep again (inr true) [] w_5.
Definition w_7 : Runtime := afterSent again (inr true) [] w_6.

(** The same run with a timer that fires 1 ms early by the clock: the
    sleep of [again], set for 6000, ends when the clock reads 5999. *)
Definition early_5 : Runtime := mkRuntime (self w_4) (now w_4 + 999) (drains w_4) (log w_4).
Definition early_6 : Runtime := afterSleep again (inr true) [] early_5.
Definition early_7 : Runtime := afterSent again (inr true) [] early_6.

(** A notifier whose ['initialized'] listener throws. *)
Definition w_failed : Runtime := initialize true w_0.

End TelegramNotifier.

(** * The error handler

    [ErrorHandler] counts the errors it is given by name and code, keeps
    the last ten of them, grades them and suggests what to do next.  The
    errors are JavaScript objects; the embedding keeps the properties the
    class reads. *)

Module ErrorHandler.

(** ** Errors *)

(** The class an error object is an instance of, for [instanceof]. *)
Inductive ErrorClass :=
| class_Error
| class_WhaleTrackerError
| class_APIError
| class_ConfigurationError
| class_ValidationError.

(** [e_statusCode] is [error.details?.statusCode]; a field of type [option]
    is a property that may be [undefined]. *)
Record ErrorValue := mkErrorValue {
  e_class : ErrorClass;
  e_name : string;
  e_message : option string;
  e_code : option string;
  e_statusCode : option Z
}.

(** The constructors of the error classes. *)
Definition new_Error (message : string) : ErrorValue :=
  mkErrorValue class_Error "Error" (Some message) None None.
Definition new_WhaleTrackerError (message : string) (code : option string)
  (statusCode : option Z) : ErrorValue :=
  mkErrorValue class_WhaleTrackerError "WhaleTrackerError" (Some message) code statusCode.
Definition new_APIError (message : string) (statusCode : option Z) : ErrorValue :=
  mkErrorValue class_APIError "APIError" (Some message) (Some "API_ERROR") statusCode.
Definition new_ConfigurationError (message : string) : ErrorValue :=
  mkErrorValue class_ConfigurationError "ConfigurationError" (Some message)
    (Some "CONFIG_ERROR") None.
Definition new_ValidationError (message : string) : ErrorValue :=
  mkErrorValue class_ValidationError "ValidationError" (Some message)
    (Some "VALIDATION_ERROR") None.

Definition is_APIError (e : ErrorValue) : bool :=
  match e_class e with class_APIError => true | _ => false end.
Definition is_ConfigurationError (e : ErrorValue) : bool :=
  match e_class e with class_ConfigurationError => true | _ => false end.
Definition is_ValidationError (e : ErrorValue) : bool :=
  match e_class e with class_ValidationError => true | _ => false end.

(** [s.includes(search)] *)
Fixpoint includes (search s : string) : bool :=
  String.prefix search s ||
  match s with
  | EmptyString => false
  | String _ s' => includes search s'
  end.

(** [error.message?.includes(search)], as a condition. *)
Definition message_includes (search : string) (e : ErrorValue) : bool :=
  match e_message e with Some m => includes search m | None => false end.

(** [error.code === c] *)
Definition code_is (c : string) (e : ErrorValue) : bool :=
  match e_code e with Some x => String.eqb x c | None => false end.

(** [a >= b] where [a] may be [undefined]. *)
Definition ge_undef (a : option Z) (b : Z) : bool :=
  match a with Some x => x >=? b | None => false end.

(** ** The handler *)

(** An element of [lastErrors]. *)
Record Tracked := mkTracked {
  t_error : ErrorValue;
  t_timestamp : Z;
  t_count : Z
}.

Record ErrorHandler := mkErrorHandler {
  eh_logger : bool;                       (* is a logger given *)
  errorCounts : gmap string Z;
  lastErrors : list Tracked;
  maxLastErrors : nat
}.

Definition new_ErrorHandler (logger : bool) : ErrorHandler :=
  mkErrorHandler logger ∅ [] 10.

(** The template literal [`${error.name}:${error.code || 'unknown'}`]. *)
Definition errorKey (e : ErrorValue) : string :=
  e_name e +:+ ":" +:+
  match e_code e with
  | Some c => if truthy_string c then c else "unknown"
  | None => "unknown"
  end.

(** ** trackError

    [now] is the value of [new Date()]. *)
Definition trackError (now : Z) (error : ErrorValue) (h : ErrorHandler) : ErrorHandler :=
  let key := errorKey error in
  let count := number_or (errorCounts h !! key) 0 + 1 in
  let l := (lastErrors h ++ [mkTracked error now count])%list in
  mkErrorHandler (eh_logger h)
    (<[key := count]> (errorCounts h))
    (if Nat.ltb (maxLastErrors h) (length l) then tl l else l)
    (maxLastErrors h).

(** ** determineSeverity *)
Definition determineSeverity (error : ErrorValue) : string :=
  if code_is "ENOTFOUND" error || code_is "ECONNREFUSED" error then "critical"
  else if is_ConfigurationError error then "critical"
  else if is_APIError error && ge_undef (e_statusCode error) 500 then "high"
  else if message_includes "API key" error then "high"
  else if is_APIError error && ge_undef (e_statusCode error) 400 then "medium"
  else if is_ValidationError error then "medium"
  else "low".

(** ** suggestRecovery *)
Record Recovery := mkRecovery {
  action : string;
  delay : option Z;
  r_message : string
}.

Definition suggestRecovery (error : ErrorValue) : Recovery :=
  if code_is "ENOTFOUND" error || code_is "ECONNREFUSED" error then
    mkRecovery "retry" (Some 5000) "Network error - will retry connection"
  else if message_includes "rate limit" error then
    mkRecovery "backoff" (Some 60000) "Rate limit hit - backing off"
  else if is_ConfigurationError error then
    mkRecovery "stop" None "Configuration error - please check settings"
  else
    mkRecovery "continue" None "Error logged - continuing operation".

(** ** handleError *)

Inductive LogLevel := level_fatal | level_error | level_warn | level_info.

(** A call of the logger: the level, the text if the first argument is one,
    and the error that is passed, if any. *)
Record LogCall := mkLogCall {
  l_level : LogLevel;
  l_text : option string;
  l_error : option ErrorValue
}.

(** The [switch] over the severity, with the four handlers it calls. *)
Definition handleBySeverity (logger : bool) (severity : string) (error : ErrorValue)
  : list LogCall :=
  if negb logger then []
  else if String.eqb severity "critical" then
    [mkLogCall level_fatal (Some "Critical error occurred - system may be unstable") (Some error)]
  else if String.eqb severity "high" then
    [mkLogCall level_error (Some "High severity error - immediate attention needed") (Some error)]
  else if String.eqb severity "medium" then
    [mkLogCall level_warn (Some "Medium severity error - monitoring required") (Some error)]
  else if String.eqb severity "low" then
    [mkLogCall level_info (Some "Low severity error - logged for tracking") (Some error)]
  else [].

(** Returns the suggestion, the handler after the call and what was
    written to the logger. *)
Definition handleError (now : Z) (error : ErrorValue) (h : ErrorHandler)
  : Recovery * ErrorHandler * list LogCall :=
  let h1 := trackError now error h in
  let l1 := if eh_logger h1 then [mkLogCall level_error None (Some error)] else [] in
  let severity := determineSeverity error in
  let l2 := handleBySeverity (eh_logger h1) severity error in
  (suggestRecovery error, h1, (l1 ++ l2)%list).

(** ** getStatistics, clearHistory *)

Record ErrorStatistics := mkErrorStatistics {
  totalErrors : Z;
  uniqueErrors : nat;
  st_errorCounts : gmap string Z;
  recentErrors : list Tracked
}.

(** [ErrorHandler.getStatistics]; the [reduce] adds the values of the map
    to 0. *)
Definition getErrorStatistics (h : ErrorHandler) : ErrorStatistics :=
  mkErrorStatistics
    (map_fold (fun _ b a => a + b) 0 (errorCounts h))
    (size (errorCounts h))
    (errorCounts h)
    (AlertManager.slice_last 5 (lastErrors h)).

Definition clearHistory (h : ErrorHandler) : ErrorHandler :=
  mkErrorHandler (eh_logger h) ∅ [] (maxLastErrors h).

(** ** Observations *)

(** The handler after the errors of [inputs] were handled one after the
    other, each with the time it was handled at. *)
Definition handleAll (inputs : list (Z * ErrorValue)) (h : ErrorHandler) : ErrorHandler :=
  fold_left (fun h i => snd (fst (handleError (fst i) (snd i) h))) inputs h.

(** The number of errors of a list that are counted under the key [k]. *)
Definition occurrences (k : string) (es : list ErrorValue) : nat :=
  length (List.filter (fun e => String.eqb (errorKey e) k) es).

(** What holds of the handler after the errors [es] since the history was
    cleared. *)
Definition tracks (es : list ErrorValue) (h : ErrorHandler) : Prop :=
  maxLastErrors h = 10%nat /\
  totalErrors (getErrorStatistics h) = Z.of_nat (length es) /\
  (forall k, errorCounts h !! k =
     if (occurrences k es =? 0)%nat then None else Some (Z.of_nat (occurrences k es))) /\
  (size (errorCounts h) <= length es)%nat /\
  map t_error (lastErrors h) = AlertManager.slice_last 10 es.

(** ** Examples *)

Definition refused : ErrorValue :=
  mkErrorValue class_Error "Error" (Some "connect ECONNREFUSED") (Some "ECONNREFUSED") None.
Definition throttled_config : ErrorValue :=
  new_ConfigurationError "rate limit must be positive".

End ErrorHandler.

(** * The tracker

    [WhaleTracker] is the entry point of the package.  Its methods
    [addAlert] and [removeAlert] call the alert manager, keep the map
    [activeAlerts] and hand every error to the error handler before
    rethrowing it.  The embedding holds the fields these two methods use;
    [initialize], which builds the manager, is not part of it. *)

Module WhaleTracker.

(** What the tracker emits in these methods: ['alert_added'] with the
    alert, ['alert_removed'] with [{ alertId }]. *)
Inductive TrackerEvent :=
| alert_added (alert : AlertManager.Alert)
| tracker_alert_removed (alertId : string).

(** The fields of the class.  [alertManager] is [None] for [null];
    [wt_clock] and [wt_reads] are the wall clock, shared with the manager;
    [managerEvents] is what the manager emitted, [written] what was passed
    to the logger.  A value of [activeAlerts] is the object [addAlert]
    returned, as it was then; the class reads only the keys and the size of
    this map. *)
Record WhaleTracker := mkWhaleTracker {
  isInitialized : bool;
  alertManager : option AlertManager.AlertManager;
  errorHandler : ErrorHandler.ErrorHandler;
  activeAlerts : list (string * AlertManager.Alert);
  wt_clock : nat -> Z;
  wt_reads : nat;
  managerEvents : list AlertManager.Event;
  trackerEvents : list TrackerEvent;
  written : list ErrorHandler.LogCall
}.

(** The properties of the argument [options] the alert manager reads. *)
Record Options := mkOptions {
  o_id : option string;
  o_symbol : option string;
  o_price : option Z;
  o_type : option string;
  o_status : option string;
  o_created : option Z;
  o_lastPrice : option Z;
  o_repeat : bool
}.

(** The object literal [{ symbol, price, type, ...options }]; [type] is
    ['above'] when the argument is [undefined]. *)
Definition alertConfigOf (symbol : string) (price : Z) (type : option string)
  (options : Options) : AlertManager.AlertConfig :=
  AlertManager.mkAlertConfig
    (o_id options)
    (default symbol (o_symbol options))
    (default price (o_price options))
    (Some (default (default "above" type) (o_type options)))
    (o_status options)
    (o_created options)
    (o_lastPrice options)
    (o_repeat options).

(** The error of [_checkInitialized]. *)
Definition notInitialized : ErrorHandler.ErrorValue :=
  ErrorHandler.new_Error "WhaleTracker not initialized. Call initialize() first.".

(** The [TypeError] of a method call on [null]. *)
Definition nullManager (method : string) : ErrorHandler.ErrorValue :=
  ErrorHandler.mkErrorValue ErrorHandler.class_Error "TypeError"
    (Some ("Cannot read properties of null (reading '" +:+ method +:+ "')")) None None.

(** The error object the alert manager threw. *)
Definition thrown (e : AlertManager.Error) : ErrorHandler.ErrorValue :=
  match e with AlertManager.mkError msg => ErrorHandler.new_Error msg end.

(** [this.logger.info(text, ...)] *)
Definition logger_info (text : string) (t : WhaleTracker) : WhaleTracker :=
  mkWhaleTracker (isInitialized t) (alertManager t) (errorHandler t) (activeAlerts t)
    (wt_clock t) (wt_reads t) (managerEvents t) (trackerEvents t)
    (written t ++ [ErrorHandler.mkLogCall ErrorHandler.level_info (Some text) None]).

(** [this.errorHandler.handleError(error)]: the handler reads the clock
    once. *)
Definition handle (error : ErrorHandler.ErrorValue) (t : WhaleTracker) : WhaleTracker :=
  let '(_, h, calls) :=
    ErrorHandler.handleError (wt_clock t (wt_reads t)) error (errorHandler t) in
  mkWhaleTracker (isInitialized t) (alertManager t) h (activeAlerts t)
    (wt_clock t) (S (wt_reads t)) (managerEvents t) (trackerEvents t)
    (written t ++ calls).

(** The manager with the tracker's clock, and the tracker after a call of
    the manager. *)
Definition managerWorld (mgr : AlertManager.AlertManager) (t : WhaleTracker)
  : AlertManager.World :=
  AlertManager.mkWorld mgr (wt_clock t) (wt_reads t) (managerEvents t).
Definition afterManager (w : AlertManager.World) (t : WhaleTracker) : WhaleTracker :=
  mkWhaleTracker (isInitialized t) (Some (AlertManager.this w)) (errorHandler t)
    (activeAlerts t) (wt_clock t) (AlertManager.reads w) (AlertManager.trace w)
    (trackerEvents t) (written t).

(** ** addAlert

    [uuid] is what [uuidv4()] returns if the manager calls it. *)
Definition tracker_addAlert (symbol : string) (price : Z) (type : option string)
  (options : Options) (uuid : string) (t : WhaleTracker)
  : (ErrorHandler.ErrorValue + AlertManager.Alert) * WhaleTracker :=
  if negb (isInitialized t) then (inl notInitialized, t)
  else
    let type_ := default "above" type in
    let t := logger_info ("Adding alert for " +:+ symbol +:+ " at " +:+ pretty price
                          +:+ " (" +:+ type_ +:+ ")") t in
    match alertManager t with
    | None => (inl (nullManager "addAlert"), handle (nullManager "addAlert") t)
    | Some mgr =>
        match AlertManager.addAlert (alertConfigOf symbol price type options) uuid
                (managerWorld mgr t) with
        | (inr alert, w) =>
            let t := afterManager w t in
            (inr alert,
             mkWhaleTracker (isInitialized t) (alertManager t) (errorHandler t)
               (AlertManager.Map_set (AlertManager.id alert) alert (activeAlerts t))
               (wt_clock t) (wt_reads t) (managerEvents t)
               (trackerEvents t ++ [alert_added alert]) (written t))
        | (inl e, w) => (inl (thrown e), handle (thrown e) (afterManager w t))
        end
    end.

(** ** removeAlert

    The value the manager's [removeAlert] resolves to is not used. *)
Definition tracker_removeAlert (alertId : string) (t : WhaleTracker)
  : (ErrorHandler.ErrorValue + string * string) * WhaleTracker :=
  if negb (isInitialized t) then (inl notInitialized, t)
  else
    let t := logger_info ("Removing alert " +:+ alertId) t in
    match alertManager t with
    | None => (inl (nullManager "removeAlert"), handle (nullManager "removeAlert") t)
    | Some mgr =>
        match AlertManager.removeAlert alertId (managerWorld mgr t) with
        | (inr _, w) =>
            let t := afterManager w t in
            (inr (alertId, "removed"),
             mkWhaleTracker (isInitialized t) (alertManager t) (errorHandler t)
               (AlertManager.Map_delete alertId (activeAlerts t))
               (wt_clock t) (wt_reads t) (managerEvents t)
               (trackerEvents t ++ [tracker_alert_removed alertId]) (written t))
        | (inl e, w) => (inl (thrown e), handle (thrown e) (afterManager w t))
        end
    end.

(** ** Observations *)

(** The map [activeAlerts] has the keys of the manager's store, in the same
    order. *)
Definition mirrors (t : WhaleTracker) : Prop :=
  exists mgr,
    alertManager t = Some mgr /\
    map fst (activeAlerts t) = map fst (AlertManager.alerts mgr).

(** ** Examples *)

Definition no_options : Options := mkOptions None None None None None None None false.

(** A tracker as [initialize] leaves it, with a manager that has room for
    one alert. *)
Definition small_tracker : WhaleTracker :=
  mkWhaleTracker true (Some (AlertManager.constructor true (Some 1) None))
    (ErrorHandler.new_ErrorHandler true) [] (fun i => 1000 + Z.of_nat i) 0 [] [] [].
Definition fresh_tracker : WhaleTracker :=
  mkWhaleTracker false None (ErrorHandler.new_ErrorHandler true) []
    (fun i => 1000 + Z.of_nat i) 0 [] [] [].
Definition one_alert_tracker : WhaleTracker :=
  snd (tracker_addAlert "BTCUSDT" 50000 None no_options "u1" small_tracker).

End WhaleTracker.

(** * The manager's notifications in the Telegram notifier

    [WhaleTracker.initialize] registers the Telegram notifier with the
    alert manager, so [sendAlert] passes [{ ...alert, message }] to
    [TelegramNotifier.send], and [formatMessage] renders it. *)

Module Pipeline.

(** The object [{ ...alert, message }] as the Telegram notifier reads it. *)
Definition payload (n : AlertManager.Notification) : TelegramNotifier.Message :=
  TelegramNotifier.mkMessage
    (AlertManager.type (AlertManager.n_alert n))
    (Some (AlertManager.symbol (AlertManager.n_alert n)))
    (Some (AlertManager.message n))
    (Some (AlertManager.price (AlertManager.n_alert n))).

(** The notifications in a list of events of the manager: those handed to
    [sendAlert]'s loop and those a notifier was called with. *)
Definition notified (evs : list AlertManager.Event) : list AlertManager.Notification :=
  omap (fun e => match e with
                 | AlertManager.dispatch n => Some n
                 | AlertManager.notifier_send _ n _ => Some n
                 | _ => None
                 end) evs.

(** A notification of a firing. *)
Definition ofFiring (n : AlertManager.Notification) : Prop :=
  let a := AlertManager.n_alert n in
  (AlertManager.type a = "above" \/ AlertManager.type a = "below" \/
   AlertManager.type a = "cross") /\
  AlertManager.status a = "triggered" /\
  AlertManager.triggeredPrice a <> None /\
  AlertManager.message n = AlertManager.formatAlertMessage a.

End Pipeline.

(** * Properties of the alert manager *)

Module AlertManagerSpec.
Import AlertManager.

(** ** Basic facts *)

Arguments lastAlertKey : simpl never.
Arguments formatAlertMessage : simpl never.

Lemma bind_inr {A B} (m : M A) (k : A -> M B) w x w' :
  m w = (inr x, w') -> bind m k w = k x w'.
Proof. intros H. unfold bind. now rewrite H. Qed.

Lemma bind_inl {A B} (m : M A) (k : A -> M B) w e w' :
  m w = (inl e, w') -> bind m k w = (inl e, w').
Proof. intros H. unfold bind. now rewrite H. Qed.

Lemma forNotifiers_run ns : forall i n w,
  forNotifiers i ns n w =
  (inr tt, mkWorld (this w) (clock w) (reads w)
                   (trace w ++ sendEvents (logger (this w)) i ns n)).
Proof.
  induction ns as [|nf ns IH]; intros i n [t c r tr]; simpl.
  - now rewrite app_nil_r.
  - unfold bind, try_catch, call_send, emit, throw, ret, bind, get_this; simpl.
    destruct (nf n) as [e|b]; simpl.
    + destruct (logger t) eqn:Hl; simpl; rewrite IH; simpl; rewrite Hl;
        now rewrite <- !app_assoc.
    + rewrite IH; simpl. now rewrite <- !app_assoc.
Qed.

Lemma sendAlert_run alert w :
  sendAlert alert w =
  (inr tt,
   mkWorld (this w) (clock w) (reads w)
     (trace w ++ dispatch (mkNotification alert (formatAlertMessage alert))
        :: sendEvents (logger (this w)) 0 (notifiers (this w))
             (mkNotification alert (formatAlertMessage alert)))).
Proof.
  destruct w as [t c r tr]. unfold sendAlert, bind, emit, get_this; simpl.
  rewrite forNotifiers_run; simpl. now rewrite <- app_assoc.
Qed.

Lemma inCooldown_run w key :
  inCooldown (lastAlertTimes (this w) !! key) w =
  (inr (cooling w key),
   mkWorld (this w) (clock w) (reads w + coolReads w key) (trace w)).
Proof.
  destruct w as [t c r tr]. unfold inCooldown, cooling, coolReads; simpl.
  destruct (lastAlertTimes t !! key) as [x|]; simpl.
  - destruct (truthy_number x); simpl.
    + unfold bind, Date_now, get_this, ret; simpl.
      now replace (r + 1)%nat with (S r) by lia.
    + unfold ret. now rewrite Nat.add_0_r.
  - unfold ret. now rewrite Nat.add_0_r.
Qed.

(** ** The array [getAlerts] returns *)

Lemma filter_filter {A} (f g : A -> bool) l :
  List.filter g (List.filter f l) = List.filter (fun x => f x && g x) l.
Proof.
  induction l as [|x l IH]; simpl; [reflexivity|].
  destruct (f x); simpl; [destruct (g x)|]; now rewrite IH.
Qed.

Lemma filter_by_passes f field l :
  filter_by f field l = List.filter (fun e => passes f (field (snd e))) l.
Proof.
  unfold filter_by, passes. destruct f as [x|]; [destruct (truthy_string x)|];
    try reflexivity; induction l as [|e l IH]; simpl; congruence.
Qed.

(** [getAlerts(flt)] returns, in the order of the store, the alerts [selects]
    accepts: the alerts the loop of [processPriceUpdate] runs on. *)
Lemma getEntries_selects flt t :
  getEntries flt t = List.filter (fun e => selects flt (snd e)) (alerts t).
Proof.
  unfold getEntries. rewrite !filter_by_passes, !filter_filter.
  apply List.filter_ext. intros e. unfold selects. now rewrite andb_assoc.
Qed.

(** The loop body when the condition does not hold: only [lastPrice] may
    have changed. *)
Lemma loopBody_nomatch k price alert w a1 :
  checkAlert alert price = (false, a1) ->
  loopBody k price alert w = (inr a1, w).
Proof. intros H. unfold loopBody. now rewrite H. Qed.

(** The loop body when the condition holds during the cooldown. *)
Lemma loopBody_skip k price alert w a1 :
  checkAlert alert price = (true, a1) ->
  cooling w (lastAlertKey a1) = true ->
  loopBody k price alert w =
  (inr a1, mkWorld (this w) (clock w)
             (reads w + coolReads w (lastAlertKey a1)) (trace w)).
Proof.
  intros H Hc. unfold loopBody. rewrite H.
  unfold bind at 1. unfold get_this at 1.
  unfold bind at 1. rewrite inCooldown_run, Hc. reflexivity.
Qed.

(** The loop body when the condition holds outside the cooldown. *)
Lemma loopBody_fire k price alert w a1 :
  checkAlert alert price = (true, a1) ->
  cooling w (lastAlertKey a1) = false ->
  let r := (reads w + coolReads w (lastAlertKey a1))%nat in
  let a2 := markTriggered (clock w r) price a1 in
  let n := mkNotification a2 (formatAlertMessage a2) in
  loopBody k price alert w =
  (inr (if repeat a2 then set_status "active" a2 else a2),
   mkWorld
     (set_alertHistory
        (pushHistory (set_triggeredAt (Some (clock w (S (S r)))) a2)
           (alertHistory (this w)))
        (set_lastAlertTimes
           (<[lastAlertKey a1 := clock w (S r)]> (lastAlertTimes (this w)))
           (this w)))
     (clock w) (S (S (S r)))
     (trace w ++ alert_triggered k a2 :: dispatch n
        :: sendEvents (logger (this w)) 0 (notifiers (this w)) n)).
Proof.
  intros H Hc r a2 n. unfold loopBody. rewrite H.
  unfold bind at 1. unfold get_this at 1.
  unfold bind at 1. rewrite inCooldown_run, Hc.
  unfold bind, Date_now, get_this, put_this, emit, ret. simpl.
  rewrite sendAlert_run. simpl.
  rewrite <- app_assoc. reflexivity.
Qed.

(** ** The store as a map *)



Lemma Map_get_set_eq k v m : Map_get k (Map_set k v m) = Some v.
Proof.
  induction m as [|[k' v'] m IH]; simpl.
  - now rewrite String.eqb_refl.
  - destruct (String.eqb k' k) eqn:E; simpl.
    + now rewrite String.eqb_refl.
    + now rewrite E.
Qed.

Lemma Map_get_set_ne k k' v m :
  k' <> k -> Map_get k' (Map_set k v m) = Map_get k' m.
Proof.
  intros Hne. induction m as [|[k0 v0] m IH]; simpl.
  - destruct (String.eqb k k') eqn:E; [|reflexivity].
    apply String.eqb_eq in E. congruence.
  - destruct (String.eqb k0 k) eqn:E; simpl.
    + apply String.eqb_eq in E. subst k0.
      destruct (String.eqb k k') eqn:E'; [|reflexivity].
      apply String.eqb_eq in E'. congruence.
    + now rewrite IH.
Qed.

(** Setting a key that is present replaces its value in place. *)
Lemma Map_set_present k v m old :
  Map_get k m = Some old ->
  length (Map_set k v m) = length m /\
  map fst (Map_set k v m) = map fst m.
Proof.
  induction m as [|[k' v'] m IH]; simpl; [discriminate|].
  destruct (String.eqb k' k) eqn:E; simpl.
  - apply String.eqb_eq in E. subst k'. intros _. split; reflexivity.
  - intros H. destruct (IH H) as [Hl Hk]. split; congruence.
Qed.

(** ** C5, C9, C10: adding and removing *)

(** C5. When the store holds [maxAlerts] alerts (100 when the configuration
    gives none), [addAlert] raises the capacity error, the manager is left as
    it was, nothing is emitted and the store still holds exactly [maxAlerts]
    alerts: nothing is evicted. *)
Theorem C5_addAlert_at_capacity (alertConfig : AlertConfig) (uuid : string) (w : World) :
  Map_size (alerts (this w)) = maxAlerts (this w) ->
  (forall lg cd, maxAlerts (constructor lg None cd) = 100) /\
  exists w',
    addAlert alertConfig uuid w =
      (inl (mkError ("Maximum number of alerts (" +:+ pretty (maxAlerts (this w))
                     +:+ ") reached")), w') /\
    this w' = this w /\
    trace w' = trace w /\
    Map_size (alerts (this w')) = maxAlerts (this w').
Proof.
  intros Hfull. split; [reflexivity|].
  destruct w as [t c r tr]. simpl in *.
  unfold addAlert, bind, Date_now, get_this, throw. simpl.
  replace (Map_size (alerts t) >=? maxAlerts t) with true
    by (symmetry; apply Z.geb_le; lia).
  eexists. split; [reflexivity|]. simpl. auto.
Qed.

Lemma C5_addAlert_at_capacity_witness :
  (forall lg cd, maxAlerts (constructor lg None cd) = 100) /\
  exists w',
    addAlert (mkAlertConfig (Some "b") "BTCUSDT" 51000 None None None None false)
             "u" full_world =
      (inl (mkError ("Maximum number of alerts (" +:+ pretty (maxAlerts (this full_world))
                     +:+ ") reached")), w') /\
    this w' = this full_world /\
    trace w' = trace full_world /\
    Map_size (alerts (this w')) = maxAlerts (this w').
Proof.
  apply (C5_addAlert_at_capacity
           (mkAlertConfig (Some "b") "BTCUSDT" 51000 None None None None false)
           "u" full_world).
  reflexivity.
Defined.



(** C10. [addAlert] with an id, not the empty string, that is already a key
    of a store below its maximum succeeds and replaces the alert under that
    id: the call returns the new record, built from the configuration alone,
    the store holds it under the id at the same position, the number of
    alerts is unchanged and every other key keeps its alert.  (The empty
    string is falsy: [alertConfig.id || uuidv4()] stores the alert under a
    generated key then.) *)
Theorem C10_addAlert_replaces (alertConfig : AlertConfig) (uuid i : string)
    (old : Alert) (w : World) :
  cfg_id alertConfig = Some i ->
  i <> "" ->
  Map_get i (alerts (this w)) = Some old ->
  Map_size (alerts (this w)) < maxAlerts (this w) ->
  let alert :=
    mkAlert i (cfg_symbol alertConfig) (cfg_price alertConfig)
      (default "above" (cfg_type alertConfig))
      (default "active" (cfg_status alertConfig))
      (default (clock w (reads w)) (cfg_created alertConfig))
      (cfg_lastPrice alertConfig) None None (cfg_repeat alertConfig) in
  exists w',
    addAlert alertConfig uuid w = (inr alert, w') /\
    Map_size (alerts (this w')) = Map_size (alerts (this w)) /\
    map fst (alerts (this w')) = map fst (alerts (this w)) /\
    Map_get i (alerts (this w')) = Some alert /\
    (forall k, k <> i ->
       Map_get k (alerts (this w')) = Map_get k (alerts (this w))) /\
    trace w' = (trace w ++ [alert_created alert])%list.
Proof.
  intros Hid Hne Hold Hroom alert.
  destruct w as [t c r tr]. simpl in *.
  unfold addAlert, bind, Date_now, get_this. simpl. rewrite Hid. simpl.
  assert (Ht : truthy_string i = true).
  { unfold truthy_string. destruct (String.eqb_spec i ""); [contradiction|reflexivity]. }
  rewrite Ht.
  replace (Map_size (alerts t) >=? maxAlerts t) with false
    by (symmetry; rewrite Z.geb_leb; apply Z.leb_gt; lia).
  unfold put_this, emit, ret. simpl. eexists. split; [reflexivity|]. simpl.
  destruct (Map_set_present i alert (alerts t) old Hold) as [Hl Hk].
  repeat split.
  - unfold Map_size. f_equal. exact Hl.
  - exact Hk.
  - apply Map_get_set_eq.
  - intros k Hk'. now apply Map_get_set_ne.
Qed.

(** Without the condition that the id is not the empty string the
    replacement fails.  The store holds one alert whose [id] is the empty
    string and is below its maximum; [addAlert] with a definition whose id is
    the empty string succeeds, the store then holds two alerts and the
    previous record is still in it. *)
Lemma C10_counterexample :
  alerts (this empty_id_world) = [("u1", empty_id_alert)] /\
  cfg_id empty_id_config = Some (id empty_id_alert) /\
  Map_size (alerts (this empty_id_world)) < maxAlerts (this empty_id_world) /\
  exists alert w',
    addAlert empty_id_config "u2" empty_id_world = (inr alert, w') /\
    Map_size (alerts (this empty_id_world)) = 1 /\
    Map_size (alerts (this w')) = 2 /\
    ~ Map_size (alerts (this w')) <= Map_size (alerts (this empty_id_world)) /\
    Map_get "u1" (alerts (this w')) = Some empty_id_alert /\
    In empty_id_alert (map snd (alerts (this w'))).
Proof.
  split; [reflexivity|]. split; [reflexivity|]. split; [reflexivity|].
  eexists. eexists. split; [vm_compute; reflexivity|].
  split; [reflexivity|]. split; [reflexivity|].
  split; [intros H; vm_compute in H; apply H; reflexivity|].
  split; [reflexivity|]. left. reflexivity.
Qed.

Lemma C10_addAlert_replaces_witness :
  exists alert w',
    addAlert (mkAlertConfig (Some "a") "ETHUSDT" 3000 (Some "below") None None None true)
             "u" (mkWorld (set_alerts (alerts (this full_world)) (constructor false None None))
                          (clock full_world) 0 []) = (inr alert, w') /\
    map fst (alerts (this w')) = ["a"] /\
    Map_get "a" (alerts (this w')) = Some alert /\
    symbol alert = "ETHUSDT".
Proof.
  destruct (C10_addAlert_replaces
              (mkAlertConfig (Some "a") "ETHUSDT" 3000 (Some "below") None None None true)
              "u" "a"
              (mkAlert "a" "BTCUSDT" 50000 "above" "active" 0 None None None false)
              (mkWorld (set_alerts (alerts (this full_world)) (constructor false None None))
                       (clock full_world) 0 []))
    as [w' [H1 [_ [H3 [H4 _]]]]].
  - reflexivity.
  - discriminate.
  - reflexivity.
  - reflexivity.
  - eexists. exists w'. split; [exact H1|]. split; [exact H3|]. split; [exact H4|].
    reflexivity.
Defined.

(** ** C6: dispatch to the notifiers *)

Lemma attempts_sendEvents lg ns : forall i n,
  attempts (sendEvents lg i ns n) = imap (fun j nf => ((i + j)%nat, n, nf n)) ns.
Proof.
  induction ns as [|nf ns IH]; intros i n; [reflexivity|].
  unfold attempts in *. simpl.
  rewrite Nat.add_0_r. f_equal.
  rewrite omap_app, IH.
  replace (omap _ match nf n with inl e => if lg then [logger_error e] else [] | inr _ => [] end)
    with (@nil (nat * Notification * (Error + bool)))
    by (destruct (nf n); [destruct lg|]; reflexivity).
  simpl. apply imap_ext. intros j x _. simpl. do 2 f_equal. lia.
Qed.

Lemma markTriggered_status at_ price a : status (markTriggered at_ price a) = "triggered".
Proof. reflexivity. Qed.

(** C6. [sendAlert] builds one notification (the alert with the text
    rendered once) and calls every registered notifier with it, in order,
    whatever the outcomes of the earlier calls; it never raises and leaves
    the manager as it was.  An alert that fires and does not repeat is left
    [triggered] whatever the notifiers answer. *)
Theorem C6_sendAlert_isolates_failures :
  (forall (alert : Alert) (w : World),
     let n := mkNotification alert (formatAlertMessage alert) in
     exists w' evs,
       sendAlert alert w = (inr tt, w') /\
       this w' = this w /\
       trace w' = (trace w ++ dispatch n :: evs)%list /\
       attempts evs = imap (fun i notifier => (i, n, notifier n)) (notifiers (this w))) /\
  (forall (k : string) (price : Z) (alert a1 : Alert) (w : World),
     checkAlert alert price = (true, a1) ->
     cooling w (lastAlertKey a1) = false ->
     repeat alert = false ->
     exists alert' w',
       loopBody k price alert w = (inr alert', w') /\ status alert' = "triggered").
Proof.
  split.
  - intros alert w n. rewrite sendAlert_run. do 2 eexists.
    split; [reflexivity|]. simpl. split; [reflexivity|]. split; [reflexivity|].
    apply attempts_sendEvents.
  - intros k price alert a1 w Hc Hcool Hrep.
    rewrite (loopBody_fire k price alert w a1 Hc Hcool). do 2 eexists.
    split; [reflexivity|].
    assert (Hr : repeat a1 = false).
    { unfold checkAlert in Hc. destruct (negb _); inversion Hc; subst; exact Hrep. }
    change (repeat (markTriggered (clock w (reads w + coolReads w (lastAlertKey a1))) price a1))
      with (repeat a1).
    rewrite Hr. reflexivity.
Qed.

Lemma C6_sendAlert_isolates_failures_witness :
  exists alert' w',
    loopBody "a" 3100 eth_above failing_world = (inr alert', w') /\
    status alert' = "triggered".
Proof.
  destruct C6_sendAlert_isolates_failures as [_ H].
  apply (H "a" 3100 eth_above (set_lastPrice (Some 3100) eth_above) failing_world);
    reflexivity.
Defined.

(** ** C3: the trigger condition of [above] and [below] *)

Lemma checkAlert_above alert p :
  status alert = "active" -> type alert = "above" ->
  checkAlert alert p = (price alert <=? p, set_lastPrice (Some p) alert).
Proof.
  intros Hs Ht. unfold checkAlert. rewrite Hs, Ht. simpl.
  rewrite Z.geb_leb. now rewrite !orb_false_r.
Qed.

Lemma checkAlert_below alert p :
  status alert = "active" -> type alert = "below" ->
  checkAlert alert p = (p <=? price alert, set_lastPrice (Some p) alert).
Proof.
  intros Hs Ht. unfold checkAlert. rewrite Hs, Ht. simpl.
  now rewrite !orb_false_r.
Qed.

Lemma fires_of_match k p alert w a1 :
  checkAlert alert p = (true, a1) ->
  cooling w (lastAlertKey a1) = false ->
  fires k p alert w.
Proof.
  intros Hc Hcool. unfold fires.
  rewrite (loopBody_fire k p alert w a1 Hc Hcool).
  assert (Hr : repeat a1 = repeat alert).
  { unfold checkAlert in Hc. destruct (negb _); inversion Hc; subst; reflexivity. }
  do 5 eexists. split; [reflexivity|]. simpl.
  refine (conj _ (conj _ (conj _ (conj _ _)))); cycle 4.
  - reflexivity.
  - reflexivity.
  - reflexivity.
  - rewrite <- Hr. reflexivity.
  - reflexivity.
Qed.

Lemma quiet_of_nomatch k p alert w a1 :
  checkAlert alert p = (false, a1) -> quiet k p alert w.
Proof.
  intros Hc. unfold quiet. rewrite (loopBody_nomatch k p alert w a1 Hc).
  do 2 eexists. split; [reflexivity|]. repeat split.
  unfold checkAlert in Hc. destruct (negb _); inversion Hc; subst; reflexivity.
Qed.

Lemma quiet_not_fires k p alert w : quiet k p alert w -> ~ fires k p alert w.
Proof.
  intros (a' & w' & Hq & _ & _ & Htr) (a'' & w'' & a2 & evs & at_ & Hf & _ & _ & _ & _ & Htr').
  rewrite Hq in Hf. inversion Hf; subst w''.
  rewrite Htr in Htr'. apply (f_equal length) in Htr'.
  rewrite length_app in Htr'. simpl in Htr'. lia.
Qed.

(** ** The loop over the alerts *)

Lemma checkAlert_fields alert p b a1 :
  checkAlert alert p = (b, a1) ->
  a1 = alert \/ a1 = set_lastPrice (Some p) alert.
Proof.
  unfold checkAlert. destruct (negb _); intros H; inversion H; auto.
Qed.

(** Every iteration ends normally, and either fires or leaves the manager
    and the trace as they were. *)
Lemma loopBody_cases k p alert w :
  fires k p alert w \/
  exists a1 n,
    loopBody k p alert w =
      (inr a1, mkWorld (this w) (clock w) (reads w + n) (trace w)) /\
    (a1 = alert \/ a1 = set_lastPrice (Some p) alert).
Proof.
  destruct (checkAlert alert p) as [b a1] eqn:Hc.
  pose proof (checkAlert_fields _ _ _ _ Hc) as Hf.
  destruct b.
  - destruct (cooling w (lastAlertKey a1)) eqn:Hcool.
    + right. exists a1, (coolReads w (lastAlertKey a1)). split; [|exact Hf].
      now apply loopBody_skip.
    + left. now apply (fires_of_match k p alert w a1).
  - right. exists a1, 0%nat. split; [|exact Hf].
    rewrite (loopBody_nomatch k p alert w a1 Hc).
    destruct w; simpl. now rewrite Nat.add_0_r.
Qed.

Lemma loopBody_total k p alert w :
  exists alert' w', loopBody k p alert w = (inr alert', w').
Proof.
  destruct (loopBody_cases k p alert w) as [(a' & w' & _ & _ & _ & H & _)|(a1 & n & H & _)];
    eauto.
Qed.

(** A relation between worlds that every iteration respects is respected by
    the whole loop, which ends normally and keeps the keys of the store. *)
Lemma forAlerts_rel (R : World -> World -> Prop) flt p :
  (forall w, R w w) ->
  (forall w1 w2 w3, R w1 w2 -> R w2 w3 -> R w1 w3) ->
  (forall k a w a' w', loopBody k p a w = (inr a', w') -> R w w') ->
  forall entries w,
  exists entries' w',
    forAlerts flt p entries w = (inr entries', w') /\ R w w' /\
    map fst entries' = map fst entries.
Proof.
  intros Hrefl Htrans Hbody.
  induction entries as [|[k a] entries IH]; intros w; simpl.
  - exists [], w. unfold ret. auto.
  - assert (Hhead : exists a' w1,
               (if selects flt a then loopBody k p a else ret a) w = (inr a', w1) /\ R w w1).
    { destruct (selects flt a).
      - destruct (loopBody_total k p a w) as (a' & w1 & H). exists a', w1. eauto.
      - exists a, w. unfold ret. auto. }
    destruct Hhead as (a' & w1 & Hh & HR1).
    destruct (IH w1) as (entries' & w2 & Ht & HR2 & Hk).
    exists ((k, a') :: entries'), w2.
    rewrite (bind_inr _ _ _ _ _ Hh). rewrite (bind_inr _ _ _ _ _ Ht).
    unfold ret. simpl. split; [reflexivity|]. split; [eauto|]. now rewrite Hk.
Qed.

Lemma processPriceUpdate_run symbol p w :
  exists entries' w1,
    forAlerts (mkFilter (Some symbol) (Some "active") None) p (alerts (this w)) w
      = (inr entries', w1) /\
    processPriceUpdate symbol p w =
      (inr tt, mkWorld (set_alerts entries' (this w1)) (clock w1) (reads w1) (trace w1)).
Proof.
  destruct (forAlerts_rel (fun _ _ => True) (mkFilter (Some symbol) (Some "active") None) p
              (fun _ => I) (fun _ _ _ _ _ => I) (fun _ _ _ _ _ _ => I)
              (alerts (this w)) w) as (entries' & w1 & H & _).
  exists entries', w1. split; [exact H|].
  unfold processPriceUpdate. unfold bind at 1. unfold get_this at 1.
  rewrite (bind_inr _ _ _ _ _ H). reflexivity.
Qed.

(** ** C8: the bounded history *)

Lemma pushHistory_length rec h :
  (length h <= 100)%nat -> (length (pushHistory rec h) <= 100)%nat.
Proof.
  intros H. unfold pushHistory.
  destruct (Nat.ltb_spec 100 (length (h ++ [rec]))) as [Hlt|Hge]; [|exact Hge].
  rewrite length_app in Hlt. simpl in Hlt.
  destruct h as [|x h]; simpl in *; [lia|].
  rewrite length_app. simpl. lia.
Qed.

Lemma pushHistory_full rec h :
  length h = 100%nat -> pushHistory rec h = (tl h ++ [rec])%list.
Proof.
  intros H. unfold pushHistory.
  destruct (Nat.ltb_spec 100 (length (h ++ [rec]))) as [Hlt|Hge].
  - destruct h; [discriminate|reflexivity].
  - rewrite length_app in Hge. simpl in Hge. lia.
Qed.

Lemma pushHistory_room rec h :
  (length h < 100)%nat -> pushHistory rec h = (h ++ [rec])%list.
Proof.
  intros H. unfold pushHistory.
  destruct (Nat.ltb_spec 100 (length (h ++ [rec]))) as [Hlt|Hge]; [|reflexivity].
  rewrite length_app in Hlt. simpl in Hlt. lia.
Qed.

Lemma loopBody_history_bound k p alert w alert' w' :
  loopBody k p alert w = (inr alert', w') ->
  (length (alertHistory (this w)) <= 100)%nat ->
  (length (alertHistory (this w')) <= 100)%nat.
Proof.
  intros H Hb.
  destruct (loopBody_cases k p alert w)
    as [(a' & w'' & a2 & evs & at_ & Hf & _ & _ & _ & Hh & _)|(a1 & n & Hq & _)].
  - rewrite Hf in H. inversion H; subst. rewrite Hh. now apply pushHistory_length.
  - rewrite Hq in H. inversion H; subst. exact Hb.
Qed.

Lemma processPriceUpdate_history_bound symbol p w :
  (length (alertHistory (this w)) <= 100)%nat ->
  (length (alertHistory (this (snd (processPriceUpdate symbol p w)))) <= 100)%nat.
Proof.
  intros Hb.
  destruct (forAlerts_rel
              (fun w1 w2 => (length (alertHistory (this w1)) <= 100)%nat ->
                            (length (alertHistory (this w2)) <= 100)%nat)
              (mkFilter (Some symbol) (Some "active") None) p)
    with (entries := alerts (this w)) (w := w) as (entries' & w1 & H & HR & _).
  - auto.
  - auto.
  - intros k a w0 a' w' Hl. now apply (loopBody_history_bound k p a w0 a' w').
  - unfold processPriceUpdate. unfold bind at 1. unfold get_this at 1.
    rewrite (bind_inr _ _ _ _ _ H). simpl. auto.
Qed.

Lemma perform_history_other o w :
  is_price_update o = false ->
  alertHistory (this (perform o w)) = alertHistory (this w).
Proof.
  destruct w as [t c r tr]. destruct o; simpl; try discriminate; intros _.
  - reflexivity.
  - unfold addAlert, bind, Date_now, get_this, throw, put_this, emit, ret. simpl.
    destruct (Map_size (alerts t) >=? maxAlerts t); reflexivity.
  - unfold removeAlert, bind, get_this, put_this, emit, ret. simpl.
    destruct (Map_get alertId (alerts t)); reflexivity.
  - reflexivity.
Qed.

(** C8. In every world a new manager reaches through its operations the
    history holds at most 100 records.  A record pushed on a history of 100
    replaces the oldest: the rest moves up and the new record is last; below
    100 it is appended.  The operations other than a price update leave the
    history as it is, and within a price update an iteration that does not
    fire leaves it as it is too. *)
Theorem C8_history_bounded :
  (forall w, reachable w -> (length (alertHistory (this w)) <= 100)%nat) /\
  (forall rec h, length h = 100%nat -> pushHistory rec h = (tl h ++ [rec])%list) /\
  (forall rec h, (length h < 100)%nat -> pushHistory rec h = (h ++ [rec])%list) /\
  (forall o w, is_price_update o = false ->
     alertHistory (this (perform o w)) = alertHistory (this w)) /\
  (forall k p alert w,
     fires k p alert w \/
     exists alert' w',
       loopBody k p alert w = (inr alert', w') /\
       alertHistory (this w') = alertHistory (this w)).
Proof.
  split; [|split; [|split; [|split]]].
  - induction 1 as [lg mx cd clk|o w Hw IH]; [simpl; lia|].
    destruct (is_price_update o) eqn:Ho.
    + destruct o; try discriminate. simpl.
      now apply processPriceUpdate_history_bound.
    + now rewrite perform_history_other.
  - exact pushHistory_full.
  - exact pushHistory_room.
  - exact perform_history_other.
  - intros k p alert w.
    destruct (loopBody_cases k p alert w) as [Hf|(a1 & n & Hq & _)]; [now left|].
    right. do 2 eexists. split; [exact Hq|]. reflexivity.
Qed.

Lemma C8_history_bounded_witness :
  (length (alertHistory (this (perform (op_processPriceUpdate "BTCUSDT" 50500)
                                 (perform (op_addAlert btc_config "u1") new_world))))
   <= 100)%nat /\
  pushHistory eth_below (List.repeat eth_above 100)
    = (tl (List.repeat eth_above 100) ++ [eth_below])%list /\
  pushHistory eth_below (List.repeat eth_above 99)
    = (List.repeat eth_above 99 ++ [eth_below])%list /\
  alertHistory (this (perform (op_removeAlert "a") full_world))
    = alertHistory (this full_world).
Proof.
  destruct C8_history_bounded as (Hbound & Hfull & Hroom & Hother & _).
  split; [|split; [|split]].
  - apply Hbound. apply reachable_perform, reachable_perform, reachable_new.
  - apply Hfull. reflexivity.
  - apply Hroom. simpl. lia.
  - apply Hother. reflexivity.
Defined.

(** ** C1: two alerts with one cooldown key *)

Lemma addAlert_ok alertConfig uuid w :
  Map_size (alerts (this w)) < maxAlerts (this w) ->
  let alert := newAlert alertConfig uuid (clock w (reads w)) in
  addAlert alertConfig uuid w =
  (inr alert,
   mkWorld (set_alerts (Map_set (alertKey alertConfig uuid) alert (alerts (this w))) (this w))
     (clock w) (S (reads w)) (trace w ++ [alert_created alert])).
Proof.
  intros Hroom alert. destruct w as [t c r tr]. simpl in *.
  unfold addAlert, bind, Date_now, get_this. simpl.
  replace (Map_size (alerts t) >=? maxAlerts t) with false
    by (symmetry; rewrite Z.geb_leb; apply Z.leb_gt; lia).
  reflexivity.
Qed.

Lemma forAlerts_cons_selected flt p k a rest w a' w1 rest' w2 :
  selects flt a = true ->
  loopBody k p a w = (inr a', w1) ->
  forAlerts flt p rest w1 = (inr rest', w2) ->
  forAlerts flt p ((k, a) :: rest) w = (inr ((k, a') :: rest'), w2).
Proof.
  intros Hs Hb Hr. simpl. rewrite Hs.
  rewrite (bind_inr _ _ _ _ _ Hb). now rewrite (bind_inr _ _ _ _ _ Hr).
Qed.

Lemma forAlerts_cons_unselected flt p k a rest w rest' w2 :
  selects flt a = false ->
  forAlerts flt p rest w = (inr rest', w2) ->
  forAlerts flt p ((k, a) :: rest) w = (inr ((k, a) :: rest'), w2).
Proof.
  intros Hs Hr. simpl. rewrite Hs. unfold bind at 1. unfold ret at 1.
  now rewrite (bind_inr _ _ _ _ _ Hr).
Qed.

Lemma dispatches_sendEvents lg ns : forall i n, dispatches (sendEvents lg i ns n) = [].
Proof.
  induction ns as [|nf ns IH]; intros i n; [reflexivity|].
  unfold dispatches in *. simpl. rewrite omap_app, IH.
  destruct (nf n); [destruct lg|]; reflexivity.
Qed.

Lemma truthy_number_true z : z <> 0 -> truthy_number z = true.
Proof. intros H. unfold truthy_number. destruct (Z.eqb_spec z 0); [contradiction|reflexivity]. Qed.

(** C1, as the code has it.  Two alerts (ETHUSDT, 3000, above) are added
    under distinct keys to an empty store with room for them, and one update
    of 3100 for ETHUSDT is processed within one cooldown window.  Then
    [sendAlert] is called exactly once; the alert added first is left
    [triggered], and the second one, whose cooldown key the first has just
    put in cooldown, is left [active]. *)
Theorem C1_two_alerts_one_dispatch (i1 i2 : option string) (u1 u2 : string) (w : World) :
  alerts (this w) = [] ->
  lastAlertTimes (this w) = ∅ ->
  2 <= maxAlerts (this w) ->
  alertKey (eth_config i1) u1 <> alertKey (eth_config i2) u2 ->
  clockTruthy w ->
  withinCooldown w ->
  let r := two_alerts_scenario i1 i2 u1 u2 w in
  fst r = inr tt /\
  length (dispatches (newEvents w (snd r))) = 1%nat /\
  statusOf (alertKey (eth_config i1) u1) (snd r) = Some "triggered" /\
  statusOf (alertKey (eth_config i2) u2) (snd r) = Some "active".
Proof.
  intros Hempty Htimes Hmax Hne Htruthy Hwin.
  set (k1 := alertKey (eth_config i1) u1) in *.
  set (k2 := alertKey (eth_config i2) u2) in *.
  destruct w as [t c r0 tr]. simpl in Hempty, Htimes, Hmax.
  unfold clockTruthy, withinCooldown in *. simpl in Htruthy, Hwin.
  assert (Hk12 : String.eqb k1 k2 = false) by (apply String.eqb_neq; exact Hne).
  set (a1 := newAlert (eth_config i1) u1 (c r0)).
  set (a2 := newAlert (eth_config i2) u2 (c (S r0))).
  set (b1 := markTriggered (c (S (S r0))) 3100 (set_lastPrice (Some 3100) a1)).
  set (n := mkNotification b1 (formatAlertMessage b1)).
  assert (Hrun :
    two_alerts_scenario i1 i2 u1 u2 (mkWorld t c r0 tr) =
    (inr tt,
     mkWorld
       (set_alerts [(k1, b1); (k2, set_lastPrice (Some 3100) a2)]
          (set_alertHistory
             (pushHistory (set_triggeredAt (Some (c (S (S (S (S r0)))))) b1) (alertHistory t))
             (set_lastAlertTimes
                (<[lastAlertKey a1 := c (S (S (S r0)))]> (lastAlertTimes t)) t)))
       c (S (S (S (S (S (S r0))))))
       (tr ++ [alert_created a1; alert_created a2; alert_triggered k1 b1; dispatch n]
           ++ sendEvents (logger t) 0 (notifiers t) n))).
  { unfold two_alerts_scenario.
    (* first addAlert *)
    pose proof (addAlert_ok (eth_config i1) u1 (mkWorld t c r0 tr)) as Hadd1.
    simpl in Hadd1. rewrite Hempty in Hadd1.
    specialize (Hadd1 ltac:(unfold Map_size; simpl; lia)). simpl in Hadd1.
    fold k1 a1 in Hadd1.
    rewrite (bind_inr _ _ _ _ _ Hadd1). clear Hadd1. cbv beta.
    (* second addAlert *)
    match goal with |- context [bind (addAlert _ _) _ ?w0] =>
      pose proof (addAlert_ok (eth_config i2) u2 w0) as Hadd2 end.
    simpl in Hadd2.
    specialize (Hadd2 ltac:(unfold Map_size; simpl; lia)). fold k1 k2 a2 in Hadd2.
    rewrite Hk12 in Hadd2.
    rewrite (bind_inr _ _ _ _ _ Hadd2). clear Hadd2. cbv beta.
    (* the loop *)
    unfold processPriceUpdate. unfold bind at 1. unfold get_this at 1.
    cbn [this alerts set_alerts].
    set (flt := mkFilter (Some "ETHUSDT") (Some "active") None).
    match goal with |- context [bind (forAlerts _ _ _) _ ?w0] => set (w1 := w0) end.
    assert (Hc1 : checkAlert a1 3100 = (true, set_lastPrice (Some 3100) a1)) by reflexivity.
    assert (Hc2 : checkAlert a2 3100 = (true, set_lastPrice (Some 3100) a2)) by reflexivity.
    assert (Hkey1 : lastAlertKey (set_lastPrice (Some 3100) a1) = lastAlertKey a1)
      by reflexivity.
    assert (Hkey2 : lastAlertKey (set_lastPrice (Some 3100) a2) = lastAlertKey a1)
      by reflexivity.
    assert (Hcool1 : cooling w1 (lastAlertKey (set_lastPrice (Some 3100) a1)) = false).
    { unfold cooling. simpl. rewrite Htimes. now rewrite lookup_empty. }
    assert (Hreads1 : coolReads w1 (lastAlertKey (set_lastPrice (Some 3100) a1)) = 0%nat).
    { unfold coolReads. simpl. rewrite Htimes. now rewrite lookup_empty. }
    pose proof (loopBody_fire k1 3100 a1 w1 _ Hc1 Hcool1) as Hfire.
    cbv zeta in Hfire. rewrite Hreads1, Hkey1 in Hfire.
    match type of Hfire with _ = (_, ?w0) => set (w2 := w0) in * end.
    assert (Hcool2 : cooling w2 (lastAlertKey (set_lastPrice (Some 3100) a2)) = true).
    { unfold cooling. rewrite Hkey2. simpl. rewrite lookup_insert_eq.
      rewrite truthy_number_true by (apply Htruthy; lia). simpl.
      apply Z.ltb_lt. apply Hwin; lia. }
    assert (Hreads2 : coolReads w2 (lastAlertKey (set_lastPrice (Some 3100) a2)) = 1%nat).
    { unfold coolReads. rewrite Hkey2. simpl. rewrite lookup_insert_eq.
      now rewrite truthy_number_true by (apply Htruthy; lia). }
    pose proof (loopBody_skip k2 3100 a2 w2 _ Hc2 Hcool2) as Hskip.
    rewrite Hreads2 in Hskip.
    rewrite (bind_inr _ _ _ _ _
               (forAlerts_cons_selected flt 3100 k1 a1 [(k2, a2)] w1 _ _ _ _ eq_refl Hfire
                  (forAlerts_cons_selected flt 3100 k2 a2 [] w2 _ _ _ _ eq_refl Hskip eq_refl))).
    unfold bind, get_this, put_this. simpl.
    rewrite !Nat.add_0_r. rewrite <- !app_assoc. simpl.
    replace (r0 + 1)%nat with (S r0) by lia.
    reflexivity. }
  cbv zeta. rewrite Hrun. simpl.
  split; [reflexivity|]. split; [|split].
  - unfold newEvents. simpl. rewrite drop_app_length.
    unfold dispatches. simpl. fold (dispatches (sendEvents (logger t) 0 (notifiers t) n)).
    now rewrite dispatches_sendEvents.
  - unfold statusOf. simpl. now rewrite String.eqb_refl.
  - unfold statusOf. simpl. rewrite Hk12. now rewrite String.eqb_refl.
Qed.

Lemma steady_world_truthy : clockTruthy steady_world.
Proof. intros i _. simpl. lia. Qed.

Lemma steady_world_window : withinCooldown steady_world.
Proof. intros i j _ _. simpl. lia. Qed.

Lemma C1_two_alerts_one_dispatch_witness :
  fst (two_alerts_scenario (Some "a") (Some "b") "u1" "u2" steady_world) = inr tt /\
  length (dispatches (newEvents steady_world
            (snd (two_alerts_scenario (Some "a") (Some "b") "u1" "u2" steady_world))))
    = 1%nat /\
  statusOf "a" (snd (two_alerts_scenario (Some "a") (Some "b") "u1" "u2" steady_world))
    = Some "triggered" /\
  statusOf "b" (snd (two_alerts_scenario (Some "a") (Some "b") "u1" "u2" steady_world))
    = Some "active".
Proof.
  apply (C1_two_alerts_one_dispatch (Some "a") (Some "b") "u1" "u2" steady_world).
  - reflexivity.
  - reflexivity.
  - simpl. lia.
  - discriminate.
  - exact steady_world_truthy.
  - exact steady_world_window.
Defined.

(** C1 as the claim has it fails: in the scenario the second alert is not
    [triggered] after the update. *)
Lemma C1_counterexample :
  ~ (length (dispatches (newEvents steady_world
               (snd (two_alerts_scenario (Some "a") (Some "b") "u1" "u2" steady_world))))
       = 1%nat /\
     statusOf "a" (snd (two_alerts_scenario (Some "a") (Some "b") "u1" "u2" steady_world))
       = Some "triggered" /\
     statusOf "b" (snd (two_alerts_scenario (Some "a") (Some "b") "u1" "u2" steady_world))
       = Some "triggered").
Proof. vm_compute. intros (_ & _ & H). discriminate H. Qed.

(** ** C2: one firing per cooldown key and window *)

Lemma triggeredFor_app K e1 e2 :
  triggeredFor K (e1 ++ e2) = (triggeredFor K e1 ++ triggeredFor K e2)%list.
Proof. apply omap_app. Qed.

Lemma dispatchedFor_app K e1 e2 :
  dispatchedFor K (e1 ++ e2) = (dispatchedFor K e1 ++ dispatchedFor K e2)%list.
Proof. apply omap_app. Qed.

Lemma keyed_app K r1 r2 : keyed K (r1 ++ r2) = (keyed K r1 ++ keyed K r2)%list.
Proof. apply List.filter_app. Qed.

Lemma pushAll_app r1 r2 h : pushAll (r1 ++ r2) h = pushAll r2 (pushAll r1 h).
Proof. apply fold_left_app. Qed.

Lemma triggeredFor_sendEvents K lg ns : forall i n, triggeredFor K (sendEvents lg i ns n) = [].
Proof.
  induction ns as [|nf ns IH]; intros i n; [reflexivity|].
  unfold triggeredFor in *. simpl. rewrite omap_app, IH.
  destruct (nf n); [destruct lg|]; reflexivity.
Qed.

Lemma dispatchedFor_sendEvents K lg ns : forall i n, dispatchedFor K (sendEvents lg i ns n) = [].
Proof.
  induction ns as [|nf ns IH]; intros i n; [reflexivity|].
  unfold dispatchedFor in *. simpl. rewrite omap_app, IH.
  destruct (nf n); [destruct lg|]; reflexivity.
Qed.

Lemma events_of_firing K k a2 n l :
  triggeredFor K l = [] -> dispatchedFor K l = [] -> n_alert n = a2 ->
  length (triggeredFor K (alert_triggered k a2 :: dispatch n :: l))
    = (if String.eqb (lastAlertKey a2) K then 1 else 0)%nat /\
  length (dispatchedFor K (alert_triggered k a2 :: dispatch n :: l))
    = (if String.eqb (lastAlertKey a2) K then 1 else 0)%nat.
Proof.
  intros Ht Hd Hn.
  change (alert_triggered k a2 :: dispatch n :: l)
    with ([alert_triggered k a2; dispatch n] ++ l)%list.
  rewrite triggeredFor_app, dispatchedFor_app, Ht, Hd, !app_nil_r.
  unfold triggeredFor, dispatchedFor. simpl. rewrite Hn.
  destruct (String.eqb (lastAlertKey a2) K); split; reflexivity.
Qed.

Lemma keyCount_le_1 K w0 w : (keyCount K w0 w <= 1)%nat.
Proof. unfold keyCount. destruct (decide _); lia. Qed.

Lemma keyCount_this K w0 w w' :
  this w' = this w -> keyCount K w0 w' = keyCount K w0 w.
Proof. intros H. unfold keyCount. now rewrite H. Qed.

Lemma stepFor_refl K w0 w : stepFor K w0 w w.
Proof.
  exists [], []. rewrite app_nil_r. simpl.
  repeat split; try reflexivity; lia.
Qed.

Lemma stepFor_trans K w0 w1 w2 w3 :
  stepFor K w0 w1 w2 -> stepFor K w0 w2 w3 -> stepFor K w0 w1 w3.
Proof.
  intros (e1 & r1 & Ht1 & Hh1 & Hm1 & Ha1 & Hb1 & Hc1)
         (e2 & r2 & Ht2 & Hh2 & Hm2 & Ha2 & Hb2 & Hc2).
  exists (e1 ++ e2)%list, (r1 ++ r2)%list.
  rewrite Ht2, Ht1, Hh2, Hh1, pushAll_app, app_assoc.
  rewrite triggeredFor_app, dispatchedFor_app, keyed_app, !length_app.
  repeat split; lia.
Qed.

Lemma checkAlert_key alert p b a1 :
  checkAlert alert p = (b, a1) -> lastAlertKey a1 = lastAlertKey alert.
Proof.
  intros H. destruct (checkAlert_fields _ _ _ _ H); subst; reflexivity.
Qed.

Section Window.

Variable K : string.
Variable w0 : World.
Hypothesis Htruthy : clockTruthy w0.
Hypothesis Hwin : withinCooldown w0.
Hypothesis Hfree : freeAt w0 K.

Lemma cooldown_pos : 0 < cooldown (this w0).
Proof. pose proof (Hwin (reads w0) (reads w0) (le_n _) (le_n _)). lia. Qed.

(** A time read in the window is not the trigger time [K] reaches with. *)
Lemma fresh_time i :
  (reads w0 <= i)%nat -> lastAlertTimes (this w0) !! K <> Some (clock w0 i).
Proof.
  intros Hi Heq. unfold freeAt in Hfree. rewrite Heq in Hfree.
  destruct Hfree as [H0|Hexp].
  - exact (Htruthy i Hi H0).
  - specialize (Hexp i Hi). pose proof cooldown_pos. lia.
Qed.

(** Within the window a key that has fired is in cooldown, and one that has
    not is not. *)
Lemma inWindow_cooling_fired w :
  inWindow K w0 w -> keyCount K w0 w = 1%nat -> cooling w K = true.
Proof.
  intros (Hc & Hcd & Hr & [Hsame|(i & Hi & Hs)]); unfold keyCount, cooling.
  - rewrite decide_True by exact Hsame. discriminate.
  - rewrite Hs, Hc, Hcd. intros _.
    rewrite truthy_number_true by (apply Htruthy; exact Hi). simpl.
    apply Z.ltb_lt. apply Hwin; [exact Hi|exact Hr].
Qed.

Lemma inWindow_cooling_free w :
  inWindow K w0 w -> keyCount K w0 w = 0%nat -> cooling w K = false.
Proof.
  intros (Hc & Hcd & Hr & [Hsame|(i & Hi & Hs)]); unfold keyCount, cooling.
  - intros _. rewrite Hsame. unfold freeAt in Hfree.
    destruct (lastAlertTimes (this w0) !! K) as [t|]; [|reflexivity].
    destruct Hfree as [->|Hexp]; [reflexivity|].
    rewrite Hc, Hcd. specialize (Hexp (reads w) Hr).
    replace (clock w0 (reads w) - t <? cooldown (this w0)) with false
      by (symmetry; apply Z.ltb_ge; lia).
    apply andb_false_r.
  - destruct (decide _) as [e|_]; [|discriminate].
    rewrite Hs in e. exfalso. exact (fresh_time i Hi (eq_sym e)).
Qed.

Lemma loopBody_window k p alert w alert' w' :
  loopBody k p alert w = (inr alert', w') ->
  inWindow K w0 w ->
  inWindow K w0 w' /\ stepFor K w0 w w'.
Proof.
  intros Hrun Hin.
  destruct (checkAlert alert p) as [b a1] eqn:Hc.
  destruct b; [destruct (cooling w (lastAlertKey a1)) eqn:Hcool|].
  - (* skipped *)
    rewrite (loopBody_skip k p alert w a1 Hc Hcool) in Hrun.
    injection Hrun as _ Hw. rewrite <- Hw.
    destruct Hin as (H1 & H2 & H3 & H4). split.
    + repeat split; simpl; [exact H1|exact H2|lia|exact H4].
    + exists [], []. simpl. rewrite app_nil_r.
      rewrite (keyCount_this K w0 w (mkWorld (this w) (clock w)
                 (reads w + coolReads w (lastAlertKey a1)) (trace w)) eq_refl).
      repeat split; try reflexivity; lia.
  - (* fired *)
    rewrite (loopBody_fire k p alert w a1 Hc Hcool) in Hrun.
    injection Hrun as _ Hw. rewrite <- Hw. clear Hw.
    set (r := (reads w + coolReads w (lastAlertKey a1))%nat).
    set (a2 := markTriggered (clock w r) p a1).
    set (n := mkNotification a2 (formatAlertMessage a2)).
    assert (Hk2 : lastAlertKey a2 = lastAlertKey a1) by reflexivity.
    set (h' := pushHistory (set_triggeredAt (Some (clock w (S (S r)))) a2)
                 (alertHistory (this w))).
    set (evs := alert_triggered k a2 :: dispatch n
                  :: sendEvents (logger (this w)) 0 (notifiers (this w)) n).
    set (w1 := mkWorld
                 (set_alertHistory h'
                    (set_lastAlertTimes
                       (<[lastAlertKey a1 := clock w (S r)]> (lastAlertTimes (this w)))
                       (this w)))
                 (clock w) (S (S (S r))) (trace w ++ evs)).
    destruct (events_of_firing K k a2 n
                (sendEvents (logger (this w)) 0 (notifiers (this w)) n)
                (triggeredFor_sendEvents _ _ _ _ _)
                (dispatchedFor_sendEvents _ _ _ _ _) eq_refl) as [Ea Eb].
    fold evs in Ea, Eb. rewrite Hk2 in Ea, Eb.
    assert (Ec : length (keyed K [set_triggeredAt (Some (clock w (S (S r)))) a2])
                 = (if String.eqb (lastAlertKey a1) K then 1 else 0)%nat).
    { unfold keyed. simpl.
      change (lastAlertKey (set_triggeredAt (Some (clock w (S (S r)))) a2))
        with (lastAlertKey a1).
      destruct (String.eqb (lastAlertKey a1) K); reflexivity. }
    destruct (String.eqb_spec (lastAlertKey a1) K) as [HK|HK].
    + (* the key is K *)
      assert (H0 : keyCount K w0 w = 0%nat).
      { pose proof (keyCount_le_1 K w0 w).
        destruct (Nat.eq_dec (keyCount K w0 w) 1) as [H1|H1]; [|lia].
        rewrite HK in Hcool.
        rewrite (inWindow_cooling_fired w Hin H1) in Hcool. discriminate. }
      destruct Hin as (H1 & H2 & H3 & H4).
      assert (Hlook : lastAlertTimes (this w1) !! K = Some (clock w0 (S r))).
      { simpl. rewrite HK, lookup_insert_eq, H1. reflexivity. }
      assert (H1' : keyCount K w0 w1 = 1%nat).
      { unfold keyCount. rewrite Hlook. rewrite decide_False; [reflexivity|].
        intros e. apply (fresh_time (S r)); [unfold r; lia|]. now symmetry. }
      split.
      * repeat split; simpl; [exact H1|exact H2|unfold r; lia|].
        right. exists (S r). split; [unfold r; lia|]. exact Hlook.
      * exists evs, [set_triggeredAt (Some (clock w (S (S r)))) a2].
        rewrite H1', H0, Ea, Eb, Ec.
        split; [reflexivity|]. split; [reflexivity|]. split; [lia|]. auto.
    + (* another key *)
      assert (Hlook : lastAlertTimes (this w1) !! K = lastAlertTimes (this w) !! K).
      { simpl. now rewrite lookup_insert_ne. }
      assert (Hsame : keyCount K w0 w1 = keyCount K w0 w).
      { unfold keyCount. now rewrite Hlook. }
      destruct Hin as (H1 & H2 & H3 & H4). split.
      * repeat split; simpl; [exact H1|exact H2|unfold r; lia|].
        rewrite lookup_insert_ne by exact HK. exact H4.
      * exists evs, [set_triggeredAt (Some (clock w (S (S r)))) a2].
        rewrite Hsame, Ea, Eb, Ec.
        split; [reflexivity|]. split; [reflexivity|]. split; [lia|].
        rewrite Nat.sub_diag. auto.
  - (* no match *)
    rewrite (loopBody_nomatch k p alert w a1 Hc) in Hrun.
    injection Hrun as _ Hw. rewrite <- Hw.
    split; [exact Hin|apply stepFor_refl].
Qed.

Lemma forAlerts_window flt p entries w :
  inWindow K w0 w ->
  exists entries' w',
    forAlerts flt p entries w = (inr entries', w') /\
    inWindow K w0 w' /\ stepFor K w0 w w'.
Proof.
  intros Hin.
  destruct (forAlerts_rel
              (fun w1 w2 => inWindow K w0 w1 -> inWindow K w0 w2 /\ stepFor K w0 w1 w2) flt p)
    with (entries := entries) (w := w) as (entries' & w' & H & HR & _).
  - intros w1 H1. split; [exact H1|apply stepFor_refl].
  - intros w1 w2 w3 H12 H23 H1. destruct (H12 H1) as [H2 S12].
    destruct (H23 H2) as [H3 S23]. split; [exact H3|].
    exact (stepFor_trans K w0 _ _ _ S12 S23).
  - intros k a w1 a' w2 Hb H1.
    exact (loopBody_window k p a w1 a' w2 Hb H1).
  - exists entries', w'. split; [exact H|]. exact (HR Hin).
Qed.

(** An iteration whose condition holds for an alert of key [K] leaves [K]
    fired: it fires now, or [K] was in cooldown already. *)
Lemma loopBody_hit k p alert w alert' w' :
  inWindow K w0 w ->
  lastAlertKey alert = K ->
  fst (checkAlert alert p) = true ->
  loopBody k p alert w = (inr alert', w') ->
  keyCount K w0 w' = 1%nat.
Proof.
  intros Hin HK Hm Hrun.
  destruct (checkAlert alert p) as [b a1] eqn:Hc. simpl in Hm. subst b.
  pose proof (checkAlert_key _ _ _ _ Hc) as Hk1. rewrite HK in Hk1.
  destruct (cooling w (lastAlertKey a1)) eqn:Hcool.
  - rewrite (loopBody_skip k p alert w a1 Hc Hcool) in Hrun.
    injection Hrun as _ Hw. rewrite <- Hw.
    rewrite (keyCount_this K w0 w (mkWorld (this w) (clock w)
               (reads w + coolReads w (lastAlertKey a1)) (trace w)) eq_refl).
    pose proof (keyCount_le_1 K w0 w).
    destruct (Nat.eq_dec (keyCount K w0 w) 0) as [H0|H0]; [|lia].
    rewrite Hk1 in Hcool.
    rewrite (inWindow_cooling_free w Hin H0) in Hcool. discriminate.
  - rewrite (loopBody_fire k p alert w a1 Hc Hcool) in Hrun.
    injection Hrun as _ Hw. rewrite <- Hw.
    destruct Hin as (H1 & H2 & H3 & H4).
    unfold keyCount. simpl. rewrite Hk1, lookup_insert_eq.
    rewrite decide_False; [reflexivity|].
    rewrite H1. intros e. apply (fresh_time (S (reads w + coolReads w K))); [lia|].
    now symmetry.
Qed.

Lemma forAlerts_hits flt p entries : forall w k alert,
  inWindow K w0 w ->
  In (k, alert) entries ->
  selects flt alert = true ->
  lastAlertKey alert = K ->
  fst (checkAlert alert p) = true ->
  exists entries' w',
    forAlerts flt p entries w = (inr entries', w') /\
    inWindow K w0 w' /\ stepFor K w0 w w' /\ keyCount K w0 w' = 1%nat.
Proof.
  induction entries as [|[k0 a0] entries IH]; intros w k alert Hin Hel Hsel HK Hm;
    [destruct Hel|].
  destruct Hel as [Heq|Hel].
  - inversion Heq; subst k0 a0. clear Heq.
    destruct (loopBody_total k p alert w) as (a' & w1 & Hb).
    destruct (loopBody_window k p alert w a' w1 Hb Hin) as [Hin1 S1].
    pose proof (loopBody_hit k p alert w a' w1 Hin HK Hm Hb) as Hc1.
    destruct (forAlerts_window flt p entries w1 Hin1) as (rest' & w2 & Hr & Hin2 & S2).
    exists ((k, a') :: rest'), w2.
    split; [exact (forAlerts_cons_selected flt p k alert entries w a' w1 rest' w2 Hsel Hb Hr)|].
    split; [exact Hin2|]. split; [exact (stepFor_trans K w0 _ _ _ S1 S2)|].
    destruct S2 as (_ & _ & _ & _ & Hmono & _).
    pose proof (keyCount_le_1 K w0 w2). lia.
  - destruct (selects flt a0) eqn:Hs0.
    + destruct (loopBody_total k0 p a0 w) as (a' & w1 & Hb).
      destruct (loopBody_window k0 p a0 w a' w1 Hb Hin) as [Hin1 S1].
      destruct (IH w1 k alert Hin1 Hel Hsel HK Hm) as (rest' & w2 & Hr & Hin2 & S2 & Hc2).
      exists ((k0, a') :: rest'), w2.
      split; [exact (forAlerts_cons_selected flt p k0 a0 entries w a' w1 rest' w2 Hs0 Hb Hr)|].
      split; [exact Hin2|]. split; [exact (stepFor_trans K w0 _ _ _ S1 S2)|exact Hc2].
    + destruct (IH w k alert Hin Hel Hsel HK Hm) as (rest' & w2 & Hr & Hin2 & S2 & Hc2).
      exists ((k0, a0) :: rest'), w2.
      split; [exact (forAlerts_cons_unselected flt p k0 a0 entries w rest' w2 Hs0 Hr)|].
      auto.
Qed.

Lemma set_alerts_window entries w1 :
  let w' := mkWorld (set_alerts entries (this w1)) (clock w1) (reads w1) (trace w1) in
  (inWindow K w0 w1 -> inWindow K w0 w') /\ stepFor K w0 w1 w' /\
  keyCount K w0 w' = keyCount K w0 w1.
Proof.
  simpl. split; [|split].
  - intros H. exact H.
  - exists [], []. rewrite app_nil_r. simpl.
    change (keyCount K w0
              (mkWorld (set_alerts entries (this w1)) (clock w1) (reads w1) (trace w1)))
      with (keyCount K w0 w1).
    repeat split; try reflexivity; lia.
  - reflexivity.
Qed.

Lemma processPriceUpdate_window symbol p w :
  inWindow K w0 w ->
  exists w',
    processPriceUpdate symbol p w = (inr tt, w') /\
    inWindow K w0 w' /\ stepFor K w0 w w'.
Proof.
  intros Hin.
  destruct (forAlerts_window (mkFilter (Some symbol) (Some "active") None) p
              (alerts (this w)) w Hin) as (entries' & w1 & H & Hin1 & S1).
  destruct (set_alerts_window entries' w1) as (Ha & Hb & _).
  eexists. split.
  - unfold processPriceUpdate. unfold bind at 1. unfold get_this at 1.
    rewrite (bind_inr _ _ _ _ _ H). reflexivity.
  - split; [exact (Ha Hin1)|exact (stepFor_trans K w0 _ _ _ S1 Hb)].
Qed.

Lemma processPriceUpdate_hits symbol p w k alert :
  inWindow K w0 w ->
  In (k, alert) (alerts (this w)) ->
  selects (mkFilter (Some symbol) (Some "active") None) alert = true ->
  lastAlertKey alert = K ->
  fst (checkAlert alert p) = true ->
  exists w',
    processPriceUpdate symbol p w = (inr tt, w') /\
    inWindow K w0 w' /\ stepFor K w0 w w' /\ keyCount K w0 w' = 1%nat.
Proof.
  intros Hin Hel Hsel HK Hm.
  destruct (forAlerts_hits (mkFilter (Some symbol) (Some "active") None) p
              (alerts (this w)) w k alert Hin Hel Hsel HK Hm)
    as (entries' & w1 & H & Hin1 & S1 & Hc1).
  destruct (set_alerts_window entries' w1) as (Ha & Hb & Hc).
  eexists. split.
  - unfold processPriceUpdate. unfold bind at 1. unfold get_this at 1.
    rewrite (bind_inr _ _ _ _ _ H). reflexivity.
  - split; [exact (Ha Hin1)|]. split; [exact (stepFor_trans K w0 _ _ _ S1 Hb)|].
    simpl in Hc. rewrite <- Hc1. exact Hc.
Qed.

Lemma processPriceUpdates_window symbol prices : forall w,
  inWindow K w0 w ->
  exists w',
    processPriceUpdates symbol prices w = (inr tt, w') /\
    inWindow K w0 w' /\ stepFor K w0 w w'.
Proof.
  induction prices as [|p prices IH]; intros w Hin.
  - exists w. split; [reflexivity|]. split; [exact Hin|apply stepFor_refl].
  - destruct (processPriceUpdate_window symbol p w Hin) as (w1 & H1 & Hin1 & S1).
    destruct (IH w1 Hin1) as (w2 & H2 & Hin2 & S2).
    exists w2. simpl. rewrite (bind_inr _ _ _ _ _ H1).
    split; [exact H2|]. split; [exact Hin2|exact (stepFor_trans K w0 _ _ _ S1 S2)].
Qed.

End Window.

(** ** The history, entry by entry *)

Lemma pushHistory_appended rec h : pushHistory rec h = appended [rec] h.
Proof.
  unfold pushHistory, appended. simpl length.
  destruct (Nat.ltb_spec 100 (length (h ++ [rec]))) as [Hlt|Hge];
    rewrite length_app in *; simpl length in *.
  - replace (Nat.min 1 (length h + 1 - 100)) with 1%nat by lia.
    now destruct (h ++ [rec])%list.
  - replace (Nat.min 1 (length h + 1 - 100)) with 0%nat by lia. reflexivity.
Qed.

Lemma pushAll_appended recs : forall h, pushAll recs h = appended recs h.
Proof.
  induction recs as [|rec recs IH]; intros h.
  - unfold appended. simpl. now rewrite app_nil_r.
  - change (pushAll (rec :: recs) h) with (pushAll recs (pushHistory rec h)).
    rewrite IH. unfold pushHistory, appended.
    destruct (Nat.ltb_spec 100 (length (h ++ [rec]))) as [Hlt|Hge];
      rewrite length_app in *; simpl length in *.
    + destruct h as [|x h']; [simpl in Hlt; lia|].
      simpl length in Hlt.
      simpl tl. rewrite length_app. simpl length.
      replace (Nat.min (length recs) (length h' + 1 + length recs - 100))
        with (length recs) by lia.
      replace (Nat.min (S (length recs)) (S (length h') + S (length recs) - 100))
        with (S (length recs)) by lia.
      simpl. now rewrite <- app_assoc.
    + replace (Nat.min (S (length recs)) (length h + S (length recs) - 100))
        with (Nat.min (length recs) (length h + 1 + length recs - 100)) by lia.
      now rewrite <- app_assoc.
Qed.

(** ** The cooldown key *)

Lemma append_cancel_l (s a b : string) : s +:+ a = s +:+ b -> a = b.
Proof.
  induction s as [|c s IH]; simpl; intros H; [exact H|].
  injection H as H. now apply IH.
Qed.

Lemma append_length (a b : string) :
  String.length (a +:+ b) = (String.length a + String.length b)%nat.
Proof. induction a as [|c a IH]; simpl; [reflexivity|]. now rewrite IH. Qed.

Lemma append_cancel_r (s : string) : forall a b : string, a +:+ s = b +:+ s -> a = b.
Proof.
  induction a as [|c a IH]; intros [|c' b] H.
  - reflexivity.
  - apply (f_equal String.length) in H. rewrite !append_length in H.
    simpl in H. lia.
  - apply (f_equal String.length) in H. rewrite !append_length in H.
    simpl in H. lia.
  - simpl in H. injection H as -> H. f_equal. now apply IH.
Qed.

Lemma lastAlertKey_tuple (a b : Alert) :
  (AlertManager.symbol a = AlertManager.symbol b -> type a = type b ->
   price a = price b -> lastAlertKey a = lastAlertKey b) /\
  (lastAlertKey a = lastAlertKey b ->
     (AlertManager.symbol a = AlertManager.symbol b -> type a = type b ->
      price a = price b) /\
     (AlertManager.symbol a = AlertManager.symbol b -> price a = price b ->
      type a = type b) /\
     (type a = type b -> price a = price b ->
      AlertManager.symbol a = AlertManager.symbol b)).
Proof.
  unfold lastAlertKey. split.
  - intros -> -> ->. reflexivity.
  - intros H. split; [|split].
    + intros Hs Ht. rewrite Hs, Ht in H.
      do 4 apply append_cancel_l in H.
      exact (pretty_Z_inj _ _ H).
    + intros Hs Hp. rewrite Hs, Hp in H.
      do 2 apply append_cancel_l in H.
      exact (append_cancel_r _ _ _ H).
    + intros Ht Hp. rewrite Ht, Hp in H.
      exact (append_cancel_r _ _ _ H).
Qed.

(** C2. Within one cooldown window that starts with the key [K] out of
    cooldown, let the first of a sequence of price updates satisfy the
    trigger condition of a selected alert whose key is [K] (repeating or
    not); the later updates may satisfy it again or not.  Then the whole
    sequence ends normally and emits exactly one [alert_triggered] for an
    alert of key [K], calls [sendAlert] exactly once for that key and adds
    exactly one entry of that key to the history: the history afterwards is
    the one before with the entries added in the run at its end (the oldest
    dropped beyond 100), and one of those has the key [K].  An iteration
    whose condition holds while the key is in cooldown leaves the status,
    the manager (history included) and the trace as they were.  The key is
    that of the tuple: alerts with the same symbol, type and price have the
    same key, and two alerts that agree on two of the three and have the
    same key agree on the third. *)
Theorem C2_cooldown_idempotence :
  (forall (K symbol k : string) (p : Z) (rest : list Z) (alert : Alert) (w : World),
     clockTruthy w ->
     withinCooldown w ->
     freeAt w K ->
     In (k, alert) (alerts (this w)) ->
     selects (mkFilter (Some symbol) (Some "active") None) alert = true ->
     lastAlertKey alert = K ->
     fst (checkAlert alert p) = true ->
     exists w' evs recs,
       processPriceUpdates symbol (p :: rest) w = (inr tt, w') /\
       trace w' = (trace w ++ evs)%list /\
       alertHistory (this w') = appended recs (alertHistory (this w)) /\
       length (triggeredFor K evs) = 1%nat /\
       length (dispatchedFor K evs) = 1%nat /\
       length (keyed K recs) = 1%nat) /\
  (forall (k : string) (p : Z) (alert a1 : Alert) (w : World),
     checkAlert alert p = (true, a1) ->
     cooling w (lastAlertKey a1) = true ->
     exists w',
       loopBody k p alert w = (inr a1, w') /\
       status a1 = status alert /\
       this w' = this w /\
       trace w' = trace w) /\
  (forall a b : Alert,
     (AlertManager.symbol a = AlertManager.symbol b -> type a = type b ->
      price a = price b -> lastAlertKey a = lastAlertKey b) /\
     (lastAlertKey a = lastAlertKey b ->
        (AlertManager.symbol a = AlertManager.symbol b -> type a = type b ->
         price a = price b) /\
        (AlertManager.symbol a = AlertManager.symbol b -> price a = price b ->
         type a = type b) /\
        (type a = type b -> price a = price b ->
         AlertManager.symbol a = AlertManager.symbol b))).
Proof.
  split; [|split].
  - intros K symbol k p rest alert w Htruthy Hwin Hfree Hel Hsel HK Hm.
    assert (Hin : inWindow K w w).
    { repeat split; [lia|]. left. reflexivity. }
    destruct (processPriceUpdate_hits K w Htruthy Hwin Hfree symbol p w k alert
                Hin Hel Hsel HK Hm)
      as (w1 & H1 & Hin1 & S1 & Hc1).
    destruct (processPriceUpdates_window K w Htruthy Hwin Hfree symbol rest w1 Hin1)
      as (w2 & H2 & Hin2 & S2).
    destruct (stepFor_trans K w _ _ _ S1 S2) as (evs & recs & Ht & Hh & Hmono & Ha & Hb & Hc).
    assert (H0 : keyCount K w w = 0%nat).
    { unfold keyCount. now rewrite decide_True. }
    assert (H2' : keyCount K w w2 = 1%nat).
    { destruct S2 as (_ & _ & _ & _ & Hm2 & _). pose proof (keyCount_le_1 K w w2). lia. }
    exists w2, evs, recs. simpl. rewrite (bind_inr _ _ _ _ _ H1).
    split; [exact H2|]. split; [exact Ht|].
    split; [rewrite Hh; apply pushAll_appended|].
    rewrite Ha, Hb, Hc, H0, H2'. auto.
  - intros k p alert a1 w Hc Hcool.
    rewrite (loopBody_skip k p alert w a1 Hc Hcool). eexists.
    split; [reflexivity|]. simpl. split; [|split; reflexivity].
    destruct (checkAlert_fields _ _ _ _ Hc); subst; reflexivity.
  - exact lastAlertKey_tuple.
Qed.

Lemma C2_cooldown_idempotence_witness :
  (exists w' evs recs,
     processPriceUpdates "ETHUSDT" [2900; 2800; 2950] repeat_world = (inr tt, w') /\
     trace w' = (trace repeat_world ++ evs)%list /\
     alertHistory (this w') = appended recs (alertHistory (this repeat_world)) /\
     length (triggeredFor (lastAlertKey eth_below) evs) = 1%nat /\
     length (dispatchedFor (lastAlertKey eth_below) evs) = 1%nat /\
     length (keyed (lastAlertKey eth_below) recs) = 1%nat) /\
  (exists w',
     loopBody "b" 2800 eth_below
       (snd (processPriceUpdate "ETHUSDT" 2900 repeat_world))
       = (inr (set_lastPrice (Some 2800) eth_below), w') /\
     status (set_lastPrice (Some 2800) eth_below) = status eth_below /\
     this w' = this (snd (processPriceUpdate "ETHUSDT" 2900 repeat_world)) /\
     trace w' = trace (snd (processPriceUpdate "ETHUSDT" 2900 repeat_world))).
Proof.
  destruct C2_cooldown_idempotence as (Hrun & Hskip & _). split.
  - apply (Hrun (lastAlertKey eth_below) "ETHUSDT" "b" 2900 [2800; 2950] eth_below
             repeat_world).
    + intros i _. simpl. lia.
    + intros i j _ _. simpl. lia.
    + vm_compute. exact I.
    + left. reflexivity.
    + reflexivity.
    + reflexivity.
    + reflexivity.
  - apply (Hskip "b" 2800 eth_below (set_lastPrice (Some 2800) eth_below)
             (snd (processPriceUpdate "ETHUSDT" 2900 repeat_world))).
    + reflexivity.
    + vm_compute. reflexivity.
Defined.

(** ** C4: [cross] alerts *)

Lemma firingsOf_app k e1 e2 :
  firingsOf k (e1 ++ e2) = (firingsOf k e1 ++ firingsOf k e2)%list.
Proof. apply omap_app. Qed.

Lemma firingsOf_sendEvents k lg ns : forall i n, firingsOf k (sendEvents lg i ns n) = [].
Proof.
  induction ns as [|nf ns IH]; intros i n; [reflexivity|].
  unfold firingsOf in *. simpl. rewrite omap_app, IH.
  destruct (nf n); [destruct lg|]; reflexivity.
Qed.

Lemma firingsOf_firing k k0 a2 n l :
  firingsOf k l = [] ->
  firingsOf k (alert_triggered k0 a2 :: dispatch n :: l)
    = if String.eqb k0 k then [a2] else [].
Proof.
  intros Hl.
  change (alert_triggered k0 a2 :: dispatch n :: l)
    with ([alert_triggered k0 a2; dispatch n] ++ l)%list.
  rewrite firingsOf_app, Hl, app_nil_r. unfold firingsOf. simpl.
  destruct (String.eqb k0 k); reflexivity.
Qed.

Lemma frame_refl k K w : frame k K w w.
Proof.
  split; [reflexivity|]. split; [reflexivity|]. split; [lia|]. split; [reflexivity|].
  exists []. now rewrite app_nil_r.
Qed.

Lemma frame_trans k K w1 w2 w3 : frame k K w1 w2 -> frame k K w2 w3 -> frame k K w1 w3.
Proof.
  intros (C1 & D1 & R1 & H1 & e1 & T1 & F1) (C2 & D2 & R2 & H2 & e2 & T2 & F2).
  split; [congruence|]. split; [congruence|]. split; [lia|]. split; [congruence|].
  exists (e1 ++ e2)%list. rewrite T2, T1, app_assoc, firingsOf_app, F1, F2. auto.
Qed.

(** A key out of cooldown stays so along a run in which it does not fire. *)
Lemma freeAt_frame k K w w' : freeAt w K -> frame k K w w' -> freeAt w' K.
Proof.
  intros Hf (C1 & D1 & R1 & H1 & _). unfold freeAt in *. rewrite H1.
  destruct (lastAlertTimes (this w) !! K) as [t|]; [|exact I].
  destruct Hf as [H0|Hexp]; [left; exact H0|right].
  intros i Hi. rewrite C1, D1. apply Hexp. lia.
Qed.

Lemma freeAt_cooling K w : freeAt w K -> cooling w K = false.
Proof.
  unfold freeAt, cooling.
  destruct (lastAlertTimes (this w) !! K) as [t|]; [|reflexivity].
  intros [->|Hexp]; [reflexivity|].
  specialize (Hexp (reads w) (le_n _)).
  replace (clock w (reads w) - t <? cooldown (this w)) with false
    by (symmetry; apply Z.ltb_ge; lia).
  apply andb_false_r.
Qed.

(** An iteration for another entry, with another cooldown key. *)
Lemma loopBody_other k K k0 p a w a' w' :
  k0 <> k -> lastAlertKey a <> K ->
  loopBody k0 p a w = (inr a', w') ->
  lastAlertKey a' = lastAlertKey a /\ frame k K w w'.
Proof.
  intros Hk HK Hrun.
  destruct (checkAlert a p) as [b a1] eqn:Hc.
  pose proof (checkAlert_key _ _ _ _ Hc) as Hk1.
  destruct b; [destruct (cooling w (lastAlertKey a1)) eqn:Hcool|].
  - rewrite (loopBody_skip k0 p a w a1 Hc Hcool) in Hrun.
    injection Hrun as Ha Hw. rewrite <- Ha, <- Hw. split; [exact Hk1|].
    split; [reflexivity|]. split; [reflexivity|]. split; [simpl; lia|].
    split; [reflexivity|]. exists []. simpl. now rewrite app_nil_r.
  - rewrite (loopBody_fire k0 p a w a1 Hc Hcool) in Hrun.
    injection Hrun as Ha Hw. rewrite <- Ha, <- Hw. split.
    + rewrite <- Hk1.
      destruct (repeat a1); reflexivity.
    + split; [reflexivity|]. split; [reflexivity|]. split; [simpl; lia|]. split.
      * simpl. apply lookup_insert_ne. congruence.
      * eexists. split; [reflexivity|].
        rewrite firingsOf_firing by apply firingsOf_sendEvents.
        destruct (String.eqb_spec k0 k); [contradiction|reflexivity].
  - rewrite (loopBody_nomatch k0 p a w a1 Hc) in Hrun.
    injection Hrun as Ha Hw. rewrite <- Ha, <- Hw. split; [exact Hk1|apply frame_refl].
Qed.

(** The loop over entries that are all other entries. *)
Lemma forAlerts_others k K flt p entries : forall w,
  others k K entries ->
  exists entries' w',
    forAlerts flt p entries w = (inr entries', w') /\
    others k K entries' /\ frame k K w w'.
Proof.
  induction entries as [|[k0 a0] entries IH]; intros w Ho.
  - exists [], w. split; [reflexivity|]. split; [constructor|apply frame_refl].
  - inversion Ho as [|e l [Hk HK] Hrest]; subst. simpl in Hk, HK.
    destruct (selects flt a0) eqn:Hs.
    + destruct (loopBody_total k0 p a0 w) as (a' & w1 & Hb).
      destruct (loopBody_other k K k0 p a0 w a' w1 Hk HK Hb) as [Hk' F1].
      destruct (IH w1 Hrest) as (rest' & w2 & Hr & Ho' & F2).
      exists ((k0, a') :: rest'), w2.
      split; [exact (forAlerts_cons_selected flt p k0 a0 entries w a' w1 rest' w2 Hs Hb Hr)|].
      split; [|exact (frame_trans k K _ _ _ F1 F2)].
      constructor; [|exact Ho']. simpl. split; [exact Hk|congruence].
    + destruct (IH w Hrest) as (rest' & w2 & Hr & Ho' & F2).
      exists ((k0, a0) :: rest'), w2.
      split; [exact (forAlerts_cons_unselected flt p k0 a0 entries w rest' w2 Hs Hr)|].
      split; [|exact F2].
      constructor; [|exact Ho']. simpl. auto.
Qed.

Lemma forAlerts_app flt p l1 : forall l2 w l1' w1 l2' w2,
  forAlerts flt p l1 w = (inr l1', w1) ->
  forAlerts flt p l2 w1 = (inr l2', w2) ->
  forAlerts flt p (l1 ++ l2) w = (inr (l1' ++ l2')%list, w2).
Proof.
  induction l1 as [|[k a] l1 IH]; intros l2 w l1' w1 l2' w2 H1 H2.
  - simpl in H1. unfold ret in H1. injection H1 as <- <-. exact H2.
  - simpl in H1. unfold bind at 1 in H1.
    destruct ((if selects flt a then loopBody k p a else ret a) w) as [[e|a'] wa] eqn:Hh;
      [discriminate|].
    unfold bind at 1 in H1.
    destruct (forAlerts flt p l1 wa) as [[e|rest'] wb] eqn:Hr; [discriminate|].
    unfold ret in H1. injection H1 as <- <-.
    simpl. rewrite (bind_inr _ _ _ _ _ Hh).
    rewrite (bind_inr _ _ _ _ _ (IH l2 wa rest' wb l2' w2 Hr H2)). reflexivity.
Qed.

Lemma frame_set_alerts k K entries w w3 :
  frame k K w w3 ->
  frame k K w (mkWorld (set_alerts entries (this w3)) (clock w3) (reads w3) (trace w3)).
Proof. intros H. exact H. Qed.

(** One price update of a store that holds [a] under [k]: the entries before
    it are walked, then the iteration for [a] runs if the filter selects it,
    then the entries after it are walked. *)
Lemma update_split symbol p k K a w :
  holds k K a w ->
  exists w1,
    frame k K w w1 /\
    forall a' w2,
      (if selects (mkFilter (Some symbol) (Some "active") None) a
       then loopBody k p a else ret a) w1 = (inr a', w2) ->
      exists w',
        processPriceUpdate symbol p w = (inr tt, w') /\
        holds k K a' w' /\ frame k K w2 w'.
Proof.
  intros (pre & post & Hal & Hpre & Hpost).
  set (flt := mkFilter (Some symbol) (Some "active") None).
  destruct (forAlerts_others k K flt p pre w Hpre) as (pre' & w1 & H1 & Hpre' & F1).
  exists w1. split; [exact F1|]. intros a' w2 Hmid.
  destruct (forAlerts_others k K flt p post w2 Hpost) as (post' & w3 & H3 & Hpost' & F3).
  assert (Htail : forAlerts flt p ((k, a) :: post) w1 = (inr ((k, a') :: post'), w3)).
  { simpl. rewrite (bind_inr _ _ _ _ _ Hmid). now rewrite (bind_inr _ _ _ _ _ H3). }
  pose proof (forAlerts_app flt p pre _ w pre' w1 _ w3 H1 Htail) as Hall.
  eexists. split; [|split].
  - unfold processPriceUpdate. unfold bind at 1. unfold get_this at 1.
    rewrite Hal. fold flt. rewrite (bind_inr _ _ _ _ _ Hall). reflexivity.
  - exists pre', post'. simpl. auto.
  - apply frame_set_alerts. exact F3.
Qed.

Lemma selects_active symbol a :
  AlertManager.symbol a = symbol -> status a = "active" ->
  selects (mkFilter (Some symbol) (Some "active") None) a = true.
Proof.
  intros Hs Hst. unfold selects, passes. simpl. rewrite Hs, Hst. simpl.
  destruct (truthy_string symbol); [|reflexivity]. now rewrite String.eqb_refl.
Qed.

Lemma selects_triggered symbol a :
  status a = "triggered" ->
  selects (mkFilter (Some symbol) (Some "active") None) a = false.
Proof.
  intros Hst. unfold selects, passes. simpl. rewrite Hst. simpl.
  now rewrite andb_false_r.
Qed.

Lemma checkAlert_cross a p :
  status a = "active" -> type a = "cross" ->
  checkAlert a p =
  ((lt_undef (lastPrice a) (price a) && (price a <=? p))
   || (gt_undef (lastPrice a) (price a) && (p <=? price a)),
   set_lastPrice (Some p) a).
Proof.
  intros Hs Ht. unfold checkAlert. rewrite Hs, Ht. simpl.
  now rewrite Z.geb_leb.
Qed.

(** A sample below the target, while the last price is unset or not above
    the target: nothing fires. *)
Lemma cross_below_step symbol p k K a w :
  type a = "cross" -> status a = "active" -> AlertManager.symbol a = symbol ->
  (lastPrice a = None \/ exists l, lastPrice a = Some l /\ l <= price a) ->
  p < price a ->
  holds k K a w ->
  exists w',
    processPriceUpdate symbol p w = (inr tt, w') /\
    holds k K (set_lastPrice (Some p) a) w' /\ frame k K w w'.
Proof.
  intros Ht Hs Hsym Hlast Hp Hh.
  destruct (update_split symbol p k K a w Hh) as (w1 & F1 & Hstep).
  rewrite (selects_active symbol a Hsym Hs) in Hstep.
  assert (Hc : checkAlert a p = (false, set_lastPrice (Some p) a)).
  { rewrite (checkAlert_cross a p Hs Ht). f_equal.
    replace (price a <=? p) with false by (symmetry; apply Z.leb_gt; lia).
    rewrite andb_false_r. simpl.
    destruct Hlast as [Hn|(l & Hl & Hle)]; rewrite ?Hn, ?Hl; simpl; [reflexivity|].
    replace (l >? price a) with false; [reflexivity|].
    symmetry. rewrite Z.gtb_ltb. apply Z.ltb_ge. lia. }
  destruct (Hstep _ _ (loopBody_nomatch k p a w1 _ Hc)) as (w' & Hrun & Hh' & F2).
  exists w'. split; [exact Hrun|]. split; [exact Hh'|].
  exact (frame_trans k K _ _ _ F1 F2).
Qed.

(** The sample that reaches the target from below, outside any cooldown:
    the alert fires. *)
Lemma cross_up_step symbol p k a w l :
  type a = "cross" -> status a = "active" -> AlertManager.symbol a = symbol ->
  lastPrice a = Some l -> l < price a -> price a <= p ->
  freeAt w (lastAlertKey a) ->
  holds k (lastAlertKey a) a w ->
  exists w' a' evs a2,
    processPriceUpdate symbol p w = (inr tt, w') /\
    holds k (lastAlertKey a) a' w' /\
    trace w' = (trace w ++ evs)%list /\
    firingsOf k evs = [a2] /\
    triggeredPrice a2 = Some p /\ status a2 = "triggered" /\
    type a' = "cross" /\ AlertManager.symbol a' = symbol /\ price a' = price a /\
    lastAlertKey a' = lastAlertKey a /\
    lastPrice a' = Some p /\
    (status a' = "triggered" \/ status a' = "active").
Proof.
  intros Ht Hs Hsym Hl Hlt Hp Hfree Hh.
  destruct (update_split symbol p k (lastAlertKey a) a w Hh) as (w1 & F1 & Hstep).
  rewrite (selects_active symbol a Hsym Hs) in Hstep.
  assert (Hc : checkAlert a p = (true, set_lastPrice (Some p) a)).
  { rewrite (checkAlert_cross a p Hs Ht). f_equal. rewrite Hl. simpl.
    replace (l <? price a) with true by (symmetry; apply Z.ltb_lt; lia).
    replace (price a <=? p) with true by (symmetry; apply Z.leb_le; lia).
    reflexivity. }
  assert (Hcool : cooling w1 (lastAlertKey (set_lastPrice (Some p) a)) = false).
  { change (lastAlertKey (set_lastPrice (Some p) a)) with (lastAlertKey a).
    exact (freeAt_cooling _ _ (freeAt_frame k _ w w1 Hfree F1)). }
  destruct F1 as (_ & _ & _ & Hlook & e1 & T1 & N1).
  pose proof (loopBody_fire k p a w1 _ Hc Hcool) as Hfire. cbv zeta in Hfire.
  destruct (Hstep _ _ Hfire) as (w' & Hrun & Hh' & (_ & _ & _ & _ & e3 & T3 & N3)).
  match type of Hfire with _ = (inr ?x, _) => exists w', x end.
  match type of T3 with _ = (trace (mkWorld _ _ _ (_ ++ ?e2)) ++ _)%list =>
    exists (e1 ++ e2 ++ e3)%list end.
  eexists.
  split; [exact Hrun|]. split; [exact Hh'|].
  split; [rewrite T3; simpl; rewrite T1, <- !app_assoc; reflexivity|].
  split.
  { rewrite !firingsOf_app, N1, N3, app_nil_r, app_nil_l.
    rewrite firingsOf_firing by apply firingsOf_sendEvents.
    now rewrite String.eqb_refl. }
  split; [reflexivity|]. split; [reflexivity|].
  destruct (repeat _); simpl; repeat split; auto.
Qed.

(** A sample at or above the last one, which was at or above the target, or
    any sample once the alert is [triggered]: nothing fires. *)
Lemma cross_after_step symbol p k K a w :
  type a = "cross" -> AlertManager.symbol a = symbol ->
  (status a = "triggered" \/
   (status a = "active" /\ exists l, lastPrice a = Some l /\ price a <= l /\ l <= p)) ->
  holds k K a w ->
  exists w' a',
    processPriceUpdate symbol p w = (inr tt, w') /\
    holds k K a' w' /\ frame k K w w' /\
    type a' = "cross" /\ AlertManager.symbol a' = symbol /\ price a' = price a /\
    (status a' = "triggered" \/
     (status a' = "active" /\ lastPrice a' = Some p /\ price a' <= p)).
Proof.
  intros Ht Hsym Hst Hh.
  destruct (update_split symbol p k K a w Hh) as (w1 & F1 & Hstep).
  destruct Hst as [Htr|(Hs & l & Hl & HTl & Hlp)].
  - rewrite (selects_triggered symbol a Htr) in Hstep.
    destruct (Hstep a w1 eq_refl) as (w' & Hrun & Hh' & F2).
    exists w', a. split; [exact Hrun|]. split; [exact Hh'|].
    split; [exact (frame_trans k K _ _ _ F1 F2)|]. auto.
  - rewrite (selects_active symbol a Hsym Hs) in Hstep.
    assert (Hc : checkAlert a p = (false, set_lastPrice (Some p) a)).
    { rewrite (checkAlert_cross a p Hs Ht). f_equal. rewrite Hl. simpl.
      replace (l <? price a) with false by (symmetry; apply Z.ltb_ge; lia).
      simpl. destruct (l >? price a) eqn:Hgt; [|reflexivity]. simpl.
      apply Z.leb_gt. rewrite Z.gtb_ltb in Hgt. apply Z.ltb_lt in Hgt. lia. }
    destruct (Hstep _ _ (loopBody_nomatch k p a w1 _ Hc)) as (w' & Hrun & Hh' & F2).
    exists w', (set_lastPrice (Some p) a). split; [exact Hrun|]. split; [exact Hh'|].
    split; [exact (frame_trans k K _ _ _ F1 F2)|].
    simpl. repeat split; auto. right. repeat split; auto. lia.
Qed.

Lemma processPriceUpdates_app symbol l1 : forall l2 w w1,
  processPriceUpdates symbol l1 w = (inr tt, w1) ->
  processPriceUpdates symbol (l1 ++ l2) w = processPriceUpdates symbol l2 w1.
Proof.
  induction l1 as [|p l1 IH]; intros l2 w w1 H.
  - simpl in H. unfold ret in H. now injection H as <-.
  - simpl in *. unfold bind in *.
    destruct (processPriceUpdate symbol p w) as [[e|[]] wa]; [discriminate|].
    now apply IH.
Qed.

(** Samples below the target keep a [cross] alert waiting. *)
Lemma run_below symbol k K below : forall a w,
  type a = "cross" -> status a = "active" -> AlertManager.symbol a = symbol ->
  (exists l, lastPrice a = Some l /\ l < price a) ->
  Forall (fun p => p < price a) below ->
  holds k K a w ->
  exists w' a',
    processPriceUpdates symbol below w = (inr tt, w') /\
    holds k K a' w' /\ frame k K w w' /\
    type a' = "cross" /\ status a' = "active" /\ AlertManager.symbol a' = symbol /\
    price a' = price a /\ lastAlertKey a' = lastAlertKey a /\
    exists l, lastPrice a' = Some l /\ l < price a.
Proof.
  induction below as [|p below IH]; intros a w Ht Hs Hsym Hl Hall Hh.
  - exists w, a. split; [reflexivity|]. split; [exact Hh|].
    split; [apply frame_refl|]. auto 10.
  - inversion Hall as [|x l' Hp Hrest]; subst x l'.
    destruct (cross_below_step symbol p k K a w Ht Hs Hsym) as (w1 & H1 & Hh1 & F1);
      [destruct Hl as (l & Hl & Hlt); right; exists l; split; [exact Hl|lia]
      |exact Hp|exact Hh|].
    destruct (IH (set_lastPrice (Some p) a) w1 Ht Hs Hsym) as
      (w2 & a' & H2 & Hh2 & F2 & Ht' & Hs' & Hsym' & Hpr' & Hk' & Hl');
      [exists p; split; [reflexivity|exact Hp]|exact Hrest|exact Hh1|].
    exists w2, a'. simpl. rewrite (bind_inr _ _ _ _ _ H1).
    split; [exact H2|]. split; [exact Hh2|].
    split; [exact (frame_trans k K _ _ _ F1 F2)|]. auto 10.
Qed.

(** Once the target was reached, non-decreasing samples fire nothing. *)
Lemma run_after symbol k K above : forall a w b,
  type a = "cross" -> AlertManager.symbol a = symbol ->
  (status a = "triggered" \/
   (status a = "active" /\ lastPrice a = Some b /\ price a <= b)) ->
  StronglySorted Z.le (b :: above) ->
  holds k K a w ->
  exists w',
    processPriceUpdates symbol above w = (inr tt, w') /\ frame k K w w'.
Proof.
  induction above as [|p above IH]; intros a w b Ht Hsym Hst Hsorted Hh.
  - exists w. split; [reflexivity|apply frame_refl].
  - apply StronglySorted_inv in Hsorted. destruct Hsorted as [Hs' Hb].
    inversion Hb as [|x l' Hbp Hb']; subst x l'.
    destruct (cross_after_step symbol p k K a w Ht Hsym) as
      (w1 & a' & H1 & Hh1 & F1 & Ht' & Hsym' & Hpr' & Hst');
      [destruct Hst as [Htr|(Ha & Hl & Hle)];
         [left; exact Htr|right; split; [exact Ha|exists b; auto]]
      |exact Hh|].
    destruct (IH a' w1 p Ht' Hsym' Hst' Hs' Hh1) as (w2 & H2 & F2).
    exists w2. simpl. rewrite (bind_inr _ _ _ _ _ H1).
    split; [exact H2|exact (frame_trans k K _ _ _ F1 F2)].
Qed.

Lemma others_of_NoDup k K (a : Alert) pre post :
  List.NoDup (map fst (pre ++ (k, a) :: post)) ->
  (forall k' b, In (k', b) (pre ++ post) -> lastAlertKey b <> K) ->
  others k K pre /\ others k K post.
Proof.
  intros Hnd Hkeys.
  rewrite map_app in Hnd. simpl in Hnd. apply List.NoDup_remove_2 in Hnd.
  rewrite <- map_app in Hnd.
  assert (H : forall e, In e (pre ++ post) -> fst e <> k /\ lastAlertKey (snd e) <> K).
  { intros [k' b] Hin. simpl. split.
    - intros ->. apply Hnd. change k with (fst (k, b)). now apply in_map.
    - exact (Hkeys k' b Hin). }
  split; apply List.Forall_forall; intros e He; apply H; apply in_or_app; auto.
Qed.

(** C4. A store holds an [active] [cross] alert whose last price is unset or
    not above its target, whose cooldown key is out of cooldown and is shared
    by no other alert of the store.  Price updates for its symbol come
    in non-decreasing order: first one or more below the target, then [pk] at
    or above it, then any more.  Then the run ends normally and
    [alert_triggered] is emitted for this alert exactly once, with
    [triggeredPrice] [pk]: at the first sample at or above the target.  And
    a [cross] alert whose [lastPrice] is unset stays quiet at any sample. *)
Theorem C4_cross_fires_once :
  (forall (symbol k : string) (alert : Alert) (pre post : list (string * Alert))
          (below above : list Z) (pk : Z) (w : World),
     alerts (this w) = (pre ++ (k, alert) :: post)%list ->
     List.NoDup (map fst (alerts (this w))) ->
     type alert = "cross" ->
     status alert = "active" ->
     AlertManager.symbol alert = symbol ->
     (lastPrice alert = None \/ exists l, lastPrice alert = Some l /\ l <= price alert) ->
     freeAt w (lastAlertKey alert) ->
     (forall k' b, In (k', b) (pre ++ post) -> lastAlertKey b <> lastAlertKey alert) ->
     below <> [] ->
     Forall (fun p => p < price alert) below ->
     price alert <= pk ->
     StronglySorted Z.le (below ++ pk :: above) ->
     exists w' evs a2,
       processPriceUpdates symbol (below ++ pk :: above) w = (inr tt, w') /\
       trace w' = (trace w ++ evs)%list /\
       firingsOf k evs = [a2] /\
       triggeredPrice a2 = Some pk /\
       status a2 = "triggered") /\
  (forall (k : string) (p : Z) (alert : Alert) (w : World),
     type alert = "cross" -> lastPrice alert = None -> quiet k p alert w).
Proof.
  split.
  - intros symbol k alert pre post below above pk w
           Hal Hnd Ht Hs Hsym Hlast Hfree Hkeys Hne Hbelow Hpk Hsorted.
    set (K := lastAlertKey alert) in *.
    rewrite Hal in Hnd.
    destruct (others_of_NoDup k K alert pre post Hnd Hkeys) as [Hpre Hpost].
    assert (Hh : holds k K alert w) by (exists pre, post; auto).
    destruct below as [|p0 below]; [contradiction|].
    inversion Hbelow as [|x l' Hp0 Hrest]; subst x l'.
    (* the first sample *)
    destruct (cross_below_step symbol p0 k K alert w Ht Hs Hsym Hlast Hp0 Hh)
      as (w1 & H1 & Hh1 & F1).
    (* the other samples below the target *)
    destruct (run_below symbol k K below (set_lastPrice (Some p0) alert) w1 Ht Hs Hsym)
      as (w2 & a' & H2 & Hh2 & F2 & Ht' & Hs' & Hsym' & Hpr' & Hk' & l & Hl & Hlt);
      [exists p0; split; [reflexivity|exact Hp0]|exact Hrest|exact Hh1|].
    change (price (set_lastPrice (Some p0) alert)) with (price alert) in *.
    change (lastAlertKey (set_lastPrice (Some p0) alert)) with K in *.
    (* the sample that reaches the target *)
    pose proof (frame_trans k K _ _ _ F1 F2) as F12.
    pose proof (freeAt_frame k K w w2 Hfree F12) as Hfree2.
    destruct F12 as (_ & _ & _ & Hlook & e12 & T12 & N12).
    rewrite <- Hk' in Hh2.
    destruct (cross_up_step symbol pk k a' w2 l Ht' Hs' Hsym' Hl) as
      (w3 & a3 & e3 & a2 & H3 & Hh3 & T3 & N3 & Hp3 & Hst3 & Ht3 & Hsym3 & Hpr3 & Hk3 & Hl3 & Hs3);
      [lia|lia|rewrite Hk'; exact Hfree2|exact Hh2|].
    (* the samples after it *)
    assert (Hsorted' : StronglySorted Z.le (pk :: above)).
    { change (p0 :: below ++ pk :: above)%list
        with ((p0 :: below) ++ pk :: above)%list in Hsorted.
      exact (StronglySorted_app_1_r _ _ _ Hsorted). }
    destruct (run_after symbol k (lastAlertKey a') above a3 w3 pk Ht3 Hsym3) as
      (w4 & H4 & (_ & _ & _ & _ & e4 & T4 & N4));
      [destruct Hs3 as [Htr|Hac]; [left; exact Htr|right; repeat split; auto; lia]
      |exact Hsorted'|exact Hh3|].
    exists w4, (e12 ++ e3 ++ e4)%list, a2.
    split; [|split; [|split; [|split]]].
    + change (p0 :: below ++ pk :: above)%list
        with ((p0 :: below) ++ pk :: above)%list.
      assert (H12 : processPriceUpdates symbol (p0 :: below) w = (inr tt, w2)).
      { simpl. now rewrite (bind_inr _ _ _ _ _ H1). }
      rewrite (processPriceUpdates_app symbol _ _ w w2 H12).
      simpl. now rewrite (bind_inr _ _ _ _ _ H3).
    + rewrite T4, T3, T12, <- !app_assoc. reflexivity.
    + rewrite !firingsOf_app, N12, N3, N4. reflexivity.
    + exact Hp3.
    + exact Hst3.
  - intros k p alert w Ht Hl.
    apply (quiet_of_nomatch k p alert w
             (if negb (String.eqb (status alert) "active") then alert
              else set_lastPrice (Some p) alert)).
    unfold checkAlert. rewrite Ht, Hl. simpl.
    destruct (negb _); reflexivity.
Qed.

Lemma C4_cross_fires_once_witness :
  (exists w' evs a2,
     processPriceUpdates "ETHUSDT" ([2900; 2950] ++ 3000 :: [3050; 3100]) cross_world
       = (inr tt, w') /\
     trace w' = (trace cross_world ++ evs)%list /\
     firingsOf "c" evs = [a2] /\
     triggeredPrice a2 = Some 3000 /\
     status a2 = "triggered") /\
  quiet "c" 5000 eth_cross cross_world.
Proof.
  destruct C4_cross_fires_once as [Hrun Hfirst]. split.
  - apply (Hrun "ETHUSDT" "c" eth_cross [("a", eth_above)] [] [2900; 2950] [3050; 3100]
             3000 cross_world).
    + reflexivity.
    + simpl. constructor; [intros [H|[]]; discriminate H|].
      constructor; [intros []|constructor].
    + reflexivity.
    + reflexivity.
    + reflexivity.
    + left. reflexivity.
    + vm_compute. exact I.
    + intros k' b [H|[]]. injection H as _ <-. vm_compute. discriminate.
    + discriminate.
    + repeat constructor; simpl; lia.
    + simpl. lia.
    + repeat constructor; simpl; lia.
  - apply Hfirst; reflexivity.
Defined.

(** ** C3 on a whole price update *)

Lemma Map_get_holds k K a w : holds k K a w -> Map_get k (alerts (this w)) = Some a.
Proof.
  intros (pre & post & Hal & Hpre & _). rewrite Hal. clear Hal.
  induction pre as [|[k0 a0] pre IH]; simpl.
  - now rewrite String.eqb_refl.
  - inversion Hpre as [|e l [Hk _] Hrest]; subst. simpl in Hk.
    destruct (String.eqb_spec k0 k); [contradiction|]. exact (IH Hrest).
Qed.

(** One price update of a store that holds the [active] alert under [k],
    with a cooldown key of its own that is out of cooldown: the alert fires
    if its condition holds and stays [active] if not. *)
Lemma update_at symbol p k alert w :
  holds k (lastAlertKey alert) alert w ->
  status alert = "active" ->
  AlertManager.symbol alert = symbol ->
  freeAt w (lastAlertKey alert) ->
  exists w' evs,
    processPriceUpdate symbol p w = (inr tt, w') /\
    trace w' = (trace w ++ evs)%list /\
    (fst (checkAlert alert p) = true -> firedIn k p alert w' evs) /\
    (fst (checkAlert alert p) = false -> quietIn k w' evs).
Proof.
  intros Hh Hs Hsym Hfree.
  destruct (update_split symbol p k (lastAlertKey alert) alert w Hh) as (w1 & F1 & Hstep).
  rewrite (selects_active symbol alert Hsym Hs) in Hstep.
  destruct (checkAlert alert p) as [b a1] eqn:Hc.
  pose proof (checkAlert_key _ _ _ _ Hc) as Hk1.
  assert (Hr1 : repeat a1 = repeat alert)
    by (destruct (checkAlert_fields _ _ _ _ Hc); subst; reflexivity).
  assert (Hs1 : status a1 = "active")
    by (destruct (checkAlert_fields _ _ _ _ Hc); subst; exact Hs).
  destruct b.
  - assert (Hcool : cooling w1 (lastAlertKey a1) = false).
    { rewrite Hk1. exact (freeAt_cooling _ _ (freeAt_frame k _ w w1 Hfree F1)). }
    pose proof (loopBody_fire k p alert w1 a1 Hc Hcool) as Hfire. cbv zeta in Hfire.
    destruct (Hstep _ _ Hfire) as (w' & Hrun & Hh' & (_ & _ & _ & _ & e3 & T3 & N3)).
    destruct F1 as (_ & _ & _ & _ & e1 & T1 & N1).
    set (a2 := markTriggered (clock w1 (reads w1 + coolReads w1 (lastAlertKey a1))) p a1) in *.
    set (n := mkNotification a2 (formatAlertMessage a2)) in *.
    set (e2 := alert_triggered k a2 :: dispatch n
                 :: sendEvents (logger (this w1)) 0 (notifiers (this w1)) n) in *.
    exists w', (e1 ++ e2 ++ e3)%list.
    split; [exact Hrun|].
    split; [rewrite T3; simpl; rewrite T1, <- !app_assoc; reflexivity|].
    split; [intros _|discriminate].
    exists a2. split; [|split; [reflexivity|split; [reflexivity|split]]].
    + rewrite !firingsOf_app, N1, N3, app_nil_r, app_nil_l. unfold e2.
      rewrite firingsOf_firing by apply firingsOf_sendEvents.
      now rewrite String.eqb_refl.
    + apply in_or_app. right. apply in_or_app. left. right. left. reflexivity.
    + unfold statusOf. rewrite (Map_get_holds _ _ _ _ Hh'). simpl.
      change (repeat a2) with (repeat a1). rewrite Hr1.
      destruct (repeat alert); reflexivity.
  - destruct (Hstep _ _ (loopBody_nomatch k p alert w1 a1 Hc))
      as (w' & Hrun & Hh' & (_ & _ & _ & _ & e3 & T3 & N3)).
    destruct F1 as (_ & _ & _ & _ & e1 & T1 & N1).
    exists w', (e1 ++ e3)%list.
    split; [exact Hrun|].
    split; [rewrite T3, T1, <- app_assoc; reflexivity|].
    split; [discriminate|intros _].
    split; [rewrite firingsOf_app, N1, N3; reflexivity|].
    unfold statusOf. rewrite (Map_get_holds _ _ _ _ Hh'). simpl. now rewrite Hs1.
Qed.

Lemma quietIn_not_firedIn k p alert w' evs :
  quietIn k w' evs -> ~ firedIn k p alert w' evs.
Proof. intros [Hq _] (a2 & Hf & _). rewrite Hq in Hf. discriminate Hf. Qed.

(** ** The history entries of a price update *)

Lemma fire_entry k p alert w a1 :
  checkAlert alert p = (true, a1) ->
  cooling w (lastAlertKey a1) = false ->
  exists alert' w' rec,
    loopBody k p alert w = (inr alert', w') /\
    alertHistory (this w') = pushHistory rec (alertHistory (this w)) /\
    entryFor alert p rec.
Proof.
  intros Hc Hcool.
  pose proof (loopBody_fire k p alert w a1 Hc Hcool) as Hfire. cbv zeta in Hfire.
  do 3 eexists. split; [exact Hfire|]. split; [reflexivity|].
  assert (Ha1 : a1 = set_lastPrice (Some p) alert).
  { unfold checkAlert in Hc. destruct (negb _); now inversion Hc. }
  subst a1. repeat split; discriminate.
Qed.

Lemma loopBody_pushes k p a w a' w' :
  loopBody k p a w = (inr a', w') ->
  alertHistory (this w') = alertHistory (this w) \/
  exists rec,
    alertHistory (this w') = pushHistory rec (alertHistory (this w)) /\
    entryFor a p rec.
Proof.
  intros Hrun.
  destruct (checkAlert a p) as [b a1] eqn:Hc.
  destruct b; [destruct (cooling w (lastAlertKey a1)) eqn:Hcool|].
  - rewrite (loopBody_skip k p a w a1 Hc Hcool) in Hrun.
    injection Hrun as <- <-. now left.
  - destruct (fire_entry k p a w a1 Hc Hcool) as (x & y & rec & Hb & Hh & He).
    rewrite Hb in Hrun. injection Hrun as <- <-. right. eauto.
  - rewrite (loopBody_nomatch k p a w a1 Hc) in Hrun.
    injection Hrun as <- <-. now left.
Qed.

Lemma entryFor_key a p rec : entryFor a p rec -> lastAlertKey rec = lastAlertKey a.
Proof.
  intros ((_ & Hs & Hp & Ht & _) & _). unfold lastAlertKey. now rewrite Hs, Hp, Ht.
Qed.

(** The entries a walk over alerts of other cooldown keys adds to the
    history are not of the key [K]. *)
Lemma forAlerts_pushes K flt p entries : forall w entries' w',
  Forall (fun e => lastAlertKey (snd e) <> K) entries ->
  forAlerts flt p entries w = (inr entries', w') ->
  exists recs,
    alertHistory (this w') = pushAll recs (alertHistory (this w)) /\
    keyed K recs = [].
Proof.
  induction entries as [|[k0 a0] entries IH]; intros w entries' w' Hall Hrun.
  - simpl in Hrun. unfold ret in Hrun. injection Hrun as <- <-.
    exists []. split; reflexivity.
  - apply List.Forall_cons_iff in Hall as [HK Hall]. simpl in HK.
    simpl in Hrun. unfold bind at 1 in Hrun.
    destruct ((if selects flt a0 then loopBody k0 p a0 else ret a0) w)
      as [[e|a'] wa] eqn:Hh; [discriminate|].
    unfold bind at 1 in Hrun.
    destruct (forAlerts flt p entries wa) as [[e|rest'] wb] eqn:Hr; [discriminate|].
    unfold ret in Hrun. injection Hrun as <- <-.
    destruct (IH wa rest' wb Hall Hr) as (recs & Hrecs & Hkeyed).
    assert (Hhead : alertHistory (this wa) = alertHistory (this w) \/
                    exists rec, alertHistory (this wa)
                                = pushHistory rec (alertHistory (this w)) /\
                                entryFor a0 p rec).
    { destruct (selects flt a0).
      - exact (loopBody_pushes k0 p a0 w a' wa Hh).
      - unfold ret in Hh. injection Hh as <- <-. now left. }
    destruct Hhead as [Hsame|(rec & Hpush & He)].
    + exists recs. rewrite Hrecs, Hsame. auto.
    + exists (rec :: recs). rewrite Hrecs, Hpush. split; [reflexivity|].
      unfold keyed in *. simpl. rewrite (entryFor_key a0 p rec He).
      destruct (String.eqb_spec (lastAlertKey a0) K); [contradiction|exact Hkeyed].
Qed.

Lemma others_keys k K entries :
  others k K entries -> Forall (fun e => lastAlertKey (snd e) <> K) entries.
Proof. apply List.Forall_impl. intros e [_ H]. exact H. Qed.

(** The history after one price update of a store that holds the [active]
    alert under [k], with a cooldown key of its own that is out of
    cooldown. *)
Lemma update_entries symbol p k alert w w' :
  holds k (lastAlertKey alert) alert w ->
  status alert = "active" ->
  AlertManager.symbol alert = symbol ->
  freeAt w (lastAlertKey alert) ->
  processPriceUpdate symbol p w = (inr tt, w') ->
  exists recs,
    alertHistory (this w') = pushAll recs (alertHistory (this w)) /\
    (fst (checkAlert alert p) = true ->
       exists rec, keyed (lastAlertKey alert) recs = [rec] /\ entryFor alert p rec) /\
    (fst (checkAlert alert p) = false -> keyed (lastAlertKey alert) recs = []).
Proof.
  intros (pre & post & Hal & Hpre & Hpost) Hs Hsym Hfree Hrun.
  set (K := lastAlertKey alert) in *.
  set (flt := mkFilter (Some symbol) (Some "active") None).
  destruct (forAlerts_others k K flt p pre w Hpre) as (pre' & w1 & H1 & _ & F1).
  destruct (forAlerts_pushes K flt p pre w pre' w1 (others_keys k K pre Hpre) H1)
    as (recs1 & Hh1 & Hk1).
  destruct (loopBody_total k p alert w1) as (a' & w2 & Hmid).
  destruct (forAlerts_others k K flt p post w2 Hpost) as (post' & w3 & H3 & _ & _).
  destruct (forAlerts_pushes K flt p post w2 post' w3 (others_keys k K post Hpost) H3)
    as (recs3 & Hh3 & Hk3).
  assert (Htail : forAlerts flt p ((k, alert) :: post) w1 = (inr ((k, a') :: post'), w3)).
  { apply (forAlerts_cons_selected flt p k alert post w1 a' w2 post' w3);
      [exact (selects_active symbol alert Hsym Hs)|exact Hmid|exact H3]. }
  pose proof (forAlerts_app flt p pre _ w pre' w1 _ w3 H1 Htail) as Hall.
  assert (Hw' : alertHistory (this w') = alertHistory (this w3)).
  { unfold processPriceUpdate in Hrun. unfold bind at 1 in Hrun.
    unfold get_this at 1 in Hrun. rewrite Hal in Hrun. fold flt in Hrun.
    rewrite (bind_inr _ _ _ _ _ Hall) in Hrun.
    unfold bind, get_this, put_this in Hrun. injection Hrun as <-. reflexivity. }
  rewrite Hw', Hh3.
  destruct (checkAlert alert p) as [b a1] eqn:Hc.
  destruct b.
  - assert (Hcool : cooling w1 (lastAlertKey a1) = false).
    { rewrite (checkAlert_key _ _ _ _ Hc).
      exact (freeAt_cooling _ _ (freeAt_frame k _ w w1 Hfree F1)). }
    destruct (fire_entry k p alert w1 a1 Hc Hcool) as (x & y & rec & Hb & Hh & He).
    rewrite Hb in Hmid. injection Hmid as <- <-.
    exists (recs1 ++ [rec] ++ recs3)%list. split; [|split; [intros _|discriminate]].
    + rewrite !pushAll_app, Hh, Hh1. reflexivity.
    + exists rec. split; [|exact He].
      rewrite !keyed_app, Hk1, Hk3, app_nil_r. unfold keyed. simpl.
      fold K. rewrite (entryFor_key alert p rec He). fold K.
      now rewrite String.eqb_refl.
  - rewrite (loopBody_nomatch k p alert w1 a1 Hc) in Hmid. injection Hmid as <- <-.
    exists (recs1 ++ recs3)%list. split; [|split; [discriminate|intros _]].
    + rewrite pushAll_app, Hh1. reflexivity.
    + now rewrite keyed_app, Hk1, Hk3.
Qed.

(** C3. For an [active] alert whose cooldown key is not in cooldown when the
    loop of [processPriceUpdate] reaches it, the iteration fires exactly when
    the observed price is at or above the target for type [above], at or
    below it for type [below], and it then adds the alert's entry at the end
    of the history (dropping the oldest beyond 100); otherwise the iteration
    stays quiet and leaves the manager, history included, as it was.  So,
    for a store whose other alerts have other cooldown keys and an alert of
    the update's symbol whose key is out of cooldown, the price update fires
    the alert exactly under that condition and otherwise leaves it [active];
    the history afterwards is the one before with the entries of the update
    added at its end, of which exactly one is the alert's when it fires and
    none has its cooldown key when it does not. *)
Theorem C3_above_below_condition :
  (forall (k : string) (p : Z) (alert : Alert) (w : World),
     status alert = "active" ->
     cooling w (lastAlertKey alert) = false ->
     (type alert = "above" ->
        (fires k p alert w <-> price alert <= p) /\
        (price alert <= p -> appendsEntry k p alert w) /\
        (p < price alert -> quiet k p alert w)) /\
     (type alert = "below" ->
        (fires k p alert w <-> p <= price alert) /\
        (p <= price alert -> appendsEntry k p alert w) /\
        (price alert < p -> quiet k p alert w))) /\
  (forall (symbol k : string) (p : Z) (alert : Alert)
          (pre post : list (string * Alert)) (w : World),
     alerts (this w) = (pre ++ (k, alert) :: post)%list ->
     List.NoDup (map fst (alerts (this w))) ->
     (forall k' b, In (k', b) (pre ++ post) -> lastAlertKey b <> lastAlertKey alert) ->
     status alert = "active" ->
     AlertManager.symbol alert = symbol ->
     freeAt w (lastAlertKey alert) ->
     exists w' evs recs,
       processPriceUpdate symbol p w = (inr tt, w') /\
       trace w' = (trace w ++ evs)%list /\
       alertHistory (this w') = appended recs (alertHistory (this w)) /\
       (type alert = "above" ->
          (firedIn k p alert w' evs <-> price alert <= p) /\
          (price alert <= p ->
             exists rec, keyed (lastAlertKey alert) recs = [rec] /\
                         entryFor alert p rec) /\
          (p < price alert ->
             quietIn k w' evs /\ keyed (lastAlertKey alert) recs = [])) /\
       (type alert = "below" ->
          (firedIn k p alert w' evs <-> p <= price alert) /\
          (p <= price alert ->
             exists rec, keyed (lastAlertKey alert) recs = [rec] /\
                         entryFor alert p rec) /\
          (price alert < p ->
             quietIn k w' evs /\ keyed (lastAlertKey alert) recs = []))).
Proof.
  split.
  - intros k p alert w Hs Hcool.
    assert (Hentry : forall b, checkAlert alert p = (b, set_lastPrice (Some p) alert) ->
                       b = true -> appendsEntry k p alert w).
    { intros b Hc ->.
      destruct (fire_entry k p alert w _ Hc Hcool) as (x & y & rec & Hb & Hh & He).
      exists x, y, rec. split; [exact Hb|]. split; [|exact He].
      rewrite Hh. apply pushHistory_appended. }
    split; intros Ht.
    + pose proof (checkAlert_above alert p Hs Ht) as Hc.
      destruct (Z.leb_spec (price alert) p) as [Hle|Hlt].
      * split; [|split; [intros _; exact (Hentry _ Hc eq_refl)|lia]].
        split; [intros _; exact Hle|]. intros _.
        apply (fires_of_match k p alert w _ Hc). exact Hcool.
      * pose proof (quiet_of_nomatch k p alert w _ Hc) as Hq.
        split; [|split; [lia|intros _; exact Hq]]. split; [|lia].
        intros Hf. exfalso. exact (quiet_not_fires _ _ _ _ Hq Hf).
    + pose proof (checkAlert_below alert p Hs Ht) as Hc.
      destruct (Z.leb_spec p (price alert)) as [Hle|Hlt].
      * split; [|split; [intros _; exact (Hentry _ Hc eq_refl)|lia]].
        split; [intros _; exact Hle|]. intros _.
        apply (fires_of_match k p alert w _ Hc). exact Hcool.
      * pose proof (quiet_of_nomatch k p alert w _ Hc) as Hq.
        split; [|split; [lia|intros _; exact Hq]]. split; [|lia].
        intros Hf. exfalso. exact (quiet_not_fires _ _ _ _ Hq Hf).
  - intros symbol k p alert pre post w Hal Hnd Hkeys Hs Hsym Hfree.
    rewrite Hal in Hnd.
    destruct (others_of_NoDup k (lastAlertKey alert) alert pre post Hnd Hkeys)
      as [Hpre Hpost].
    assert (Hh : holds k (lastAlertKey alert) alert w) by (exists pre, post; auto).
    destruct (update_at symbol p k alert w Hh Hs Hsym Hfree)
      as (w' & evs & Hrun & Htr & Hhit & Hmiss).
    destruct (update_entries symbol p k alert w w' Hh Hs Hsym Hfree Hrun)
      as (recs & Hhist & Hrec & Hnone).
    exists w', evs, recs. split; [exact Hrun|]. split; [exact Htr|].
    split; [rewrite Hhist; apply pushAll_appended|].
    split; intros Ht.
    + rewrite (checkAlert_above alert p Hs Ht) in Hhit, Hmiss, Hrec, Hnone.
      simpl in Hhit, Hmiss, Hrec, Hnone.
      destruct (Z.leb_spec (price alert) p) as [Hle|Hlt].
      * split; [|split; [intros _; exact (Hrec eq_refl)|lia]].
        split; [intros _; exact Hle|intros _; exact (Hhit eq_refl)].
      * split; [|split; [lia|intros _; split; [exact (Hmiss eq_refl)|exact (Hnone eq_refl)]]].
        split; [|lia].
        intros Hf. exfalso. exact (quietIn_not_firedIn _ _ _ _ _ (Hmiss eq_refl) Hf).
    + rewrite (checkAlert_below alert p Hs Ht) in Hhit, Hmiss, Hrec, Hnone.
      simpl in Hhit, Hmiss, Hrec, Hnone.
      destruct (Z.leb_spec p (price alert)) as [Hle|Hlt].
      * split; [|split; [intros _; exact (Hrec eq_refl)|lia]].
        split; [intros _; exact Hle|intros _; exact (Hhit eq_refl)].
      * split; [|split; [lia|intros _; split; [exact (Hmiss eq_refl)|exact (Hnone eq_refl)]]].
        split; [|lia].
        intros Hf. exfalso. exact (quietIn_not_firedIn _ _ _ _ _ (Hmiss eq_refl) Hf).
Qed.

Lemma C3_above_below_condition_witness :
  (fires "a" 3000 eth_above failing_world /\
   appendsEntry "a" 3000 eth_above failing_world /\
   quiet "a" 2999 eth_above failing_world /\
   fires "b" 3000 eth_below failing_world /\
   quiet "b" 3001 eth_below failing_world) /\
  exists w' evs recs,
    processPriceUpdate "ETHUSDT" 3000 cross_world = (inr tt, w') /\
    trace w' = (trace cross_world ++ evs)%list /\
    alertHistory (this w') = appended recs (alertHistory (this cross_world)) /\
    firedIn "a" 3000 eth_above w' evs /\
    exists rec, keyed (lastAlertKey eth_above) recs = [rec] /\
                entryFor eth_above 3000 rec.
Proof.
  destruct C3_above_below_condition as [Hbody Hupdate]. split.
  - destruct (Hbody "a" 3000 eth_above failing_world eq_refl eq_refl) as [[Ha [Ha' _]] _];
      [reflexivity|].
    destruct (Hbody "a" 2999 eth_above failing_world eq_refl eq_refl) as [[_ [_ Hb]] _];
      [reflexivity|].
    destruct (Hbody "b" 3000 eth_below failing_world eq_refl eq_refl) as [_ [Hc _]];
      [reflexivity|].
    destruct (Hbody "b" 3001 eth_below failing_world eq_refl eq_refl) as [_ [_ [_ Hd]]];
      [reflexivity|].
    split; [apply Ha; simpl; lia|].
    split; [apply Ha'; simpl; lia|].
    split; [apply Hb; simpl; lia|].
    split; [apply Hc; simpl; lia|].
    apply Hd; simpl; lia.
  - destruct (Hupdate "ETHUSDT" "a" 3000 eth_above [] [("c", eth_cross)] cross_world)
      as (w' & evs & recs & Hrun & Htr & Hhist & Habove & _).
    + reflexivity.
    + simpl. constructor; [intros [H|[]]; discriminate H|].
      constructor; [intros []|constructor].
    + intros k' b [H|[]]. injection H as _ <-. vm_compute. discriminate.
    + reflexivity.
    + reflexivity.
    + vm_compute. exact I.
    + exists w', evs, recs. split; [exact Hrun|]. split; [exact Htr|].
      split; [exact Hhist|].
      destruct (Habove eq_refl) as (Hiff & Hrec & _).
      split; [apply Hiff; simpl; lia|apply Hrec; simpl; lia].
Defined.

(** * Further properties of the alert manager *)

(** ** What a price update changes *)

Lemma sameAlert_refl a : sameAlert a a.
Proof. repeat split. Qed.

Lemma sameAlert_trans a b c : sameAlert a b -> sameAlert b c -> sameAlert a c.
Proof.
  intros (A1 & A2 & A3 & A4 & A5 & A6) (B1 & B2 & B3 & B4 & B5 & B6).
  repeat split; congruence.
Qed.

(** What one iteration of the loop leaves as it was, and what it emits. *)
Lemma loopBody_outcome k p a w a' w' :
  loopBody k p a w = (inr a', w') ->
  sameAlert a a' /\
  (status a = "active" -> lastPrice a' = Some p) /\
  (status a <> "active" -> a' = a /\ w' = w) /\
  (logger (this w') = logger (this w) /\ notifiers (this w') = notifiers (this w) /\
   maxAlerts (this w') = maxAlerts (this w) /\ cooldown (this w') = cooldown (this w) /\
   alerts (this w') = alerts (this w) /\ clock w' = clock w) /\
  exists evs,
    trace w' = (trace w ++ evs)%list /\
    (forall k', k' <> k -> firingsOf k' evs = []).
Proof.
  intros Hrun.
  destruct (checkAlert a p) as [b a1] eqn:Hc.
  assert (Ha1 : (status a = "active" /\ a1 = set_lastPrice (Some p) a) \/
                (status a <> "active" /\ a1 = a /\ b = false)).
  { unfold checkAlert in Hc.
    destruct (String.eqb_spec (status a) "active") as [Hact|Hna]; simpl in Hc.
    - left. split; [exact Hact|]. now inversion Hc.
    - right. split; [exact Hna|]. now inversion Hc. }
  assert (Hsame : sameAlert a a1).
  { destruct Ha1 as [[_ ->]|[_ [-> _]]]; repeat split. }
  assert (Hlp : status a = "active" -> lastPrice a1 = Some p).
  { intros Hact. destruct Ha1 as [[_ ->]|[Hna _]]; [reflexivity|contradiction]. }
  destruct b; [destruct (cooling w (lastAlertKey a1)) eqn:Hcool|].
  - rewrite (loopBody_skip k p a w a1 Hc Hcool) in Hrun.
    injection Hrun as <- <-.
    split; [exact Hsame|]. split; [exact Hlp|]. split.
    { intros Hna. destruct Ha1 as [[Hact _]|[_ [_ Hb]]]; [contradiction|discriminate]. }
    split; [repeat split|].
    exists []. simpl. rewrite app_nil_r. auto.
  - rewrite (loopBody_fire k p a w a1 Hc Hcool) in Hrun.
    injection Hrun as <- <-.
    split.
    { apply (sameAlert_trans _ _ _ Hsame).
      destruct (repeat a1); repeat split. }
    split.
    { intros Hact. specialize (Hlp Hact).
      destruct (repeat a1); exact Hlp. }
    split.
    { intros Hna. destruct Ha1 as [[Hact _]|[_ [_ Hb]]]; [contradiction|discriminate]. }
    split; [repeat split|].
    eexists. split; [reflexivity|].
    intros k' Hk'. rewrite firingsOf_firing by apply firingsOf_sendEvents.
    destruct (String.eqb_spec k k'); [congruence|reflexivity].
  - rewrite (loopBody_nomatch k p a w a1 Hc) in Hrun.
    injection Hrun as <- <-.
    split; [exact Hsame|]. split; [exact Hlp|]. split.
    { intros Hna. destruct Ha1 as [[Hact _]|[_ [-> _]]]; [contradiction|auto]. }
    split; [repeat split|].
    exists []. rewrite app_nil_r. auto.
Qed.

Lemma forAlerts_frame flt p entries : forall w,
  exists entries' w' evs,
    forAlerts flt p entries w = (inr entries', w') /\
    trace w' = (trace w ++ evs)%list /\
    Forall2 (updated flt p) entries entries' /\
    (forall k, (forall a, In (k, a) entries -> selects flt a = false) ->
       firingsOf k evs = []) /\
    (logger (this w') = logger (this w) /\ notifiers (this w') = notifiers (this w) /\
     maxAlerts (this w') = maxAlerts (this w) /\ cooldown (this w') = cooldown (this w) /\
     alerts (this w') = alerts (this w) /\ clock w' = clock w).
Proof.
  induction entries as [|[k0 a0] entries IH]; intros w.
  - exists [], w, []. rewrite app_nil_r. simpl. unfold ret.
    split; [reflexivity|]. split; [reflexivity|]. split; [constructor|].
    split; [reflexivity|]. repeat split.
  - destruct (selects flt a0) eqn:Hs.
    + destruct (loopBody_total k0 p a0 w) as (a' & w1 & Hb).
      destruct (loopBody_outcome k0 p a0 w a' w1 Hb)
        as (Hsame & Hlp & _ & (C1 & C2 & C3 & C4 & C5 & C6) & e1 & T1 & N1).
      destruct (IH w1) as (rest' & w2 & e2 & Hr & T2 & HF & N2 & (D1 & D2 & D3 & D4 & D5 & D6)).
      exists ((k0, a') :: rest'), w2, (e1 ++ e2)%list.
      split; [exact (forAlerts_cons_selected flt p k0 a0 entries w a' w1 rest' w2 Hs Hb Hr)|].
      split; [rewrite T2, T1, app_assoc; reflexivity|].
      split.
      { constructor; [|exact HF]. unfold updated. simpl.
        split; [reflexivity|]. split; [exact Hsame|].
        split; [rewrite Hs; discriminate|]. intros _ Hact. exact (Hlp Hact). }
      split.
      { intros k Hk. rewrite firingsOf_app.
        assert (Hne : k <> k0).
        { intros ->. specialize (Hk a0 (or_introl eq_refl)). congruence. }
        rewrite (N1 k Hne), N2; [reflexivity|].
        intros a Ha. apply Hk. right. exact Ha. }
      repeat split; congruence.
    + destruct (IH w) as (rest' & w2 & e2 & Hr & T2 & HF & N2 & D).
      exists ((k0, a0) :: rest'), w2, e2.
      split; [exact (forAlerts_cons_unselected flt p k0 a0 entries w rest' w2 Hs Hr)|].
      split; [exact T2|]. split.
      { constructor; [|exact HF]. unfold updated. simpl.
        split; [reflexivity|]. split; [apply sameAlert_refl|].
        split; [reflexivity|]. rewrite Hs. discriminate. }
      split; [|exact D].
      intros k Hk. apply N2. intros a Ha. apply Hk. right. exact Ha.
Qed.

(** The store after a price update, entry by entry. *)
Lemma processPriceUpdate_store (symbol : string) (p : Z) (w : World) :
  exists w',
    processPriceUpdate symbol p w = (inr tt, w') /\
    Forall2 (updated (mkFilter (Some symbol) (Some "active") None) p)
      (alerts (this w)) (alerts (this w')) /\
    maxAlerts (this w') = maxAlerts (this w) /\
    cooldown (this w') = cooldown (this w).
Proof.
  destruct (forAlerts_frame (mkFilter (Some symbol) (Some "active") None) p
              (alerts (this w)) w)
    as (entries' & w1 & evs & H & _ & HF & _ & (_ & _ & C3 & C4 & _)).
  eexists. split.
  - unfold processPriceUpdate. unfold bind at 1. unfold get_this at 1.
    rewrite (bind_inr _ _ _ _ _ H). reflexivity.
  - simpl. auto.
Qed.

(** X1. A price update never adds, removes or reorders alerts and never
    changes the fields given at creation.  An alert the filter does not
    select (another symbol, or a status other than [active]) is left exactly
    as it was, and no [alert_triggered] is emitted under a key none of whose
    alerts is selected; a selected alert has the observed price as
    [lastPrice] afterwards, whether it fired or not.  The notifiers and the
    configuration are untouched. *)
Theorem X1_price_update_frame (symbol : string) (p : Z) (w : World) :
  let flt := mkFilter (Some symbol) (Some "active") None in
  exists w' evs,
    processPriceUpdate symbol p w = (inr tt, w') /\
    trace w' = (trace w ++ evs)%list /\
    Forall2 (updated flt p) (alerts (this w)) (alerts (this w')) /\
    (forall k, (forall a, In (k, a) (alerts (this w)) -> selects flt a = false) ->
       firingsOf k evs = []) /\
    notifiers (this w') = notifiers (this w) /\
    maxAlerts (this w') = maxAlerts (this w) /\
    cooldown (this w') = cooldown (this w).
Proof.
  intros flt.
  destruct (forAlerts_frame flt p (alerts (this w)) w)
    as (entries' & w1 & evs & H & T & HF & N & (C1 & C2 & C3 & C4 & C5 & C6)).
  eexists. exists evs. split.
  - unfold processPriceUpdate. unfold bind at 1. unfold get_this at 1.
    fold flt. rewrite (bind_inr _ _ _ _ _ H). reflexivity.
  - simpl. repeat split; auto; congruence.
Qed.

(** ** A price update with the empty symbol *)

Lemma selects_empty_symbol a :
  selects (mkFilter (Some "") (Some "active") None) a = true <-> status a = "active".
Proof.
  unfold selects, passes. simpl. rewrite andb_true_r.
  split; intros H.
  - now apply String.eqb_eq.
  - now apply String.eqb_eq.
Qed.

(** One price update of a store that holds an alert the filter selects,
    with a cooldown key of its own that is out of cooldown. *)
Lemma update_at_selected symbol p k alert w :
  holds k (lastAlertKey alert) alert w ->
  status alert = "active" ->
  selects (mkFilter (Some symbol) (Some "active") None) alert = true ->
  freeAt w (lastAlertKey alert) ->
  exists w' evs,
    processPriceUpdate symbol p w = (inr tt, w') /\
    trace w' = (trace w ++ evs)%list /\
    (fst (checkAlert alert p) = true -> firedIn k p alert w' evs) /\
    (fst (checkAlert alert p) = false -> quietIn k w' evs).
Proof.
  intros Hh Hs Hsel Hfree.
  destruct (update_split symbol p k (lastAlertKey alert) alert w Hh) as (w1 & F1 & Hstep).
  rewrite Hsel in Hstep.
  destruct (checkAlert alert p) as [b a1] eqn:Hc.
  pose proof (checkAlert_key _ _ _ _ Hc) as Hk1.
  assert (Hr1 : repeat a1 = repeat alert)
    by (destruct (checkAlert_fields _ _ _ _ Hc); subst; reflexivity).
  assert (Hs1 : status a1 = "active")
    by (destruct (checkAlert_fields _ _ _ _ Hc); subst; exact Hs).
  destruct b.
  - assert (Hcool : cooling w1 (lastAlertKey a1) = false).
    { rewrite Hk1. exact (freeAt_cooling _ _ (freeAt_frame k _ w w1 Hfree F1)). }
    pose proof (loopBody_fire k p alert w1 a1 Hc Hcool) as Hfire. cbv zeta in Hfire.
    destruct (Hstep _ _ Hfire) as (w' & Hrun & Hh' & (_ & _ & _ & _ & e3 & T3 & N3)).
    destruct F1 as (_ & _ & _ & _ & e1 & T1 & N1).
    set (a2 := markTriggered (clock w1 (reads w1 + coolReads w1 (lastAlertKey a1))) p a1) in *.
    set (n := mkNotification a2 (formatAlertMessage a2)) in *.
    set (e2 := alert_triggered k a2 :: dispatch n
                 :: sendEvents (logger (this w1)) 0 (notifiers (this w1)) n) in *.
    exists w', (e1 ++ e2 ++ e3)%list.
    split; [exact Hrun|].
    split; [rewrite T3; simpl; rewrite T1, <- !app_assoc; reflexivity|].
    split; [intros _|discriminate].
    exists a2. split; [|split; [reflexivity|split; [reflexivity|split]]].
    + rewrite !firingsOf_app, N1, N3, app_nil_r, app_nil_l. unfold e2.
      rewrite firingsOf_firing by apply firingsOf_sendEvents.
      now rewrite String.eqb_refl.
    + apply in_or_app. right. apply in_or_app. left. right. left. reflexivity.
    + unfold statusOf. rewrite (Map_get_holds _ _ _ _ Hh'). simpl.
      change (repeat a2) with (repeat a1). rewrite Hr1.
      destruct (repeat alert); reflexivity.
  - destruct (Hstep _ _ (loopBody_nomatch k p alert w1 a1 Hc))
      as (w' & Hrun & Hh' & (_ & _ & _ & _ & e3 & T3 & N3)).
    destruct F1 as (_ & _ & _ & _ & e1 & T1 & N1).
    exists w', (e1 ++ e3)%list.
    split; [exact Hrun|].
    split; [rewrite T3, T1, <- app_assoc; reflexivity|].
    split; [discriminate|intros _].
    split; [rewrite firingsOf_app, N1, N3; reflexivity|].
    unfold statusOf. rewrite (Map_get_holds _ _ _ _ Hh'). simpl. now rewrite Hs1.
Qed.

(** X2. A price update whose symbol is the empty string applies no symbol
    filter ([if (filter.symbol)] is false for it): it evaluates the active
    alerts of every symbol.  The update returns, every alert of the store
    that was active, whatever its symbol, has the given price as its
    [lastPrice] afterwards, and every alert that was not active is left as
    it was.  An active alert of any symbol, with a cooldown key of its own
    that is out of cooldown, fires on such an update if its condition holds
    at the given price, and is evaluated and left [active] if not. *)
Theorem X2_empty_symbol_update (p : Z) (w : World) :
  (exists w',
     processPriceUpdate "" p w = (inr tt, w') /\
     Forall2
       (fun e e' =>
          fst e' = fst e /\
          sameAlert (snd e) (snd e') /\
          (status (snd e) = "active" -> lastPrice (snd e') = Some p) /\
          (status (snd e) <> "active" -> snd e' = snd e))
       (alerts (this w)) (alerts (this w'))) /\
  (forall (k : string) (alert : Alert) (pre post : list (string * Alert)),
     alerts (this w) = (pre ++ (k, alert) :: post)%list ->
     List.NoDup (map fst (alerts (this w))) ->
     (forall k' b, In (k', b) (pre ++ post) -> lastAlertKey b <> lastAlertKey alert) ->
     status alert = "active" ->
     freeAt w (lastAlertKey alert) ->
     exists w' evs,
       processPriceUpdate "" p w = (inr tt, w') /\
       trace w' = (trace w ++ evs)%list /\
       (fst (checkAlert alert p) = true -> firedIn k p alert w' evs) /\
       (fst (checkAlert alert p) = false -> quietIn k w' evs)).
Proof.
  split.
  - destruct (processPriceUpdate_store "" p w) as (w' & Hrun & HF & _).
    exists w'. split; [exact Hrun|].
    eapply Forall2_impl; [exact HF|].
    intros e e' (Hk & Hsame & Hout & Hin).
    split; [exact Hk|]. split; [exact Hsame|]. split.
    + intros Hs. apply Hin; [|exact Hs]. now apply selects_empty_symbol.
    + intros Hs. apply Hout.
      destruct (selects (mkFilter (Some "") (Some "active") None) (snd e)) eqn:Hsel;
        [|reflexivity].
      exfalso. apply Hs. now apply selects_empty_symbol.
  - intros k alert pre post Hal Hnd Hkeys Hs Hfree.
    rewrite Hal in Hnd.
    destruct (others_of_NoDup k (lastAlertKey alert) alert pre post Hnd Hkeys)
      as [Hpre Hpost].
    assert (Hh : holds k (lastAlertKey alert) alert w) by (exists pre, post; auto).
    apply (update_at_selected "" p k alert w Hh Hs); [|exact Hfree].
    now apply selects_empty_symbol.
Qed.

Lemma X2_empty_symbol_update_witness :
  (exists w',
     processPriceUpdate "" 200 sol_world = (inr tt, w') /\
     map (fun e => (fst e, lastPrice (snd e))) (alerts (this w')) =
       [("a", Some 200); ("s", Some 200)]) /\
  exists w' evs,
    processPriceUpdate "" 200 sol_world = (inr tt, w') /\
    trace w' = (trace sol_world ++ evs)%list /\
    firedIn "s" 200 sol_above w' evs.
Proof.
  destruct (X2_empty_symbol_update 200 sol_world) as [(w1 & Hrun1 & HF) Hone].
  split.
  - exists w1. split; [exact Hrun1|].
    change (alerts (this sol_world)) with [("a", eth_above); ("s", sol_above)] in HF.
    apply Forall2_cons_inv_l in HF as (e1 & l1 & (K1 & _ & P1 & _) & HF & ->).
    apply Forall2_cons_inv_l in HF as (e2 & l2 & (K2 & _ & P2 & _) & HF & ->).
    apply Forall2_nil_inv_l in HF as ->.
    simpl in *. rewrite K1, K2, (P1 eq_refl), (P2 eq_refl). reflexivity.
  - destruct (Hone "s" sol_above [("a", eth_above)] [])
      as (w' & evs & Hrun & Htr & Hhit & _).
    + reflexivity.
    + simpl. constructor; [intros [H|[]]; discriminate H|].
      constructor; [intros []|constructor].
    + intros k' b [H|[]]. injection H as _ <-. vm_compute. discriminate.
    + reflexivity.
    + vm_compute. exact I.
    + exists w', evs. split; [exact Hrun|]. split; [exact Htr|].
      apply Hhit. reflexivity.
Defined.

(** ** clearTriggered *)

Lemma fold_delete_filter (l : list Alert) : forall m,
  fold_left (fun m alert => Map_delete (id alert) m) l m =
  List.filter (fun e => negb (existsb (fun a => String.eqb (id a) (fst e)) l)) m.
Proof.
  induction l as [|a l IH]; intros m; simpl.
  - now rewrite List.filter_true.
  - rewrite IH. unfold Map_delete. rewrite filter_filter.
    apply List.filter_ext. intros e.
    rewrite negb_orb. now rewrite (String.eqb_sym (fst e) (id a)).
Qed.

Lemma getAlerts_status s t :
  s <> "" ->
  getAlerts (mkFilter None (Some s) None) t =
  map snd (List.filter (fun e => String.eqb (status (snd e)) s) (alerts t)).
Proof.
  intros Hs. unfold getAlerts. rewrite getEntries_selects. f_equal.
  apply List.filter_ext. intros e. unfold selects, passes. simpl.
  unfold truthy_string. destruct (String.eqb_spec s ""); [contradiction|].
  simpl. now rewrite andb_true_r.
Qed.

Lemma filter_split_length {A} (f : A -> bool) l :
  (length (List.filter f l) + length (List.filter (fun x => negb (f x)) l))%nat = length l.
Proof.
  induction l as [|x l IH]; simpl; [reflexivity|].
  destruct (f x); simpl; lia.
Qed.

Lemma filter_none {A} (l : list A) : List.filter (fun _ => false) l = [].
Proof. induction l; simpl; auto. Qed.

Lemma NoDup_keys_eq (l : list (string * Alert)) e e' :
  List.NoDup (map fst l) -> In e l -> In e' l -> fst e = fst e' -> e = e'.
Proof.
  induction l as [|x l IH]; simpl; intros Hnd He He' Hk; [destruct He|].
  inversion Hnd as [|y l' Hnot Hnd']; subst.
  destruct He as [->|He], He' as [->|He']; [reflexivity| | |now apply IH].
  - exfalso. apply Hnot. rewrite Hk. now apply in_map.
  - exfalso. apply Hnot. rewrite <- Hk. now apply in_map.
Qed.

(** In a store in which every alert is stored under its id, the keys that
    are ids of triggered alerts are the keys of the triggered alerts. *)
Lemma wellKeyed_triggered_keys t e :
  wellKeyed t -> In e (alerts t) ->
  existsb (fun a => String.eqb (id a) (fst e))
    (map snd (List.filter (fun e => String.eqb (status (snd e)) "triggered") (alerts t)))
  = String.eqb (status (snd e)) "triggered".
Proof.
  intros [Hnd Hid] He.
  destruct (String.eqb (status (snd e)) "triggered") eqn:Hst.
  - apply List.existsb_exists. exists (snd e). split.
    + apply in_map. apply List.filter_In. auto.
    + rewrite List.Forall_forall in Hid. rewrite (Hid e He). apply String.eqb_refl.
  - destruct (existsb _ _) eqn:Hex; [|reflexivity].
    apply List.existsb_exists in Hex. destruct Hex as (b & Hb & Hbk).
    apply List.in_map_iff in Hb. destruct Hb as (e' & <- & He').
    apply List.filter_In in He'. destruct He' as [He' Hst'].
    apply String.eqb_eq in Hbk.
    rewrite List.Forall_forall in Hid. rewrite (Hid e' He') in Hbk.
    rewrite (NoDup_keys_eq _ e' e Hnd He' He Hbk) in Hst'. congruence.
Qed.

(** X3. [clearTriggered] returns the number of alerts whose status is
    [triggered] and deletes the keys that are the [id] of one of them; it
    emits nothing (no [alert_removed]) and leaves history and trigger times
    as they are.  In a store in which every alert is stored under its own
    id, exactly the triggered alerts are removed: the others stay in order,
    none is [triggered] afterwards, and the store shrinks by the returned
    number.  An alert stored under a key that is not the id of a triggered
    alert stays, even if it is itself triggered and counted. *)
Theorem X3_clearTriggered (w : World) :
  let triggered := getAlerts (mkFilter None (Some "triggered") None) (this w) in
  exists w',
    clearTriggered w = (inr (Z.of_nat (length triggered)), w') /\
    trace w' = trace w /\
    alertHistory (this w') = alertHistory (this w) /\
    lastAlertTimes (this w') = lastAlertTimes (this w) /\
    (forall k a, In (k, a) (alerts (this w)) ->
       (forall b, In b triggered -> id b <> k) -> In (k, a) (alerts (this w'))) /\
    (wellKeyed (this w) ->
       alerts (this w') =
         List.filter (fun e => negb (String.eqb (status (snd e)) "triggered"))
           (alerts (this w)) /\
       getAlerts (mkFilter None (Some "triggered") None) (this w') = [] /\
       Map_size (alerts (this w)) =
         Map_size (alerts (this w')) + Z.of_nat (length triggered)).
Proof.
  intros triggered. destruct w as [t c r tr].
  unfold clearTriggered, bind, get_this, put_this, ret. simpl in *.
  eexists. split; [reflexivity|]. simpl.
  split; [reflexivity|]. split; [reflexivity|]. split; [reflexivity|].
  fold triggered. rewrite fold_delete_filter. split.
  - intros k a Hin Hids. apply List.filter_In. split; [exact Hin|]. simpl.
    destruct (existsb _ triggered) eqn:Hex; [|reflexivity].
    apply List.existsb_exists in Hex. destruct Hex as (b & Hb & Hbk).
    apply String.eqb_eq in Hbk. exfalso. exact (Hids b Hb Hbk).
  - intros Hwk.
    assert (Htr : triggered =
              map snd (List.filter (fun e => String.eqb (status (snd e)) "triggered")
                         (alerts t))).
    { unfold triggered. apply getAlerts_status. discriminate. }
    assert (Hfilter :
      List.filter (fun e => negb (existsb (fun a => String.eqb (id a) (fst e)) triggered))
        (alerts t) =
      List.filter (fun e => negb (String.eqb (status (snd e)) "triggered")) (alerts t)).
    { apply List.filter_ext_in. intros e He. f_equal. rewrite Htr.
      exact (wellKeyed_triggered_keys t e Hwk He). }
    rewrite Hfilter. split; [reflexivity|]. split.
    + rewrite getAlerts_status by discriminate. simpl.
      rewrite filter_filter.
      rewrite (List.filter_ext _ (fun _ => false)); [|intros e; apply andb_negb_l].
      now rewrite filter_none.
    + rewrite Htr, length_map. unfold Map_size.
      rewrite <- (filter_split_length (fun e => String.eqb (status (snd e)) "triggered")
                    (alerts t)) at 1.
      lia.
Qed.

Lemma mixed_world_wellKeyed : wellKeyed (this mixed_world).
Proof.
  split; simpl.
  - constructor; [intros [H|[H|[]]]; discriminate H|].
    constructor; [intros [H|[]]; discriminate H|].
    constructor; [intros []|constructor].
  - repeat constructor.
Qed.

Lemma X3_clearTriggered_witness :
  exists w',
    clearTriggered mixed_world = (inr 1, w') /\
    alerts (this w') = [("a", eth_above); ("c", eth_cross)] /\
    In ("a", eth_above) (alerts (this w')).
Proof.
  destruct (X3_clearTriggered mixed_world) as (w' & Hrun & _ & _ & _ & Hstay & Hwk).
  destruct (Hwk mixed_world_wellKeyed) as (Hal & _ & _).
  exists w'. split; [exact Hrun|]. split; [rewrite Hal; reflexivity|].
  apply Hstay; [simpl; auto|].
  intros b [<-|[]]. discriminate.
Defined.

(** ** Every alert under its own id *)

Lemma NoDup_snoc {A} (l : list A) x : List.NoDup l -> ~ In x l -> List.NoDup (l ++ [x]).
Proof.
  induction l as [|y l IH]; simpl; intros Hnd Hx.
  - constructor; [intros []|constructor].
  - inversion Hnd as [|z l' Hy Hnd']; subst. constructor.
    + intros Hin. apply in_app_or in Hin. destruct Hin as [Hin|[->|[]]]; tauto.
    + apply IH; tauto.
Qed.

Lemma Map_set_keys k v m :
  (In k (map fst m) -> map fst (Map_set k v m) = map fst m) /\
  (~ In k (map fst m) -> map fst (Map_set k v m) = (map fst m ++ [k])%list).
Proof.
  induction m as [|[k' v'] m [IH1 IH2]]; simpl.
  - split; [intros []|reflexivity].
  - destruct (String.eqb_spec k' k) as [->|Hne]; simpl.
    + split; [reflexivity|]. intros H. exfalso. apply H. now left.
    + split.
      * intros [H|H]; [contradiction|]. now rewrite IH1.
      * intros H. rewrite IH2; [reflexivity|]. tauto.
Qed.

Lemma Map_set_NoDup k v m :
  List.NoDup (map fst m) -> List.NoDup (map fst (Map_set k v m)).
Proof.
  intros Hnd. destruct (Map_set_keys k v m) as [H1 H2].
  destruct (List.in_dec String.string_dec k (map fst m)) as [Hin|Hnin].
  - now rewrite H1.
  - rewrite H2 by exact Hnin. now apply NoDup_snoc.
Qed.

Lemma Map_set_Forall (P : string * Alert -> Prop) k v m :
  P (k, v) -> List.Forall P m -> List.Forall P (Map_set k v m).
Proof.
  intros Hk. induction 1 as [|[k' v'] m Hx Hm IH]; simpl.
  - constructor; [exact Hk|constructor].
  - destruct (String.eqb k' k); constructor; auto.
Qed.

Lemma filter_wellKeyed f t :
  wellKeyed t -> wellKeyed (set_alerts (List.filter f (alerts t)) t).
Proof.
  intros [Hnd Hid]. split; simpl.
  - clear Hid. induction (alerts t) as [|e l IH]; simpl; [constructor|].
    inversion Hnd as [|x l' Hx Hnd']; subst.
    destruct (f e); simpl; [|now apply IH].
    constructor; [|now apply IH].
    intros Hin. apply Hx. apply List.in_map_iff in Hin.
    destruct Hin as (e' & He' & Hin). apply List.filter_In in Hin.
    rewrite <- He'. apply in_map. tauto.
  - rewrite List.Forall_forall in *. intros e He.
    apply List.filter_In in He. apply Hid. tauto.
Qed.

Lemma updated_wellKeyed flt p (l l' : list (string * Alert)) :
  Forall2 (updated flt p) l l' ->
  List.NoDup (map fst l) /\ List.Forall (fun e => id (snd e) = fst e) l ->
  List.NoDup (map fst l') /\ List.Forall (fun e => id (snd e) = fst e) l'.
Proof.
  intros HF [Hnd Hid].
  assert (Hkeys : map fst l' = map fst l).
  { clear Hnd Hid. induction HF as [|e e' l l' (Hk & _) _ IH]; simpl; congruence. }
  rewrite Hkeys. split; [exact Hnd|].
  clear Hnd Hkeys. induction HF as [|e e' l l' (Hk & (Hi & _) & _) _ IH].
  - constructor.
  - inversion Hid; subst. constructor; [congruence|auto].
Qed.

(** X4. A new manager stores every alert under its own id, with no key
    twice, and every operation keeps it so, provided no alert is added with
    an id that is present and empty: such an alert is stored under a
    generated key while its [id] stays empty. *)
Theorem X4_wellKeyed_invariant :
  (forall lg mx cd, wellKeyed (constructor lg mx cd)) /\
  (forall (o : Op) (w : World),
     wellKeyed (this w) ->
     (forall alertConfig uuid, o = op_addAlert alertConfig uuid ->
        cfg_id alertConfig <> Some "") ->
     wellKeyed (this (perform o w))).
Proof.
  split.
  - intros lg mx cd. split; simpl; constructor.
  - intros o w Hwk Hid. destruct o as [n|cfg uuid|k|sym p|]; simpl.
    + exact Hwk.
    + specialize (Hid cfg uuid eq_refl).
      destruct w as [t c r tr]. simpl in *.
      unfold addAlert, bind, Date_now, get_this, throw, put_this, emit, ret. simpl.
      destruct (Map_size (alerts t) >=? maxAlerts t); simpl; [exact Hwk|].
      destruct Hwk as [Hnd Hids]. split; simpl.
      * now apply Map_set_NoDup.
      * apply Map_set_Forall; [|exact Hids]. simpl.
        destruct (cfg_id cfg) as [i|]; simpl; [|reflexivity].
        unfold truthy_string. destruct (String.eqb_spec i ""); [congruence|reflexivity].
    + destruct w as [t c r tr]. simpl in *.
      unfold removeAlert, bind, get_this, put_this, emit, ret. simpl.
      destruct (Map_get k (alerts t)); simpl; [|exact Hwk].
      exact (filter_wellKeyed _ t Hwk).
    + destruct (processPriceUpdate_store sym p w) as (w' & Hrun & HF & _).
      rewrite Hrun. simpl.
      exact (updated_wellKeyed _ p _ _ HF Hwk).
    + destruct w as [t c r tr]. simpl in *.
      unfold clearTriggered, bind, get_this, put_this, ret. simpl.
      rewrite fold_delete_filter. exact (filter_wellKeyed _ t Hwk).
Qed.

Lemma X4_wellKeyed_invariant_witness :
  wellKeyed (this (perform (op_addAlert btc_config "u1")
                     (perform (op_processPriceUpdate "ETHUSDT" 3100) mixed_world))).
Proof.
  destruct X4_wellKeyed_invariant as [_ Hstep].
  apply Hstep.
  - apply Hstep; [exact mixed_world_wellKeyed|]. intros cfg uuid H. discriminate H.
  - intros cfg uuid H. injection H as <- _. discriminate.
Defined.

(** ** Statistics *)

Lemma count_two {A} (f g : A -> bool) (l : list A) :
  (forall x, f x = true -> g x = false) ->
  (length (List.filter f l) + length (List.filter g l) <= length l)%nat /\
  ((length (List.filter f l) + length (List.filter g l))%nat = length l <->
   List.Forall (fun x => f x = true \/ g x = true) l).
Proof.
  intros Hfg. induction l as [|x l [IHle IHeq]]; simpl.
  - split; [lia|]. split; [constructor|reflexivity].
  - specialize (Hfg x).
    destruct (f x) eqn:Hf; [rewrite (Hfg eq_refl)|destruct (g x) eqn:Hg]; simpl.
    + split; [lia|]. split.
      * intros H. constructor; [now left|]. apply IHeq. lia.
      * intros H. apply List.Forall_cons_iff in H as [_ Hl]. apply IHeq in Hl. lia.
    + split; [lia|]. split.
      * intros H. constructor; [now right|]. apply IHeq. lia.
      * intros H. apply List.Forall_cons_iff in H as [_ Hl]. apply IHeq in Hl. lia.
    + split; [lia|]. split.
      * intros H. lia.
      * intros H. apply List.Forall_cons_iff in H as [[Hx|Hx] _]; congruence.
Qed.

Lemma slice_last_suffix {A} (n : nat) (l : list A) :
  (exists older, l = older ++ slice_last n l)%list /\
  length (slice_last n l) = Nat.min n (length l).
Proof.
  unfold slice_last. split.
  - exists (take (length l - n) l). now rewrite take_drop.
  - rewrite length_drop. lia.
Qed.

(** X5. The counts of [getStatistics]: [total] is the size of the store;
    [active] and [triggered] together never exceed it, and they add up to it
    exactly when every stored alert has one of these two statuses (an alert
    added with another status is in [total] only).  [recentTriggers] is the
    end of the history, of length the smaller of 10 and the length of the
    history. *)
Theorem X5_statistics_counts (t : AlertManager) :
  let st := getStatistics t in
  total st = Z.of_nat (length (alerts t)) /\
  0 <= active st /\ 0 <= triggered st /\
  active st + triggered st <= total st /\
  (active st + triggered st = total st <->
   List.Forall (fun e => status (snd e) = "active" \/ status (snd e) = "triggered")
     (alerts t)) /\
  (exists older, alertHistory t = older ++ recentTriggers st)%list /\
  length (recentTriggers st) = Nat.min 10 (length (alertHistory t)).
Proof.
  simpl. unfold Map_size.
  rewrite !getAlerts_status by discriminate. rewrite !length_map.
  destruct (count_two (fun e : string * Alert => String.eqb (status (snd e)) "active")
              (fun e => String.eqb (status (snd e)) "triggered") (alerts t))
    as [Hle Heq].
  { intros e He. apply String.eqb_eq in He. rewrite He. reflexivity. }
  destruct (slice_last_suffix 10 (alertHistory t)) as [Hsuf Hlen].
  split; [reflexivity|]. split; [lia|]. split; [lia|]. split; [lia|].
  split; [|split; [exact Hsuf|exact Hlen]].
  split.
  - intros H. assert (H' : (length (List.filter (fun e : string * Alert =>
                                 String.eqb (status (snd e)) "active") (alerts t)) +
                            length (List.filter (fun e : string * Alert =>
                                 String.eqb (status (snd e)) "triggered") (alerts t)))%nat
                           = length (alerts t)) by lia.
    apply Heq in H'. eapply List.Forall_impl; [|exact H'].
    intros e [He|He]; apply String.eqb_eq in He; tauto.
  - intros H.
    assert (H' : List.Forall (fun e : string * Alert =>
                   String.eqb (status (snd e)) "active" = true \/
                   String.eqb (status (snd e)) "triggered" = true) (alerts t)).
    { eapply List.Forall_impl; [|exact H].
      intros e [He|He]; rewrite He; [now left|now right]. }
    apply Heq in H'. lia.
Qed.

(** The own property [s] of [bySymbol] after [c] alerts of symbol [s] have
    been counted. *)
Lemma withSymbol_cons s a l :
  withSymbol s (a :: l) =
  ((if String.eqb (symbol a) s then 1 else 0) + withSymbol s l)%nat.
Proof. unfold withSymbol. simpl. destruct (String.eqb (symbol a) s); reflexivity. Qed.

Lemma bump_other s s' m : s' <> s -> bump s' m !! s = m !! s.
Proof.
  intros Hne. unfold bump. destruct (String.eqb s' "__proto__"); [reflexivity|].
  now rewrite lookup_insert_ne.
Qed.

Lemma bySymbol_fold (s : string) (enc : nat -> option Cell) (l : list Alert) :
  (forall m c, m !! s = enc c -> bump s m !! s = enc (S c)) ->
  forall m c, m !! s = enc c ->
    fold_left (fun m alert => bump (symbol alert) m) l m !! s =
    enc (c + withSymbol s l)%nat.
Proof.
  intros Hstep. induction l as [|a l IH]; intros m c Hm.
  - simpl. unfold withSymbol. simpl. now rewrite Nat.add_0_r.
  - simpl fold_left. rewrite withSymbol_cons.
    destruct (String.eqb_spec (symbol a) s) as [Heq|Hne].
    + rewrite Heq. rewrite (IH _ (S c)); [f_equal; lia|]. now apply Hstep.
    + rewrite (IH _ c); [f_equal|]. now rewrite bump_other.
Qed.

(** X6. The property of [bySymbol] for a symbol [s], by the number [n] of
    stored alerts with that symbol.  It is absent when there is none.
    Otherwise it is the number [n], unless [s] names a property every object
    inherits ([constructor], [toString], ...): then [(bySymbol[s] || 0) + 1]
    starts from the inherited value and the property is a text, never a
    count; for [__proto__] the assignment has no effect and the property
    stays absent. *)
Theorem X6_statistics_bySymbol (t : AlertManager) (s : string) :
  let n := withSymbol s (map snd (alerts t)) in
  bySymbol (getStatistics t) !! s =
  if (n =? 0)%nat then None
  else if negb (inherited s) then Some (cell_number (Z.of_nat n))
  else if String.eqb s "__proto__" then None
  else Some cell_text.
Proof.
  simpl. set (l := map snd (alerts t)).
  set (enc := fun c : nat =>
    if (c =? 0)%nat then None
    else if negb (inherited s) then Some (cell_number (Z.of_nat c))
    else if String.eqb s "__proto__" then None
    else Some cell_text).
  change (fold_left (fun m alert => bump (symbol alert) m) l ∅ !! s =
          enc (0 + withSymbol s l)%nat).
  apply bySymbol_fold; [|reflexivity].
  intros m c Hm. unfold bump. rewrite Hm. unfold enc. simpl Nat.eqb.
  destruct (inherited s) eqn:Hin; simpl negb; cbv iota.
  - destruct (String.eqb s "__proto__") eqn:Hp.
    + rewrite Hm. unfold enc. simpl. now destruct (c =? 0)%nat.
    + rewrite lookup_insert_eq. now destruct (c =? 0)%nat.
  - assert (Hp : String.eqb s "__proto__" = false).
    { destruct (String.eqb_spec s "__proto__") as [->|]; [discriminate Hin|reflexivity]. }
    rewrite Hp, lookup_insert_eq. f_equal.
    destruct (Nat.eqb_spec c 0) as [->|Hc]; [reflexivity|].
    rewrite truthy_number_true by lia. f_equal. lia.
Qed.

(** ** The history and the recorded trigger times *)

Lemma loopBody_history k p a w a' w' :
  loopBody k p a w = (inr a', w') ->
  (alertHistory (this w') = alertHistory (this w) /\
   lastAlertTimes (this w') = lastAlertTimes (this w)) \/
  exists rec d,
    alertHistory (this w') = pushHistory rec (alertHistory (this w)) /\
    lastAlertTimes (this w') = <[lastAlertKey rec := d]> (lastAlertTimes (this w)) /\
    isSnapshot rec /\ triggeredPrice rec = Some p /\ sameAlert a rec.
Proof.
  intros Hrun.
  destruct (checkAlert a p) as [b a1] eqn:Hc.
  destruct b; [destruct (cooling w (lastAlertKey a1)) eqn:Hcool|].
  - rewrite (loopBody_skip k p a w a1 Hc Hcool) in Hrun.
    injection Hrun as <- <-. now left.
  - rewrite (loopBody_fire k p a w a1 Hc Hcool) in Hrun.
    injection Hrun as <- <-. right.
    assert (Ha1 : a1 = set_lastPrice (Some p) a).
    { unfold checkAlert in Hc. destruct (negb _); now inversion Hc. }
    subst a1. do 2 eexists. simpl.
    split; [reflexivity|]. split; [reflexivity|].
    repeat split; discriminate.
  - rewrite (loopBody_nomatch k p a w a1 Hc) in Hrun.
    injection Hrun as <- <-. now left.
Qed.

Lemma pushHistory_Forall (P : Alert -> Prop) rec h :
  P rec -> List.Forall P h -> List.Forall P (pushHistory rec h).
Proof.
  intros Hrec Hh. unfold pushHistory.
  assert (Hall : List.Forall P (h ++ [rec])).
  { apply List.Forall_app. split; [exact Hh|]. constructor; [exact Hrec|constructor]. }
  destruct (Nat.ltb 100 (length (h ++ [rec]))); [|exact Hall].
  destruct (h ++ [rec])%list; [constructor|]. now inversion Hall.
Qed.

Lemma loopBody_recorded k p a w a' w' :
  loopBody k p a w = (inr a', w') -> recorded (this w) -> recorded (this w').
Proof.
  intros Hrun Hrec. unfold recorded in *.
  destruct (loopBody_history k p a w a' w' Hrun)
    as [[Hh Ht]|(rec & d & Hh & Ht & Hsnap & _ & _)]; rewrite Hh, Ht.
  - exact Hrec.
  - apply pushHistory_Forall.
    + split; [exact Hsnap|]. rewrite lookup_insert_eq. eauto.
    + eapply List.Forall_impl; [|exact Hrec].
      intros r [Hs [v Hv]]. split; [exact Hs|].
      destruct (decide (lastAlertKey rec = lastAlertKey r)) as [->|Hne].
      * rewrite lookup_insert_eq. eauto.
      * rewrite lookup_insert_ne by exact Hne. eauto.
Qed.

Lemma perform_recorded o w : recorded (this w) -> recorded (this (perform o w)).
Proof.
  intros Hrec. destruct o as [n|cfg uuid|k|sym p|].
  - exact Hrec.
  - destruct w as [t c r tr]. simpl in *.
    unfold addAlert, bind, Date_now, get_this, throw, put_this, emit, ret. simpl.
    destruct (Map_size (alerts t) >=? maxAlerts t); exact Hrec.
  - destruct w as [t c r tr]. simpl in *.
    unfold removeAlert, bind, get_this, put_this, emit, ret. simpl.
    destruct (Map_get k (alerts t)); exact Hrec.
  - simpl.
    destruct (forAlerts_rel (fun w1 w2 => recorded (this w1) -> recorded (this w2))
                (mkFilter (Some sym) (Some "active") None) p)
      with (entries := alerts (this w)) (w := w) as (entries' & w1 & H & HR & _).
    + auto.
    + auto.
    + intros k a w0 a' w' Hl. now apply (loopBody_recorded k p a w0 a' w').
    + unfold processPriceUpdate. unfold bind at 1. unfold get_this at 1.
      rewrite (bind_inr _ _ _ _ _ H). simpl. exact (HR Hrec).
  - exact Hrec.
Qed.

(** X7. In every world a new manager reaches, every record of the history
    is the snapshot of a firing: its status is [triggered] (also when the
    alert repeats and is active again, or has been removed since), it has a
    trigger time and a trigger price, its last price is the trigger price,
    and the cooldown key of its alert has a trigger time recorded. *)
Theorem X7_history_records (w : World) :
  reachable w -> recorded (this w).
Proof.
  induction 1 as [lg mx cd clk|o w Hw IH].
  - constructor.
  - now apply perform_recorded.
Qed.

Lemma X7_history_records_witness :
  recorded (this (perform (op_processPriceUpdate "BTCUSDT" 50500)
                    (perform (op_addAlert btc_config "u1") new_world))).
Proof.
  apply X7_history_records.
  apply reachable_perform, reachable_perform. exact (reachable_new false None None _).
Defined.

(** ** The size of the store *)

Lemma Map_set_length k v m : (length (Map_set k v m) <= S (length m))%nat.
Proof.
  induction m as [|[k' v'] m IH]; simpl; [lia|].
  destruct (String.eqb k' k); simpl; lia.
Qed.

Lemma filter_shorter {A} (f : A -> bool) l : (length (List.filter f l) <= length l)%nat.
Proof. induction l as [|x l IH]; simpl; [lia|]. destruct (f x); simpl; lia. Qed.

(** X8. With [maxAlerts] a whole number, no operation changes [maxAlerts]
    or [cooldown]: after any operation both are what they were before it.
    An operation keeps the store within [maxAlerts] (within none when
    [maxAlerts] is negative), so the store of a reachable state never holds
    more alerts than [maxAlerts]. *)
Theorem X8_store_bounded :
  (forall (o : Op) (w : World),
     maxAlerts (this (perform o w)) = maxAlerts (this w) /\
     cooldown (this (perform o w)) = cooldown (this w) /\
     (Map_size (alerts (this w)) <= Z.max 0 (maxAlerts (this w)) ->
      Map_size (alerts (this (perform o w))) <= Z.max 0 (maxAlerts (this w)))) /\
  (forall w : World,
     reachable w -> Map_size (alerts (this w)) <= Z.max 0 (maxAlerts (this w))).
Proof.
  assert (Hstep : forall (o : Op) (w : World),
     maxAlerts (this (perform o w)) = maxAlerts (this w) /\
     cooldown (this (perform o w)) = cooldown (this w) /\
     (Map_size (alerts (this w)) <= Z.max 0 (maxAlerts (this w)) ->
      Map_size (alerts (this (perform o w))) <= Z.max 0 (maxAlerts (this w)))).
  { intros o w. destruct o as [n|cfg uuid|k|sym p|]; simpl.
    - auto.
    - destruct w as [t c r tr]. simpl in *.
      unfold addAlert, bind, Date_now, get_this, throw, put_this, emit, ret. simpl.
      destruct (Z.geb_spec (Map_size (alerts t)) (maxAlerts t)) as [Hge|Hlt]; simpl;
        [auto|].
      split; [reflexivity|]. split; [reflexivity|]. intros IH. unfold Map_size in *.
      pose proof (Map_set_length
        (match cfg_id cfg with
         | Some i => if truthy_string i then i else uuid
         | None => uuid
         end)
        (mkAlert
           (default
              match cfg_id cfg with
              | Some i => if truthy_string i then i else uuid
              | None => uuid
              end (cfg_id cfg)) (cfg_symbol cfg) (cfg_price cfg)
           (default "above" (cfg_type cfg)) (default "active" (cfg_status cfg))
           (default (c r) (cfg_created cfg)) (cfg_lastPrice cfg) None None
           (cfg_repeat cfg)) (alerts t)) as Hlen.
      lia.
    - destruct w as [t c r tr]. simpl in *.
      unfold removeAlert, bind, get_this, put_this, emit, ret. simpl.
      destruct (Map_get k (alerts t)); simpl; [|auto].
      split; [reflexivity|]. split; [reflexivity|]. intros IH.
      unfold Map_size, Map_delete in *.
      pose proof (filter_shorter (fun e : string * Alert => negb (String.eqb (fst e) k))
                    (alerts t)). lia.
    - destruct (processPriceUpdate_store sym p w) as (w' & Hrun & HF & Hmx & Hcd).
      rewrite Hrun. simpl. split; [exact Hmx|]. split; [exact Hcd|]. intros IH.
      unfold Map_size in *. apply Forall2_length in HF. lia.
    - destruct w as [t c r tr]. simpl in *.
      unfold clearTriggered, bind, get_this, put_this, ret. simpl.
      rewrite fold_delete_filter. split; [reflexivity|]. split; [reflexivity|].
      intros IH. unfold Map_size in *.
      match goal with |- context [List.filter ?f (alerts t)] =>
        pose proof (filter_shorter f (alerts t)) end. lia. }
  split; [exact Hstep|].
  induction 1 as [lg mx cd clk|o w Hw IH].
  - change (0 <= Z.max 0 (maxAlerts (constructor lg mx cd))). lia.
  - destruct (Hstep o w) as (Hm & _ & Hs). rewrite Hm. apply Hs, IH.
Qed.

(** ** Generated ids *)

Lemma toString16_digit v :
  0 <= v < 16 -> exists d, toString16 v = String d EmptyString /\ In d hexDigits.
Proof.
  intros Hv.
  assert (H : v = 0 \/ v = 1 \/ v = 2 \/ v = 3 \/ v = 4 \/ v = 5 \/ v = 6 \/ v = 7 \/
              v = 8 \/ v = 9 \/ v = 10 \/ v = 11 \/ v = 12 \/ v = 13 \/ v = 14 \/ v = 15)
    by lia.
  repeat (destruct H as [->|H]; [eexists; split; [reflexivity|simpl; tauto]|]).
  subst v. eexists; split; [reflexivity|simpl; tauto].
Qed.

Lemma variant_digit r :
  0 <= r < 16 ->
  exists d, toString16 (Z.lor (Z.land r 3) 8) = String d EmptyString /\
            In d ["8"; "9"; "a"; "b"]%char.
Proof.
  intros Hr.
  assert (H : r = 0 \/ r = 1 \/ r = 2 \/ r = 3 \/ r = 4 \/ r = 5 \/ r = 6 \/ r = 7 \/
              r = 8 \/ r = 9 \/ r = 10 \/ r = 11 \/ r = 12 \/ r = 13 \/ r = 14 \/ r = 15)
    by lia.
  repeat (destruct H as [->|H]; [eexists; split; [reflexivity|simpl; tauto]|]).
  subst r. eexists; split; [reflexivity|simpl; tauto].
Qed.

Lemma replace_xy_fills random16 :
  (forall i, 0 <= random16 i < 16) ->
  forall template i,
    Forall2 fills (String.list_ascii_of_string template)
      (String.list_ascii_of_string (replace_xy random16 i template)).
Proof.
  intros Hr. induction template as [|c rest IH]; intros i; simpl.
  - constructor.
  - destruct (Ascii.eqb c "x"%char) eqn:Hx; simpl.
    + destruct (toString16_digit (random16 i) (Hr i)) as (d & -> & Hd).
      simpl. constructor; [|apply IH]. unfold fills. now rewrite Hx.
    + destruct (Ascii.eqb c "y"%char) eqn:Hy; simpl.
      * destruct (variant_digit (random16 i) (Hr i)) as (d & -> & Hd).
        simpl. constructor; [|apply IH]. unfold fills. now rewrite Hx, Hy.
      * constructor; [|apply IH]. unfold fills. now rewrite Hx, Hy.
Qed.

(** X19. The id [uuidv4] generates, whatever the random numbers: it has
    the 36 characters of the template, with every [x] replaced by a
    hexadecimal digit and the [y] by one of [8], [9], [a], [b]; the four
    hyphens and the version digit [4] stay where they are.  So a generated
    id is never empty. *)
Theorem X19_uuidv4_format (random16 : nat -> Z) :
  (forall i, 0 <= random16 i < 16) ->
  Forall2 fills
    (String.list_ascii_of_string "xxxxxxxx-xxxx-4xxx-yxxx-xxxxxxxxxxxx")
    (String.list_ascii_of_string (uuidv4 random16)) /\
  String.length (uuidv4 random16) = 36%nat /\
  String.get 14 (uuidv4 random16) = Some "4"%char /\
  (forall n, In n [8; 13; 18; 23]%nat -> String.get n (uuidv4 random16) = Some "-"%char) /\
  truthy_string (uuidv4 random16) = true.
Proof.
  intros Hr. unfold uuidv4.
  pose proof (replace_xy_fills random16 Hr "xxxxxxxx-xxxx-4xxx-yxxx-xxxxxxxxxxxx" 0) as HF.
  remember (replace_xy random16 0 "xxxxxxxx-xxxx-4xxx-yxxx-xxxxxxxxxxxx") as u eqn:Hu.
  clear Hu. split; [exact HF|].
  rewrite <- (String.string_of_list_ascii_of_string u).
  remember (String.list_ascii_of_string u) as l eqn:Hl. clear Hl u.
  cbn [String.list_ascii_of_string] in HF.
  repeat match type of HF with
         | Forall2 _ (_ :: _) _ =>
             let d := fresh "d" in let r := fresh "r" in
             let Hd := fresh "Hd" in let Hrest := fresh "Hrest" in
             let E := fresh "E" in
             apply Forall2_cons_inv_l in HF as (d & r & Hd & Hrest & E);
             subst l; rename r into l; rename Hrest into HF
         end.
  apply Forall2_nil_inv_l in HF. subst l.
  unfold fills in *. cbn [Ascii.eqb Bool.eqb andb] in *. subst.
  split; [reflexivity|]. split; [reflexivity|]. split; [|reflexivity].
  intros n [<-|[<-|[<-|[<-|[]]]]]; reflexivity.
Qed.

Lemma X19_uuidv4_format_witness :
  uuidv4 (fun i => Z.of_nat i mod 16) = "01234567-89ab-4cde-b012-3456789abcde" /\
  String.length (uuidv4 (fun i => Z.of_nat i mod 16)) = 36%nat.
Proof.
  split; [reflexivity|].
  apply (X19_uuidv4_format (fun i => Z.of_nat i mod 16)).
  intros i. apply Z.mod_pos_bound. lia.
Defined.

(** ** The recorded trigger times are kept *)

Lemma perform_times_kept o w k :
  is_Some (lastAlertTimes (this w) !! k) ->
  is_Some (lastAlertTimes (this (perform o w)) !! k).
Proof.
  intros Hk. destruct o as [n|cfg uuid|id_|sym p|].
  - exact Hk.
  - destruct w as [t c r tr]. simpl in *.
    unfold addAlert, bind, Date_now, get_this, throw, put_this, emit, ret. simpl.
    destruct (Map_size (alerts t) >=? maxAlerts t); exact Hk.
  - destruct w as [t c r tr]. simpl in *.
    unfold removeAlert, bind, get_this, put_this, emit, ret. simpl.
    destruct (Map_get id_ (alerts t)); exact Hk.
  - simpl.
    destruct (forAlerts_rel
                (fun w1 w2 => is_Some (lastAlertTimes (this w1) !! k) ->
                              is_Some (lastAlertTimes (this w2) !! k))
                (mkFilter (Some sym) (Some "active") None) p)
      with (entries := alerts (this w)) (w := w) as (entries' & w1 & H & HR & _).
    + auto.
    + auto.
    + intros k0 a w0 a' w' Hl [v Hv].
      destruct (loopBody_history k0 p a w0 a' w' Hl)
        as [[_ Ht]|(rec & d & _ & Ht & _)]; rewrite Ht.
      * eauto.
      * destruct (decide (lastAlertKey rec = k)) as [->|Hne].
        -- rewrite lookup_insert_eq. eauto.
        -- rewrite lookup_insert_ne by exact Hne. eauto.
    + unfold processPriceUpdate. unfold bind at 1. unfold get_this at 1.
      rewrite (bind_inr _ _ _ _ _ H). simpl. exact (HR Hk).
  - exact Hk.
Qed.

Lemma perform_times_other o w :
  is_price_update o = false ->
  lastAlertTimes (this (perform o w)) = lastAlertTimes (this w).
Proof.
  destruct w as [t c r tr]. destruct o; simpl; try discriminate; intros _.
  - reflexivity.
  - unfold addAlert, bind, Date_now, get_this, throw, put_this, emit, ret. simpl.
    destruct (Map_size (alerts t) >=? maxAlerts t); reflexivity.
  - unfold removeAlert, bind, get_this, put_this, emit, ret. simpl.
    destruct (Map_get alertId (alerts t)); reflexivity.
  - reflexivity.
Qed.

(** X20. The manager never forgets a trigger time.  Once a cooldown key has
    a recorded time it has one after every further operation, and only a
    price update changes the recorded times: removing an alert, clearing
    the triggered alerts or adding an alert again (with the same symbol,
    type and price, hence the same key) leaves the time of the last firing
    in force. *)
Theorem X20_trigger_times_kept (o : Op) (w : World) (k : string) :
  is_Some (lastAlertTimes (this w) !! k) ->
  is_Some (lastAlertTimes (this (perform o w)) !! k) /\
  (is_price_update o = false ->
   lastAlertTimes (this (perform o w)) = lastAlertTimes (this w)).
Proof.
  intros Hk. split; [now apply perform_times_kept|apply perform_times_other].
Qed.

Lemma X20_trigger_times_kept_witness :
  is_Some (lastAlertTimes
             (this (perform (op_removeAlert "u1")
                      (perform (op_processPriceUpdate "BTCUSDT" 50500)
                         (perform (op_addAlert btc_config "u1") new_world))))
           !! "BTCUSDT-above-50000").
Proof.
  apply (X20_trigger_times_kept (op_removeAlert "u1")
           (perform (op_processPriceUpdate "BTCUSDT" 50500)
              (perform (op_addAlert btc_config "u1") new_world))
           "BTCUSDT-above-50000").
  exists 1002. vm_compute. reflexivity.
Defined.

End AlertManagerSpec.

(** * Properties of the Telegram notifier *)

Module TelegramNotifierSpec.
Import TelegramNotifier.

Lemma lastRecorded_snoc last l e :
  lastRecorded last (l ++ [e]) =
  match e with sent_at _ t => t | _ => lastRecorded last l end.
Proof.
  unfold lastRecorded. rewrite fold_left_app. simpl. destruct e; reflexivity.
Qed.

Lemma spaced_snoc mi l : forall last e,
  spaced mi last l ->
  match e with
  | message_sent _ t | sent_at _ t => lastRecorded last l + mi <= t
  | _ => True
  end ->
  spaced mi last (l ++ [e]).
Proof.
  induction l as [|x l IH]; intros last e Hs He.
  - simpl in *. destruct e; simpl; auto.
  - destruct x; simpl in *.
    + destruct Hs as [H1 H2]. split; [exact H1|]. now apply IH.
    + destruct Hs as [H1 H2]. split; [exact H1|]. now apply IH.
    + now apply IH.
    + now apply IH.
    + now apply IH.
Qed.

Lemma spaced_wellSpaced mi l : forall last,
  spaced mi last l ->
  wellSpaced mi (sendTimes l) /\
  (forall t, sendTimes l !! 0%nat = Some t -> last + mi <= t).
Proof.
  induction l as [|x l IH]; intros last Hs.
  - split; [intros i t1 t2 H; destruct i; discriminate H|intros t H; discriminate H].
  - destruct x; simpl in Hs.
    + destruct Hs as [_ Hs]. exact (IH last Hs).
    + destruct Hs as [Ht Hs]. destruct (IH time Hs) as [Hw Hh].
      change (sendTimes (sent_at notification time :: l)) with (time :: sendTimes l).
      split.
      * intros [|i] t1 t2 H1 H2; simpl in H1, H2.
        -- injection H1 as <-. now apply Hh.
        -- exact (Hw i t1 t2 H1 H2).
      * intros t H. simpl in H. injection H as <-. exact Ht.
    + exact (IH last Hs).
    + exact (IH last Hs).
    + exact (IH last Hs).
Qed.

(** ** Runs that are on time are runs *)

Lemma stepWith_any b w w' : stepWith true w w' -> stepWith b w w'.
Proof.
  intros H. destruct H as [w d Hd|w th|w n o|w o|w|w n wake o ds1 ds2 Hdr Hwake
                           |w n b' o ds1 ds2 Hdr|w n e o ds1 ds2 Hdr].
  - apply step_tick. intros _. now apply Hd.
  - apply step_initialize.
  - apply step_send.
  - apply step_cleanup_drain.
  - apply step_cleanup_close.
  - apply (step_wake b w n wake o ds1 ds2 Hdr). intros _. now apply Hwake.
  - now apply (step_sent b w n b' o ds1 ds2).
  - now apply (step_failed b w n e o ds1 ds2).
Qed.

Lemma reachesWith_any b w : reachesOnTime w -> reachesWith b w.
Proof.
  induction 1 as [token chat en t0|w w' _ IH Hstep].
  - apply reaches_new.
  - apply (reaches_step b w w' IH). now apply stepWith_any.
Qed.

Lemma settle_onTime w w' : settle w w' -> stepWith true w w'.
Proof.
  intros H. destruct H as [w d Hd|w n wake o ds1 ds2 Hdr Hwake
                           |w n b o ds1 ds2 Hdr|w n e o ds1 ds2 Hdr].
  - now apply step_tick.
  - now apply (step_wake true w n wake o ds1 ds2).
  - now apply (step_sent true w n b o ds1 ds2).
  - now apply (step_failed true w n e o ds1 ds2).
Qed.

(** ** The invariant of the drain *)

Lemma loopHead_Inv outcome w : atHead w -> Inv (loopHead outcome w).
Proof.
  intros (Hmi & Hp & Hd & Hl). unfold loopHead.
  destruct (messageQueue (self w)) as [|n rest] eqn:Hq.
  - repeat split; simpl; auto.
  - simpl. destruct (Z.ltb_spec (now w - lastSendTime (self w)) (minInterval (self w)))
      as [Hlt|Hge].
    + split; [exact Hmi|]. split; [|exact Hl].
      right. split; [exact Hp|]. rewrite Hd. eexists. split; [reflexivity|].
      simpl. lia.
    + split; [exact Hmi|]. split.
      * right. split; [exact Hp|]. rewrite Hd. eexists. split; [reflexivity|exact I].
      * simpl. now rewrite lastRecorded_snoc.
Qed.

Lemma loopHead_Timed outcome w :
  atHead w -> spaced 1000 0 (log w) -> Timed (loopHead outcome w).
Proof.
  intros (Hmi & Hp & Hd & Hl) Hs. unfold loopHead.
  destruct (messageQueue (self w)) as [|n rest] eqn:Hq.
  - split; [exact Hs|]. simpl. rewrite Hd. intros ? ? [].
  - simpl. destruct (Z.ltb_spec (now w - lastSendTime (self w)) (minInterval (self w)))
      as [Hlt|Hge].
    + split; [exact Hs|]. simpl. rewrite Hd. intros n0 r [H|[]]. discriminate H.
    + split.
      * simpl. apply spaced_snoc; [exact Hs|]. rewrite Hl. lia.
      * simpl. intros _ _ _. lia.
Qed.

Lemma Inv_fields (t' : TelegramNotifier) w z l :
  processing t' = processing (self w) ->
  lastSendTime t' = lastSendTime (self w) ->
  minInterval t' = minInterval (self w) ->
  lastRecorded 0 l = lastRecorded 0 (log w) ->
  Inv w -> Inv (mkRuntime t' z (drains w) l).
Proof.
  intros Hp Hl Hm Hr (Hmi & Hser & Hlast).
  split; [simpl; congruence|]. split; [|simpl; congruence].
  simpl. rewrite Hp.
  destruct Hser as [Hidle|(Hp' & dr & Hdr & Hok)]; [left; exact Hidle|].
  right. split; [exact Hp'|]. exists dr. split; [exact Hdr|].
  destruct dr; simpl in *; [congruence|exact I].
Qed.

Lemma processQueue_Inv outcome w : Inv w -> Inv (processQueue outcome w).
Proof.
  intros HI. unfold processQueue.
  destruct (processing (self w)) eqn:Hp; simpl; [exact HI|].
  destruct (Nat.eqb _ 0); [exact HI|].
  apply loopHead_Inv.
  destruct HI as (Hmi & [[_ Hd]|[Hp' _]] & Hl); [|congruence].
  repeat split; simpl; auto.
Qed.

Lemma processQueue_Timed outcome w : Inv w -> Timed w -> Timed (processQueue outcome w).
Proof.
  intros HI HT. unfold processQueue.
  destruct (processing (self w)) eqn:Hp; simpl; [exact HT|].
  destruct (Nat.eqb _ 0); [exact HT|].
  destruct HI as (Hmi & [[_ Hd]|[Hp' _]] & Hl); [|congruence].
  apply loopHead_Timed; [repeat split; simpl; auto|exact (proj1 HT)].
Qed.

Lemma single_drain (d x : Drain) ds1 ds2 :
  [d] = (ds1 ++ x :: ds2)%list -> ds1 = [] /\ ds2 = [] /\ d = x.
Proof.
  destruct ds1 as [|y ds1]; simpl; intros H.
  - injection H as -> <-. auto.
  - injection H as _ H. destruct ds1; discriminate H.
Qed.

Lemma drain_processing w d ds1 ds2 :
  Inv w -> drains w = (ds1 ++ d :: ds2)%list ->
  processing (self w) = true /\ ds1 = [] /\ ds2 = [] /\ drains w = [d] /\ drainOk w d.
Proof.
  intros (_ & [[_ Hnil]|(Hp & dr & Hdr' & Hok)] & _) Hdr.
  - rewrite Hnil in Hdr. destruct ds1; discriminate Hdr.
  - rewrite Hdr' in Hdr. destruct (single_drain _ _ _ _ Hdr) as (-> & -> & ->). auto.
Qed.

Lemma step_Inv b w w' : stepWith b w w' -> Inv w -> Inv w'.
Proof.
  intros Hstep HI.
  destruct Hstep as [w d Hd|w th|w n o|w o|w|w n wake o ds1 ds2 Hdr Hwake
                     |w n b' o ds1 ds2 Hdr|w n e o ds1 ds2 Hdr].
  - (* time passes *)
    now apply Inv_fields.
  - (* initialize *)
    unfold initialize. destruct (_ || _); [exact HI|].
    apply Inv_fields; try (destruct th; reflexivity); [|exact HI].
    now rewrite lastRecorded_snoc.
  - (* send *)
    unfold send. destruct (_ || _); [exact HI|].
    assert (HI1 : Inv (mkRuntime (set_messageQueue (messageQueue (self w) ++ [n]) (self w))
                         (now w) (drains w) (log w))) by now apply Inv_fields.
    destruct (negb _); [now apply processQueue_Inv|exact HI1].
  - (* cleanup, first half *)
    destruct (Nat.ltb 0 _); [now apply processQueue_Inv|exact HI].
  - (* cleanup, second half *)
    apply Inv_fields; try (destruct (bot (self w)); reflexivity); [|exact HI].
    now rewrite lastRecorded_snoc.
  - (* resumed after the sleep *)
    destruct (drain_processing w _ ds1 ds2 HI Hdr) as (Hp & -> & -> & Hd & Hok).
    destruct HI as (Hmi & _ & Hl). unfold afterSleep.
    split; [exact Hmi|]. split.
    + right. split; [exact Hp|]. eexists. split; [reflexivity|exact I].
    + simpl. now rewrite lastRecorded_snoc.
  - (* resumed after a delivery *)
    destruct (drain_processing w _ ds1 ds2 HI Hdr) as (Hp & -> & -> & Hd & Hok).
    destruct HI as (Hmi & _ & Hl). unfold afterSent. apply loopHead_Inv.
    split; [exact Hmi|]. split; [exact Hp|]. split; [reflexivity|].
    simpl. now rewrite lastRecorded_snoc.
  - (* resumed after a failed delivery *)
    destruct (drain_processing w _ ds1 ds2 HI Hdr) as (Hp & -> & -> & Hd & Hok).
    destruct HI as (Hmi & _ & Hl). unfold afterFailed. apply loopHead_Inv.
    split; [exact Hmi|]. split; [exact Hp|]. split; [reflexivity|].
    simpl. now rewrite lastRecorded_snoc.
Qed.

Lemma reaches_Inv b w : reachesWith b w -> Inv w.
Proof.
  induction 1 as [token chat en t0|w w' _ IH Hstep].
  - repeat split; simpl; auto.
  - exact (step_Inv b w w' Hstep IH).
Qed.

Lemma step_Timed w w' : stepWith true w w' -> Inv w -> Timed w -> Timed w'.
Proof.
  intros Hstep HI HT.
  destruct Hstep as [w d Hd|w th|w n o|w o|w|w n wake o ds1 ds2 Hdr Hwake
                     |w n b' o ds1 ds2 Hdr|w n e o ds1 ds2 Hdr].
  - (* time passes *)
    destruct HT as [Hs Hsend]. split; [exact Hs|]. simpl. intros n r Hin.
    specialize (Hsend n r Hin). specialize (Hd eq_refl). lia.
  - (* initialize *)
    unfold initialize. destruct (_ || _); [exact HT|].
    destruct HT as [Hs Hsend]. split.
    + simpl. apply spaced_snoc; [exact Hs|exact I].
    + simpl. intros n r Hin. specialize (Hsend n r Hin). destruct th; exact Hsend.
  - (* send *)
    unfold send. destruct (_ || _); [exact HT|].
    set (w1 := mkRuntime (set_messageQueue (messageQueue (self w) ++ [n]) (self w))
                 (now w) (drains w) (log w)).
    assert (HI1 : Inv w1) by now apply Inv_fields.
    assert (HT1 : Timed w1) by exact HT.
    destruct (negb _); [now apply processQueue_Timed|exact HT1].
  - (* cleanup, first half *)
    destruct (Nat.ltb 0 _); [now apply processQueue_Timed|exact HT].
  - (* cleanup, second half *)
    destruct HT as [Hs Hsend]. split.
    + simpl. apply spaced_snoc; [exact Hs|exact I].
    + simpl. intros n r Hin. specialize (Hsend n r Hin).
      destruct (bot (self w)); exact Hsend.
  - (* resumed after the sleep, not before its time *)
    destruct (drain_processing w _ ds1 ds2 HI Hdr) as (Hp & -> & -> & Hd & Hok).
    destruct HI as (Hmi & _ & Hl). destruct HT as [Hs _].
    simpl in Hok. specialize (Hwake eq_refl). unfold afterSleep. split.
    + simpl. apply spaced_snoc; [exact Hs|]. rewrite Hl. lia.
    + simpl. intros _ _ _. lia.
  - (* resumed after a delivery *)
    destruct (drain_processing w _ ds1 ds2 HI Hdr) as (Hp & -> & -> & Hd & Hok).
    destruct HI as (Hmi & _ & Hl). destruct HT as [Hs Hsend].
    assert (Hnow : lastSendTime (self w) + minInterval (self w) <= now w).
    { apply (Hsend n (inr b')). rewrite Hd. now left. }
    unfold afterSent. apply loopHead_Timed.
    + split; [exact Hmi|]. split; [exact Hp|]. split; [reflexivity|].
      simpl. now rewrite lastRecorded_snoc.
    + simpl. apply spaced_snoc; [exact Hs|]. rewrite Hl. lia.
  - (* resumed after a failed delivery *)
    destruct (drain_processing w _ ds1 ds2 HI Hdr) as (Hp & -> & -> & Hd & Hok).
    destruct HI as (Hmi & _ & Hl). destruct HT as [Hs Hsend].
    unfold afterFailed. apply loopHead_Timed.
    + split; [exact Hmi|]. split; [exact Hp|]. split; [reflexivity|].
      simpl. now rewrite lastRecorded_snoc.
    + simpl. apply spaced_snoc; [exact Hs|exact I].
Qed.

Lemma reachesOnTime_Timed w : reachesOnTime w -> Timed w.
Proof.
  induction 1 as [token chat en t0|w w' Hr IH Hstep].
  - split; simpl; [exact I|intros ? ? []].
  - exact (step_Timed w w' Hstep (reaches_Inv true w Hr) IH).
Qed.

(** C7. In every state a notifier reaches, whatever the timers and the
    clock do, at most one activation of [processQueue] is in flight, and
    none when [processing] is off: the drain is serial.  [minInterval] is
    1000; an activation that sleeps has set its timer for [lastSendTime +
    minInterval]; and [lastSendTime] is the time recorded for the last
    successful delivery.  In a run that is on time (no sleep ends before the
    clock reads the time it was set for, and the clock does not go back),
    any two consecutive recorded send times are at least [minInterval]
    apart, and every delivery attempt is made, and every send time
    recorded, at least [minInterval] after the send time recorded before
    it. *)
Theorem C7_drain_serial_and_spaced :
  (forall w, reaches w ->
     (length (drains w) <= 1)%nat /\
     (processing (self w) = false -> drains w = []) /\
     minInterval (self w) = 1000 /\
     (forall n wake, In (sleeping n wake) (drains w) ->
        wake = lastSendTime (self w) + minInterval (self w)) /\
     lastRecorded 0 (log w) = lastSendTime (self w)) /\
  (forall w, reachesOnTime w ->
     wellSpaced (minInterval (self w)) (sendTimes (log w)) /\
     spaced (minInterval (self w)) 0 (log w)).
Proof.
  split.
  - intros w Hr. destruct (reaches_Inv false w Hr) as (Hmi & Hser & Hl).
    split; [|split; [|split; [exact Hmi|split; [|exact Hl]]]].
    + destruct Hser as [[_ ->]|(_ & d & -> & _)]; simpl; lia.
    + destruct Hser as [[_ Hd]|(Hp & _)]; [intros _; exact Hd|congruence].
    + intros n wake Hin.
      destruct Hser as [[_ Hd]|(_ & d & Hd & Hok)]; rewrite Hd in Hin;
        [destruct Hin|].
      destruct Hin as [Hin|[]]. subst d. exact Hok.
  - intros w Hr. destruct (reaches_Inv true w Hr) as (Hmi & _).
    destruct (reachesOnTime_Timed w Hr) as [Hs _]. rewrite Hmi.
    split; [exact (proj1 (spaced_wellSpaced 1000 (log w) 0 Hs))|exact Hs].
Qed.

Lemma example_run_reaches : reachesOnTime w_7.
Proof.
  assert (H3 : reachesOnTime w_3).
  { apply (reaches_step true w_2); [|apply step_send].
    apply (reaches_step true w_1); [|apply step_send].
    apply (reaches_step true w_0); [|apply step_initialize].
    apply reaches_new. }
  assert (H4 : reachesOnTime w_4).
  { apply (reaches_step true w_3 _ H3).
    apply (step_sent true w_3 hello true (inr true) [] []). reflexivity. }
  assert (H5 : reachesOnTime w_5).
  { apply (reaches_step true w_4 _ H4). apply (step_tick true w_4 1200). lia. }
  assert (H6 : reachesOnTime w_6).
  { apply (reaches_step true w_5 _ H5).
    apply (step_wake true w_5 again 6000 (inr true) [] []); [reflexivity|].
    intros _. vm_compute. discriminate. }
  apply (reaches_step true w_6 _ H6).
  apply (step_sent true w_6 again true (inr true) [] []). reflexivity.
Defined.

Lemma example_run_3 : reaches w_3.
Proof.
  apply (reaches_step false w_2); [|apply step_send].
  apply (reaches_step false w_1); [|apply step_send].
  apply (reaches_step false w_0); [|apply step_initialize].
  apply reaches_new.
Defined.

Lemma early_run_reaches : reaches early_7.
Proof.
  assert (H4 : reaches w_4).
  { apply (reaches_step false w_3 _ example_run_3).
    apply (step_sent false w_3 hello true (inr true) [] []). reflexivity. }
  assert (H5 : reaches early_5).
  { apply (reaches_step false w_4 _ H4). apply (step_tick false w_4 999). discriminate. }
  assert (H6 : reaches early_6).
  { apply (reaches_step false early_5 _ H5).
    apply (step_wake false early_5 again 6000 (inr true) [] []); [reflexivity|discriminate]. }
  apply (reaches_step false early_6 _ H6).
  apply (step_sent false early_6 again true (inr true) [] []). reflexivity.
Defined.

Lemma C7_drain_serial_and_spaced_witness :
  sendTimes (log w_7) = [5000; 6200] /\
  ((length (drains w_7) <= 1)%nat /\
   (processing (self w_7) = false -> drains w_7 = []) /\
   minInterval (self w_7) = 1000 /\
   (forall n wake, In (sleeping n wake) (drains w_7) ->
      wake = lastSendTime (self w_7) + minInterval (self w_7)) /\
   lastRecorded 0 (log w_7) = lastSendTime (self w_7)) /\
  wellSpaced (minInterval (self w_7)) (sendTimes (log w_7)) /\
  spaced (minInterval (self w_7)) 0 (log w_7).
Proof.
  destruct C7_drain_serial_and_spaced as [Hserial Hspaced].
  split; [reflexivity|]. split.
  - apply Hserial. apply reachesWith_any. exact example_run_reaches.
  - apply Hspaced. exact example_run_reaches.
Defined.

(** The claim as it stands fails: an enabled, initialized notifier whose
    sleep ends 1 ms before the clock reads the time it was set for records
    two consecutive successful deliveries 999 ms apart. *)
Lemma C7_counterexample :
  reaches early_7 /\
  enabled (self early_7) = true /\ bot (self early_7) = true /\
  sendTimes (log early_7) = [5000; 5999] /\
  ~ wellSpaced (minInterval (self early_7)) (sendTimes (log early_7)).
Proof.
  split; [exact early_run_reaches|]. split; [reflexivity|]. split; [reflexivity|].
  split; [reflexivity|].
  intros H. specialize (H 0%nat 5000 5999 eq_refl eq_refl).
  vm_compute in H. apply H. reflexivity.
Qed.

(** * Further properties of the notifier *)

(** ** A notifier that is disabled or has no token *)

Lemma step_unconfigured token chat en w w' :
  en = Some false \/ truthy_token token = false ->
  step w w' ->
  self w = new_TelegramNotifier token chat en /\ drains w = [] /\
  Forall (eq emitted_cleanup) (log w) ->
  self w' = new_TelegramNotifier token chat en /\ drains w' = [] /\
  Forall (eq emitted_cleanup) (log w').
Proof.
  intros Hoff Hstep (Hself & Hdr & Hlog).
  assert (Hinit : negb (enabled (self w)) || negb (truthy_token (botToken (self w))) = true).
  { rewrite Hself. simpl. destruct Hoff as [-> | ->]; [reflexivity|apply orb_true_r]. }
  destruct Hstep as [w d Hd|w th|w n o|w o|w|w n wake o ds1 ds2 Hdr' Hwake
                     |w n b o ds1 ds2 Hdr'|w n e o ds1 ds2 Hdr'];
    try (rewrite Hdr in Hdr'; destruct ds1; discriminate Hdr').
  - auto.
  - unfold initialize. rewrite Hinit. auto.
  - unfold send. rewrite Hself. simpl. rewrite orb_true_r. rewrite <- Hself. auto.
  - rewrite Hself. simpl. rewrite <- Hself. auto.
  - rewrite Hself. simpl. split; [reflexivity|]. split; [exact Hdr|].
    apply Forall_app. split; [exact Hlog|]. constructor; [reflexivity|constructor].
Qed.

(** X9. A notifier created with [enabled: false], or without a token (none,
    or the empty string), never gets ready, whatever is called on it and
    however much time passes: its fields stay as the constructor set them,
    [initialize] does not set [bot] and emits nothing, [send] resolves to
    [false] and queues nothing, no activation of [processQueue] starts,
    and the only event ever emitted is the ['cleanup'] of [cleanup]. *)
Theorem X9_unconfigured_inert token chat en t0 (w : Runtime) :
  en = Some false \/ truthy_token token = false ->
  rtc step (mkRuntime (new_TelegramNotifier token chat en) t0 [] []) w ->
  self w = new_TelegramNotifier token chat en /\
  drains w = [] /\
  Forall (eq emitted_cleanup) (log w) /\
  isReady (self w) = false /\
  send_returns w = false /\
  (forall n o, send n o w = w) /\
  (forall listener_throws, initialize listener_throws w = w).
Proof.
  intros Hoff Hrun.
  assert (H : self w = new_TelegramNotifier token chat en /\ drains w = [] /\
              Forall (eq emitted_cleanup) (log w)).
  { remember (mkRuntime (new_TelegramNotifier token chat en) t0 [] []) as w0 eqn:Hw0.
    assert (H0 : self w0 = new_TelegramNotifier token chat en /\
                 drains w0 = [] /\ Forall (eq emitted_cleanup) (log w0))
      by (subst w0; repeat split; constructor).
    clear Hw0. induction Hrun as [w|w1 w2 w3 Hstep _ IH]; [exact H0|].
    apply IH. exact (step_unconfigured token chat en w1 w2 Hoff Hstep H0). }
  destruct H as (Hself & Hdr & Hlog).
  split; [exact Hself|]. split; [exact Hdr|]. split; [exact Hlog|].
  unfold isReady, send_returns, send, initialize. rewrite Hself. simpl.
  rewrite andb_false_r, orb_true_r.
  repeat split.
  intros th. destruct Hoff as [-> | ->]; [reflexivity|]. now rewrite orb_true_r.
Qed.

Lemma X9_unconfigured_inert_witness :
  Forall (eq emitted_cleanup) (log (send hello (inr true) (initialize false w_off))) /\
  send_returns (send hello (inr true) (initialize false w_off)) = false.
Proof.
  destruct (X9_unconfigured_inert None (Some "chat") None 0
              (send hello (inr true) (initialize false w_off)))
    as (_ & _ & Hlog & _ & Hret & _).
  - right. reflexivity.
  - apply (rtc_l _ _ (initialize false w_off)); [apply step_initialize|].
    apply rtc_once. apply step_send.
  - split; [exact Hlog|exact Hret].
Defined.

(** ** The queue status *)

Lemma loopHead_Configured outcome w :
  processing (self w) = true ->
  (bot (self w) = true -> truthy_token (botToken (self w)) = true) ->
  Configured (loopHead outcome w).
Proof.
  intros Hp Hb. unfold loopHead.
  destruct (messageQueue (self w)) as [|n rest] eqn:Hq.
  - split; simpl; auto.
  - destruct (_ <? _); (split; simpl; [congruence|exact Hb]).
Qed.

Lemma processQueue_Configured outcome w :
  Configured w -> Configured (processQueue outcome w).
Proof.
  intros HC. unfold processQueue.
  destruct (_ || _); [exact HC|].
  apply loopHead_Configured; [reflexivity|exact (proj2 HC)].
Qed.

Lemma step_Configured w w' : step w w' -> Inv w -> Configured w -> Configured w'.
Proof.
  intros Hstep HI HC.
  destruct Hstep as [w d Hd|w th|w n o|w o|w|w n wake o ds1 ds2 Hdr Hwake
                     |w n b o ds1 ds2 Hdr|w n e o ds1 ds2 Hdr].
  - exact HC.
  - unfold initialize.
    destruct (enabled (self w)) eqn:He; simpl; [|exact HC].
    destruct (truthy_token (botToken (self w))) eqn:Ht; simpl; [|exact HC].
    split; simpl; [destruct th; exact (proj1 HC)|destruct th; auto].
  - unfold send. destruct (_ || _); [exact HC|].
    cbn [self processing set_messageQueue].
    destruct (processing (self w)) eqn:Hp; simpl.
    + split; simpl; [congruence|exact (proj2 HC)].
    + unfold processQueue. cbn [self processing set_messageQueue messageQueue].
      rewrite Hp, length_app. simpl.
      replace (length (messageQueue (self w)) + 1 =? 0)%nat with false
        by (symmetry; apply Nat.eqb_neq; lia).
      apply loopHead_Configured; [reflexivity|exact (proj2 HC)].
  - destruct (Nat.ltb 0 _); [now apply processQueue_Configured|exact HC].
  - destruct (bot (self w)) eqn:Hb.
    + split; simpl; [exact (proj1 HC)|discriminate].
    + split; simpl; [exact (proj1 HC)|congruence].
  - destruct (drain_processing w _ ds1 ds2 HI Hdr) as (Hp & _).
    split; simpl; [congruence|exact (proj2 HC)].
  - destruct (drain_processing w _ ds1 ds2 HI Hdr) as (Hp & _).
    unfold afterSent. apply loopHead_Configured; [exact Hp|exact (proj2 HC)].
  - destruct (drain_processing w _ ds1 ds2 HI Hdr) as (Hp & _).
    unfold afterFailed. apply loopHead_Configured; [exact Hp|exact (proj2 HC)].
Qed.

Lemma reaches_Configured w : reaches w -> Configured w.
Proof.
  induction 1 as [token chat en t0|w w' Hr IH Hstep].
  - split; simpl; [reflexivity|discriminate].
  - exact (step_Configured w w' Hstep (reaches_Inv false w Hr) IH).
Qed.

Lemma loopHead_enabled outcome w : enabled (self (loopHead outcome w)) = enabled (self w).
Proof.
  unfold loopHead. destruct (messageQueue (self w)); [reflexivity|].
  destruct (_ <? _); reflexivity.
Qed.

Lemma step_disabled w w' :
  step w w' -> enabled (self w) = false -> enabled (self w') = false.
Proof.
  intros Hstep He.
  destruct Hstep as [w d Hd|w th|w n o|w o|w|w n wake o ds1 ds2 Hdr Hwake
                     |w n b o ds1 ds2 Hdr|w n e o ds1 ds2 Hdr].
  - exact He.
  - unfold initialize. rewrite He. exact He.
  - unfold send. rewrite He. exact He.
  - unfold processQueue. destruct (Nat.ltb 0 _); [|exact He].
    destruct (_ || _); [exact He|]. now rewrite loopHead_enabled.
  - simpl. destruct (bot (self w)); exact He.
  - exact He.
  - unfold afterSent. now rewrite loopHead_enabled.
  - unfold afterFailed. now rewrite loopHead_enabled.
Qed.

(** X10. What [getQueueStatus] reports in every state a notifier reaches:
    messages are queued only while [processing] is on; [processing] is on
    exactly when one activation of [processQueue] is suspended at an
    [await]; [bot] is set only on a notifier that has a token, so a ready
    notifier is enabled, has [bot] set and has a token.  [enabled] is never
    switched back on: after an [initialize] whose ['initialized'] listener
    threw, [bot] is set and the notifier is not ready, and it is not ready
    after any further step. *)
Theorem X10_queue_status (w : Runtime) :
  reaches w ->
  let st := getQueueStatus (self w) in
  (qs_processing st = false -> queued st = 0%nat) /\
  (qs_processing st = true <-> exists d, drains w = [d]) /\
  (bot (self w) = true -> truthy_token (botToken (self w)) = true) /\
  (ready st = true ->
     qs_enabled st = true /\ bot (self w) = true /\
     truthy_token (botToken (self w)) = true) /\
  (forall w', step w w' -> qs_enabled st = false ->
     ready (getQueueStatus (self w')) = false).
Proof.
  intros Hr. simpl.
  destruct (reaches_Configured w Hr) as [Hq Hb].
  destruct (reaches_Inv false w Hr) as (_ & Hser & _).
  split; [|split; [|split; [exact Hb|split]]].
  - intros Hp. now rewrite (Hq Hp).
  - split.
    + intros Hp. destruct Hser as [[Hp' _]|(_ & d & Hd & _)]; [congruence|eauto].
    + intros (d & Hd). destruct Hser as [[_ Hnil]|(Hp & _)]; [congruence|exact Hp].
  - unfold isReady. intros H. apply andb_true_iff in H as [He Hbot]. auto.
  - intros w' Hstep He. unfold isReady.
    now rewrite (step_disabled w w' Hstep He).
Qed.

Lemma X10_queue_status_witness :
  queued (getQueueStatus (self w_7)) = 0%nat /\
  (bot (self w_failed) = true /\ ready (getQueueStatus (self w_failed)) = false) /\
  ready (getQueueStatus (self (send hello (inr true) w_failed))) = false.
Proof.
  destruct (X10_queue_status w_7 (reachesWith_any false w_7 example_run_reaches))
    as (Hq & _).
  split; [apply Hq; reflexivity|]. split; [split; reflexivity|].
  assert (Hf : reaches w_failed).
  { apply (reaches_step false w_0); [apply reaches_new|apply step_initialize]. }
  destruct (X10_queue_status w_failed Hf) as (_ & _ & _ & _ & Hoff).
  apply Hoff; [apply step_send|reflexivity].
Defined.

(** ** No message is lost, duplicated or overtaken *)

Lemma attempted_snoc l e :
  attempted (l ++ [e]) =
  (attempted l ++ match e with message_sent n _ => [n] | _ => [] end)%list.
Proof. unfold attempted. rewrite omap_app. destruct e; reflexivity. Qed.

(** The loop, entered with no other activation in flight, moves the head of
    the queue to the sleeper or to the attempted messages. *)
Lemma loopHead_queue outcome w :
  drains w = [] ->
  processing (self w) = true ->
  inbox (loopHead outcome w) = inbox w /\
  (messageQueue (self w) = [] -> idle (loopHead outcome w)) /\
  (forall m rest, messageQueue (self w) = m :: rest ->
     messageQueue (self (loopHead outcome w)) = rest /\
     processing (self (loopHead outcome w)) = true).
Proof.
  intros Hd Hp. unfold loopHead, inbox, idle.
  destruct (messageQueue (self w)) as [|n rest] eqn:Hq.
  - simpl. rewrite Hd, Hq. repeat split; discriminate.
  - destruct (_ <? _); simpl; rewrite Hd; simpl.
    + split; [reflexivity|]. split; [discriminate|].
      intros m rest' H. injection H as <- <-. auto.
    + rewrite attempted_snoc, <- app_assoc. simpl.
      split; [reflexivity|]. split; [discriminate|].
      intros m rest' H. injection H as <- <-. auto.
Qed.

Lemma processQueue_inbox outcome w :
  Inv w -> inbox (processQueue outcome w) = inbox w.
Proof.
  intros (_ & Hser & _). unfold processQueue.
  destruct (processing (self w)) eqn:Hp; simpl; [reflexivity|].
  destruct (Nat.eqb _ 0); [reflexivity|].
  destruct Hser as [[_ Hd]|[Hp' _]]; [|congruence].
  apply (loopHead_queue outcome
           (mkRuntime (set_processing true (self w)) (now w) (drains w) (log w)));
    [exact Hd|reflexivity].
Qed.

Lemma afterSleep_inbox w n wake outcome :
  drains w = [sleeping n wake] ->
  inbox (afterSleep n outcome [] w) = inbox w.
Proof.
  intros Hd. unfold inbox, afterSleep. simpl. rewrite Hd, attempted_snoc. simpl.
  now rewrite <- app_assoc.
Qed.

(** The activation that waited for a delivery goes round the loop. *)
Lemma resume_queue w n r (w1 : Runtime) outcome :
  drains w = [sending n r] ->
  processing (self w) = true ->
  attempted (log w1) = attempted (log w) ->
  messageQueue (self w1) = messageQueue (self w) ->
  processing (self w1) = processing (self w) ->
  drains w1 = [] ->
  inbox (loopHead outcome w1) = inbox w /\
  (messageQueue (self w) = [] -> idle (loopHead outcome w1)) /\
  (forall m rest, messageQueue (self w) = m :: rest ->
     messageQueue (self (loopHead outcome w1)) = rest /\
     processing (self (loopHead outcome w1)) = true).
Proof.
  intros Hd Hp Ha Hq Hp1 Hd1.
  destruct (loopHead_queue outcome w1 Hd1) as (Hi & Hidle & Hrest); [congruence|].
  rewrite <- Hq. split; [|auto].
  rewrite Hi. unfold inbox. rewrite Ha, Hq, Hd, Hd1. reflexivity.
Qed.

Lemma send_inbox n outcome w :
  Inv w ->
  inbox (send n outcome w) =
  (inbox w ++ if send_returns w then [n] else [])%list.
Proof.
  intros HI. unfold send, send_returns.
  destruct (_ || _); [now rewrite app_nil_r|].
  set (w1 := mkRuntime (set_messageQueue (messageQueue (self w) ++ [n]) (self w))
               (now w) (drains w) (log w)).
  assert (H1 : inbox w1 = (inbox w ++ [n])%list).
  { unfold inbox, w1. simpl. now rewrite !app_assoc. }
  destruct (negb (processing (self w1))); [|exact H1].
  rewrite processQueue_inbox; [exact H1|]. now apply Inv_fields.
Qed.

(** X11. The messages [send] accepted, in the order they were accepted, are
    at every moment the messages already handed to [sendMessage], then the
    one waiting for the rate limit, then the queue.  A step of the notifier
    never drops, repeats or reorders any of them: only a call of [send] on a
    ready notifier changes the sequence, by appending its message.  So the
    messages are handed to [sendMessage] in the order of their [send]
    calls, each at most once, also when a delivery fails or [cleanup] runs
    in between. *)
Theorem X11_inbox_append_only (w w' : Runtime) :
  reaches w -> step w w' ->
  inbox w' = inbox w \/
  exists n outcome,
    w' = send n outcome w /\ send_returns w = true /\
    inbox w' = (inbox w ++ [n])%list.
Proof.
  intros Hr Hstep. pose proof (reaches_Inv false w Hr) as HI.
  destruct Hstep as [w d Hd|w th|w n o|w o|w|w n wake o ds1 ds2 Hdr Hwake
                     |w n b o ds1 ds2 Hdr|w n e o ds1 ds2 Hdr].
  - left. reflexivity.
  - left. unfold initialize. destruct (_ || _); [reflexivity|].
    unfold inbox. simpl. rewrite attempted_snoc, app_nil_r.
    destruct th; reflexivity.
  - rewrite (send_inbox n o w HI).
    destruct (send_returns w) eqn:Hret.
    + right. exists n, o. auto.
    + left. apply app_nil_r.
  - left. destruct (Nat.ltb 0 _); [now apply processQueue_inbox|reflexivity].
  - left. unfold inbox. simpl. rewrite attempted_snoc, app_nil_r.
    destruct (bot (self w)); reflexivity.
  - left. destruct (drain_processing w _ ds1 ds2 HI Hdr) as (Hp & -> & -> & Hd & _).
    exact (afterSleep_inbox w n wake o Hd).
  - left. destruct (drain_processing w _ ds1 ds2 HI Hdr) as (Hp & -> & -> & Hd & _).
    unfold afterSent.
    apply (resume_queue w n (inr b) _ o Hd Hp); simpl; auto.
    now rewrite attempted_snoc, app_nil_r.
  - left. destruct (drain_processing w _ ds1 ds2 HI Hdr) as (Hp & -> & -> & Hd & _).
    unfold afterFailed.
    apply (resume_queue w n (inl e) _ o Hd Hp); simpl; auto.
    now rewrite attempted_snoc, app_nil_r.
Qed.

Lemma X11_inbox_append_only_witness :
  inbox w_3 = [hello; again] /\
  (inbox w_4 = inbox w_3 \/
   exists n outcome,
     w_4 = send n outcome w_3 /\ send_returns w_3 = true /\
     inbox w_4 = (inbox w_3 ++ [n])%list).
Proof.
  split; [reflexivity|].
  apply X11_inbox_append_only.
  - exact example_run_3.
  - apply (step_sent false w_3 hello true (inr true) [] []). reflexivity.
Defined.

(** ** The drain completes by itself *)

Lemma settle_step w w' : settle w w' -> step w w'.
Proof. intros H. apply stepWith_any. now apply settle_onTime. Qed.

Lemma reaches_settles w w' : reaches w -> rtc settle w w' -> reaches w'.
Proof.
  intros Hr Hrun. induction Hrun as [w|w1 w2 w3 Hstep _ IH]; [exact Hr|].
  apply IH. exact (reaches_step false w1 w2 Hr (settle_step w1 w2 Hstep)).
Qed.

(** From a state in which a delivery is awaited, its settling takes the
    activation round the loop. *)
Lemma round_sending w n r :
  Inv w -> drains w = [sending n r] ->
  exists w1,
    settle w w1 /\ inbox w1 = inbox w /\
    (messageQueue (self w) = [] -> idle w1) /\
    (forall m rest, messageQueue (self w) = m :: rest ->
       messageQueue (self w1) = rest /\ processing (self w1) = true).
Proof.
  intros HI Hd.
  destruct (drain_processing w (sending n r) [] [] HI Hd) as (Hp & _).
  destruct r as [e|b].
  - exists (afterFailed n e (inr true) ([] ++ []) w). split.
    + now apply (settle_failed w n e (inr true) [] []).
    + unfold afterFailed.
      apply (resume_queue w n (inl e) _ (inr true) Hd Hp); simpl; auto.
      now rewrite attempted_snoc, app_nil_r.
  - exists (afterSent n (inr true) ([] ++ []) w). split.
    + now apply (settle_sent w n b (inr true) [] []).
    + unfold afterSent.
      apply (resume_queue w n (inr b) _ (inr true) Hd Hp); simpl; auto.
      now rewrite attempted_snoc, app_nil_r.
Qed.

(** From a state in which the activation sleeps: time passes until the
    clock reads the wake time, the sleep ends and [sendMessage] is
    called. *)
Lemma round_sleeping w n wake :
  drains w = [sleeping n wake] ->
  exists w1,
    rtc settle w w1 /\ inbox w1 = inbox w /\
    drains w1 = [sending n (inr true)] /\
    messageQueue (self w1) = messageQueue (self w).
Proof.
  intros Hd.
  set (wa := mkRuntime (self w) (now w + Z.max 0 (wake - now w)) (drains w) (log w)).
  exists (afterSleep n (inr true) ([] ++ []) wa).
  split; [|split; [|split]].
  - apply (rtc_l _ _ wa); [apply settle_tick; lia|].
    apply rtc_once. apply (settle_wake wa n wake (inr true) [] []); [exact Hd|].
    simpl. lia.
  - simpl app. rewrite (afterSleep_inbox wa n wake (inr true) Hd). reflexivity.
  - reflexivity.
  - reflexivity.
Qed.

Lemma drain_completes (k : nat) : forall w,
  length (messageQueue (self w)) = k ->
  reaches w ->
  exists w', rtc settle w w' /\ idle w' /\ attempted (log w') = inbox w.
Proof.
  induction k as [|k IH]; intros w Hlen Hr.
  - (* the queue is empty *)
    assert (Hq : messageQueue (self w) = [])
      by (destruct (messageQueue (self w)); [reflexivity|discriminate Hlen]).
    pose proof (reaches_Inv false w Hr) as HI.
    destruct HI as (Hmi & [[Hp Hd]|(Hp & d & Hd & Hok)] & Hl).
    + exists w. split; [apply rtc_refl|]. split; [repeat split; auto|].
      unfold inbox. rewrite Hd, Hq. simpl. now rewrite app_nil_r.
    + assert (Hsend : exists w1 n r,
                 rtc settle w w1 /\ inbox w1 = inbox w /\ drains w1 = [sending n r] /\
                 messageQueue (self w1) = []).
      { destruct d as [n wake|n r].
        - destruct (round_sleeping w n wake Hd) as (w1 & H1 & H2 & H3 & H4).
          exists w1, n, (inr true). rewrite H4. auto.
        - exists w, n, r. split; [apply rtc_refl|]. auto. }
      destruct Hsend as (w1 & n & r & Hrun & Hin & Hd1 & Hq1).
      pose proof (reaches_settles w w1 Hr Hrun) as Hr1.
      destruct (round_sending w1 n r (reaches_Inv false w1 Hr1) Hd1)
        as (w2 & Hstep & Hin2 & Hidle & _).
      exists w2. split; [eapply rtc_r; eassumption|].
      specialize (Hidle Hq1). split; [exact Hidle|].
      rewrite <- Hin, <- Hin2. destruct Hidle as (_ & Hd2 & Hq2).
      unfold inbox. rewrite Hd2, Hq2. simpl. now rewrite app_nil_r.
  - (* a message is queued: an activation is in flight *)
    destruct (messageQueue (self w)) as [|m rest] eqn:Hq; [discriminate Hlen|].
    pose proof (reaches_Inv false w Hr) as HI.
    destruct (reaches_Configured w Hr) as [Hcfg _].
    destruct HI as (Hmi & [[Hp Hd]|(Hp & d & Hd & Hok)] & Hl).
    { rewrite (Hcfg Hp) in Hq. discriminate Hq. }
    assert (Hsend : exists w1 n r,
               rtc settle w w1 /\ inbox w1 = inbox w /\ drains w1 = [sending n r] /\
               messageQueue (self w1) = m :: rest).
    { destruct d as [n wake|n r].
      - destruct (round_sleeping w n wake Hd) as (w1 & H1 & H2 & H3 & H4).
        exists w1, n, (inr true). rewrite H4. auto.
      - exists w, n, r. split; [apply rtc_refl|]. auto. }
    destruct Hsend as (w1 & n & r & Hrun & Hin & Hd1 & Hq1).
    pose proof (reaches_settles w w1 Hr Hrun) as Hr1.
    destruct (round_sending w1 n r (reaches_Inv false w1 Hr1) Hd1)
      as (w2 & Hstep & Hin2 & _ & Hnext).
    destruct (Hnext m rest Hq1) as [Hq2 Hp2].
    assert (Hrun2 : rtc settle w w2) by (eapply rtc_r; eassumption).
    destruct (IH w2) as (w' & Hrun' & Hidle & Hatt).
    + rewrite Hq2. simpl in Hlen. lia.
    + exact (reaches_settles w w2 Hr Hrun2).
    + exists w'. split; [etrans; eassumption|].
      split; [exact Hidle|]. congruence.
Qed.

(** X12. From every state a notifier reaches, the drain runs to its end
    with no further call of [send], [initialize] or [cleanup]: by steps in
    which only time passes, a sleep ends (not before its time) or a
    delivery in flight settles, a state is reached in which [processing] is
    off, the queue is empty, no activation is in flight, and every message
    accepted so far has been handed to [sendMessage], in the order it was
    accepted. *)
Theorem X12_drain_can_complete (w : Runtime) :
  reaches w ->
  exists w', rtc settle w w' /\ idle w' /\ attempted (log w') = inbox w.
Proof.
  intros Hr. exact (drain_completes (length (messageQueue (self w))) w eq_refl Hr).
Qed.

Lemma X12_drain_can_complete_witness :
  inbox w_3 = [hello; again] /\
  exists w', rtc settle w_3 w' /\ idle w' /\ attempted (log w') = inbox w_3.
Proof.
  split; [reflexivity|].
  apply X12_drain_can_complete. exact example_run_3.
Defined.

End TelegramNotifierSpec.

(** * Properties of the error handler *)

Module ErrorHandlerSpec.
Import ErrorHandler.

(** ** Counting *)

Lemma sum_insert (m : gmap string Z) k c :
  map_fold (fun _ b a => a + b) 0 (<[k := c]> m) =
  map_fold (fun _ b a => a + b) 0 m - default 0 (m !! k) + c.
Proof.
  assert (Hcomm : forall (m' : gmap string Z) (j1 j2 : string) (z1 z2 y : Z),
             j1 <> j2 -> m' !! j1 = Some z1 -> m' !! j2 = Some z2 ->
             y + z2 + z1 = y + z1 + z2) by (intros; lia).
  destruct (m !! k) as [v|] eqn:Hk; simpl.
  - rewrite (map_fold_delete_L _ 0 k v m (Hcomm m) Hk).
    rewrite <- (insert_delete_eq m).
    rewrite map_fold_insert_L; [lia|apply Hcomm|apply lookup_delete_eq].
  - rewrite map_fold_insert_L; [lia|apply Hcomm|exact Hk].
Qed.

Lemma trackError_total now e h :
  totalErrors (getErrorStatistics (trackError now e h)) =
  totalErrors (getErrorStatistics h) + 1.
Proof.
  simpl. rewrite sum_insert. unfold number_or, truthy_number.
  destruct (errorCounts h !! errorKey e) as [v|]; simpl; [|lia].
  destruct (Z.eqb_spec v 0); simpl; lia.
Qed.

Lemma occurrences_snoc k es e :
  occurrences k (es ++ [e]) =
  (occurrences k es + if String.eqb (errorKey e) k then 1 else 0)%nat.
Proof.
  unfold occurrences. rewrite List.filter_app, length_app. simpl.
  destruct (String.eqb (errorKey e) k); reflexivity.
Qed.

(** ** The last errors *)

Lemma slice_last_snoc {A} (n : nat) (l : list A) (x : A) :
  (0 < n)%nat ->
  (let l' := (AlertManager.slice_last n l ++ [x])%list in
   if Nat.ltb n (length l') then tl l' else l') =
  AlertManager.slice_last n (l ++ [x]).
Proof.
  intros Hn. unfold AlertManager.slice_last. cbv zeta.
  rewrite !length_app, length_drop. simpl.
  destruct (Nat.ltb_spec n (length l - (length l - n) + 1)) as [Hlt|Hge].
  - replace (length l + 1 - n)%nat with (S (length l - n)) by lia.
    rewrite drop_app_le by lia.
    destruct (drop (length l - n) l) as [|y r] eqn:Hd.
    + apply (f_equal length) in Hd. rewrite length_drop in Hd. simpl in Hd. lia.
    + simpl. rewrite <- (drop_app_le l [x]) by lia.
      replace (r ++ [x])%list with (drop 1 (drop (length l - n) (l ++ [x]))).
      * rewrite drop_drop. f_equal. lia.
      * rewrite drop_app_le by lia. rewrite Hd. reflexivity.
  - replace (length l - n)%nat with 0%nat by lia.
    replace (length l + 1 - n)%nat with 0%nat by lia. reflexivity.
Qed.

Lemma slice_last_map {A B} (f : A -> B) n l :
  map f (AlertManager.slice_last n l) = AlertManager.slice_last n (map f l).
Proof. unfold AlertManager.slice_last. now rewrite length_map, List.skipn_map. Qed.

Lemma slice_last_twice {A} (n k : nat) (l : list A) :
  (n <= k)%nat ->
  AlertManager.slice_last n (AlertManager.slice_last k l) = AlertManager.slice_last n l.
Proof.
  intros Hnk. unfold AlertManager.slice_last.
  rewrite length_drop, drop_drop. f_equal. lia.
Qed.

Lemma trackError_tracks now e es h :
  tracks es h -> tracks (es ++ [e]) (trackError now e h).
Proof.
  intros (Hmax & Htot & Hcnt & Hsize & Hlast).
  split; [exact Hmax|]. split; [|split; [|split]].
  - rewrite trackError_total, Htot, length_app. simpl. lia.
  - intros k. simpl. rewrite occurrences_snoc.
    destruct (String.eqb_spec (errorKey e) k) as [<-|Hne].
    + rewrite lookup_insert_eq, Hcnt.
      replace (occurrences (errorKey e) es + 1 =? 0)%nat with false
        by (symmetry; apply Nat.eqb_neq; lia).
      f_equal. destruct (Nat.eqb_spec (occurrences (errorKey e) es) 0) as [->|Hpos].
      * reflexivity.
      * simpl. rewrite AlertManagerSpec.truthy_number_true by lia. lia.
    + rewrite lookup_insert_ne by exact Hne. rewrite Nat.add_0_r. apply Hcnt.
  - simpl. rewrite map_size_insert, length_app. simpl.
    destruct (errorCounts h !! errorKey e); simpl; lia.
  - simpl. rewrite Hmax.
    rewrite <- (slice_last_snoc 10 es e) by lia. cbv zeta.
    rewrite <- Hlast.
    rewrite !length_app, !length_map. simpl.
    destruct (Nat.ltb 10 (length (lastErrors h) + 1)).
    + destruct (lastErrors h); simpl; [reflexivity|]. now rewrite map_app.
    + now rewrite map_app.
Qed.

Lemma handleAll_tracks inputs : forall es h,
  tracks es h -> tracks (es ++ map snd inputs) (handleAll inputs h).
Proof.
  induction inputs as [|[now e] inputs IH]; intros es h Ht; simpl.
  - now rewrite app_nil_r.
  - change (es ++ e :: map snd inputs)%list with (es ++ [e] ++ map snd inputs)%list.
    rewrite app_assoc. apply IH. now apply trackError_tracks.
Qed.

(** X13. After [clearHistory] (or on a new handler) and any number of calls
    of [handleError]: [totalErrors] is the number of errors handled since;
    the count under a key is the number of those errors with that name and
    code, and a key of which there was none is absent; there are at most as
    many keys as errors; [lastErrors] holds the last ten errors handled, in
    order, and [recentErrors] the last five. *)
Theorem X13_error_statistics (logger : bool) (before inputs : list (Z * ErrorValue)) :
  let h := handleAll inputs (clearHistory (handleAll before (new_ErrorHandler logger))) in
  let st := getErrorStatistics h in
  let es := map snd inputs in
  totalErrors st = Z.of_nat (length inputs) /\
  (forall k, st_errorCounts st !! k =
     if (occurrences k es =? 0)%nat then None else Some (Z.of_nat (occurrences k es))) /\
  (uniqueErrors st <= length inputs)%nat /\
  map t_error (lastErrors h) = AlertManager.slice_last 10 es /\
  map t_error (recentErrors st) = AlertManager.slice_last 5 es.
Proof.
  intros h st es.
  assert (H0 : tracks [] (clearHistory (handleAll before (new_ErrorHandler logger)))).
  { assert (Hmax : maxLastErrors (handleAll before (new_ErrorHandler logger)) = 10%nat).
    { destruct (handleAll_tracks before [] (new_ErrorHandler logger)) as (Hm & _);
        [|exact Hm].
      repeat split; simpl; auto. }
    repeat split; simpl; auto. }
  destruct (handleAll_tracks inputs [] _ H0) as (Hmax & Htot & Hcnt & Hsize & Hlast).
  simpl app in *. fold h in Hmax, Htot, Hcnt, Hsize, Hlast.
  unfold es. rewrite length_map in Htot, Hsize.
  split; [exact Htot|]. split; [exact Hcnt|]. split; [exact Hsize|].
  split; [exact Hlast|].
  unfold st. simpl. rewrite slice_last_map, Hlast.
  apply slice_last_twice. lia.
Qed.

(** ** Severity and recovery *)

(** X14. How the grade of an error and the suggested recovery go together.
    [retry] is suggested exactly for the two network codes, which are
    critical.  [stop] is suggested only for a [ConfigurationError], which
    is critical.  A critical error is never answered with [continue]; but a
    [ConfigurationError] whose message mentions a rate limit is answered
    with [backoff], not [stop], since the message is tested first.  A delay
    is given exactly with [retry] and [backoff]. *)
Theorem X14_severity_and_recovery (e : ErrorValue) :
  let r := suggestRecovery e in
  (action r = "retry" <->
   code_is "ENOTFOUND" e = true \/ code_is "ECONNREFUSED" e = true) /\
  (action r = "retry" -> determineSeverity e = "critical") /\
  (action r = "stop" ->
   determineSeverity e = "critical" /\ e_class e = class_ConfigurationError) /\
  (determineSeverity e = "critical" -> action r <> "continue") /\
  (is_ConfigurationError e = true -> message_includes "rate limit" e = true ->
   determineSeverity e = "critical" /\ action r <> "stop") /\
  (delay r = None <-> action r = "stop" \/ action r = "continue").
Proof.
  unfold suggestRecovery, determineSeverity, is_ConfigurationError.
  destruct (code_is "ENOTFOUND" e) eqn:H1; simpl.
  { repeat split; auto; try discriminate; intros [H|H]; discriminate H. }
  destruct (code_is "ECONNREFUSED" e) eqn:H2; simpl.
  { repeat split; auto; try discriminate; intros [H|H]; discriminate H. }
  destruct (message_includes "rate limit" e) eqn:H3; simpl.
  { destruct (e_class e) eqn:Hc; simpl;
      repeat split; auto; try discriminate; intros [H|H]; discriminate H. }
  destruct (e_class e) eqn:Hc; simpl;
    repeat split; auto; try discriminate;
    try (intros [H|H]; discriminate H);
    try (intros H; exfalso; revert H;
         repeat match goal with |- context [if ?b then _ else _] => destruct b end;
         discriminate).
Qed.

End ErrorHandlerSpec.

(** * Properties of the tracker *)

Module WhaleTrackerSpec.
Import WhaleTracker.

(** X15. On a tracker that is not initialized, [addAlert] and [removeAlert]
    throw the error of [_checkInitialized] and change nothing: the check
    is made before the [try], so the error is not handed to the error
    handler and nothing is logged. *)
Theorem X15_tracker_not_initialized (t : WhaleTracker) :
  isInitialized t = false ->
  (forall symbol price type options uuid,
     tracker_addAlert symbol price type options uuid t = (inl notInitialized, t)) /\
  (forall alertId, tracker_removeAlert alertId t = (inl notInitialized, t)).
Proof.
  intros Hinit. split; intros; unfold tracker_addAlert, tracker_removeAlert;
    rewrite Hinit; reflexivity.
Qed.

Lemma X15_tracker_not_initialized_witness :
  tracker_removeAlert "a" fresh_tracker = (inl notInitialized, fresh_tracker).
Proof.
  destruct (X15_tracker_not_initialized fresh_tracker eq_refl) as [_ H].
  exact (H "a").
Defined.

(** ** An error of the manager reaches the error handler *)

Lemma handle_fields error t :
  let t' := handle error t in
  isInitialized t' = isInitialized t /\
  alertManager t' = alertManager t /\
  activeAlerts t' = activeAlerts t /\
  managerEvents t' = managerEvents t /\
  trackerEvents t' = trackerEvents t /\
  errorHandler t' =
    ErrorHandler.trackError (wt_clock t (wt_reads t)) error (errorHandler t).
Proof. unfold handle. simpl. repeat split. Qed.

(** X16. [addAlert] on an initialized tracker whose manager is at capacity:
    the error of the manager is rethrown as it is; the store of the manager,
    [activeAlerts] and the events emitted by the manager and by the tracker
    are as before (no ['alert_added']); the error handler has counted one
    more error, under the key [Error:unknown], and the error is the last of
    [lastErrors] ([maxLastErrors] is 10 unless it was reassigned). *)
Theorem X16_tracker_addAlert_at_capacity
  (symbol : string) (price : Z) (type : option string) (options : Options)
  (uuid : string) (t : WhaleTracker) (mgr : AlertManager.AlertManager) :
  isInitialized t = true ->
  alertManager t = Some mgr ->
  AlertManager.Map_size (AlertManager.alerts mgr) >= AlertManager.maxAlerts mgr ->
  (0 < ErrorHandler.maxLastErrors (errorHandler t))%nat ->
  let error :=
    ErrorHandler.new_Error
      ("Maximum number of alerts (" +:+ pretty (AlertManager.maxAlerts mgr)
       +:+ ") reached") in
  let r := tracker_addAlert symbol price type options uuid t in
  let st := ErrorHandler.getErrorStatistics (errorHandler t) in
  let st' := ErrorHandler.getErrorStatistics (errorHandler (snd r)) in
  fst r = inl error /\
  alertManager (snd r) = Some mgr /\
  activeAlerts (snd r) = activeAlerts t /\
  managerEvents (snd r) = managerEvents t /\
  trackerEvents (snd r) = trackerEvents t /\
  ErrorHandler.totalErrors st' = ErrorHandler.totalErrors st + 1 /\
  ErrorHandler.st_errorCounts st' !! "Error:unknown" =
    Some (number_or (ErrorHandler.st_errorCounts st !! "Error:unknown") 0 + 1) /\
  (exists older entry,
     ErrorHandler.lastErrors (errorHandler (snd r)) = (older ++ [entry])%list /\
     ErrorHandler.t_error entry = error).
Proof.
  intros Hinit Hmgr Hfull Hmax error r st st'.
  assert (Hr : r = (inl error,
                    handle error
                      (afterManager
                         (AlertManager.mkWorld mgr (wt_clock t) (S (wt_reads t))
                            (managerEvents t))
                         (logger_info ("Adding alert for " +:+ symbol +:+ " at "
                                       +:+ pretty price +:+ " ("
                                       +:+ default "above" type +:+ ")") t)))).
  { unfold r, tracker_addAlert. rewrite Hinit. simpl negb. cbv iota.
    cbn [alertManager logger_info]. rewrite Hmgr.
    unfold AlertManager.addAlert, AlertManager.bind, AlertManager.Date_now,
      AlertManager.get_this, AlertManager.throw, managerWorld.
    cbn [AlertManager.this AlertManager.clock AlertManager.reads AlertManager.trace
         wt_clock wt_reads managerEvents logger_info].
    replace (AlertManager.Map_size (AlertManager.alerts mgr)
             >=? AlertManager.maxAlerts mgr) with true
      by (symmetry; rewrite Z.geb_leb; apply Z.leb_le; lia).
    reflexivity. }
  subst st'. rewrite Hr. cbn [fst snd].
  destruct (handle_fields error
              (afterManager
                 (AlertManager.mkWorld mgr (wt_clock t) (S (wt_reads t)) (managerEvents t))
                 (logger_info ("Adding alert for " +:+ symbol +:+ " at "
                               +:+ pretty price +:+ " ("
                               +:+ default "above" type +:+ ")") t)))
    as (_ & H2 & H3 & H4 & H5 & H6).
  rewrite H2, H3, H4, H5, H6.
  split; [reflexivity|]. split; [reflexivity|]. split; [reflexivity|].
  split; [reflexivity|]. split; [reflexivity|].
  split; [apply ErrorHandlerSpec.trackError_total|].
  split.
  - cbn [ErrorHandler.getErrorStatistics ErrorHandler.st_errorCounts
         ErrorHandler.trackError ErrorHandler.errorCounts].
    change (ErrorHandler.errorKey error) with "Error:unknown".
    rewrite lookup_insert_eq. reflexivity.
  - cbn [ErrorHandler.trackError ErrorHandler.lastErrors].
    cbn [afterManager logger_info errorHandler ErrorHandler.maxLastErrors].
    set (l := ErrorHandler.lastErrors _).
    set (entry := ErrorHandler.mkTracked error _ _).
    destruct (Nat.ltb_spec (ErrorHandler.maxLastErrors (errorHandler t))
                (length (l ++ [entry]))) as [Hlt|Hge].
    + destruct l as [|x l']; simpl in *; [lia|].
      exists l', entry. split; reflexivity.
    + exists l, entry. split; reflexivity.
Qed.

Lemma X16_tracker_addAlert_at_capacity_witness :
  fst (tracker_addAlert "ETHUSDT" 3000 None no_options "u2" one_alert_tracker) =
    inl (ErrorHandler.new_Error "Maximum number of alerts (1) reached") /\
  activeAlerts (snd (tracker_addAlert "ETHUSDT" 3000 None no_options "u2" one_alert_tracker))
    = activeAlerts one_alert_tracker.
Proof.
  destruct (X16_tracker_addAlert_at_capacity "ETHUSDT" 3000 None no_options "u2"
              one_alert_tracker
              (AlertManager.set_alerts
                 [("u1", AlertManager.mkAlert "u1" "BTCUSDT" 50000 "above" "active" 1000
                           None None None false)]
                 (AlertManager.constructor true (Some 1) None)))
    as (H1 & _ & H3 & _).
  - reflexivity.
  - reflexivity.
  - vm_compute. discriminate.
  - simpl. lia.
  - split; [exact H1|exact H3].
Defined.

(** ** removeAlert *)

Lemma removeAlert_resolves alertId w :
  exists b w', AlertManager.removeAlert alertId w = (inr b, w') /\
    (AlertManager.Map_get alertId (AlertManager.alerts (AlertManager.this w)) = None ->
       b = false /\ w' = w) /\
    AlertManager.alerts (AlertManager.this w') =
      AlertManager.Map_delete alertId (AlertManager.alerts (AlertManager.this w)) /\
    AlertManager.clock w' = AlertManager.clock w /\
    AlertManager.reads w' = AlertManager.reads w.
Proof.
  unfold AlertManager.removeAlert, AlertManager.bind, AlertManager.get_this,
    AlertManager.put_this, AlertManager.emit, AlertManager.ret.
  destruct w as [t c r tr]. cbn [AlertManager.this AlertManager.alerts].
  destruct (AlertManager.Map_get alertId (AlertManager.alerts t)) eqn:Hg.
  - do 2 eexists. split; [reflexivity|]. simpl. split; [discriminate|]. auto.
  - do 2 eexists. split; [reflexivity|]. simpl. split; [auto|]. split; [|auto].
    clear -Hg. induction (AlertManager.alerts t) as [|[k v] l IH]; [reflexivity|].
    simpl in *. destruct (String.eqb k alertId); [discriminate|]. simpl.
    f_equal. now apply IH.
Qed.

(** X17. [removeAlert] on an initialized tracker with its manager always
    resolves to [{ alertId, status: 'removed' }] and emits
    ['alert_removed'], whether the manager knew the alert or not: the value
    the manager resolves to is not looked at.  The key is deleted from
    [activeAlerts] and from the store; when the manager did not know the
    alert, the manager is left as it was and emits nothing.  The error
    handler is not involved. *)
Theorem X17_tracker_removeAlert (alertId : string) (t : WhaleTracker)
  (mgr : AlertManager.AlertManager) :
  isInitialized t = true ->
  alertManager t = Some mgr ->
  let r := tracker_removeAlert alertId t in
  fst r = inr (alertId, "removed") /\
  trackerEvents (snd r) = (trackerEvents t ++ [tracker_alert_removed alertId])%list /\
  activeAlerts (snd r) = AlertManager.Map_delete alertId (activeAlerts t) /\
  errorHandler (snd r) = errorHandler t /\
  (exists mgr',
     alertManager (snd r) = Some mgr' /\
     AlertManager.alerts mgr' = AlertManager.Map_delete alertId (AlertManager.alerts mgr)) /\
  (AlertManager.Map_get alertId (AlertManager.alerts mgr) = None ->
     alertManager (snd r) = Some mgr /\ managerEvents (snd r) = managerEvents t).
Proof.
  intros Hinit Hmgr r. unfold r, tracker_removeAlert.
  rewrite Hinit. simpl negb. cbv iota. cbn [alertManager logger_info]. rewrite Hmgr.
  destruct (removeAlert_resolves alertId
              (managerWorld mgr (logger_info ("Removing alert " +:+ alertId) t)))
    as (b & w' & Hrun & Hnone & Hdel & _).
  rewrite Hrun. cbn [fst snd].
  split; [reflexivity|]. split; [reflexivity|]. split; [reflexivity|].
  split; [reflexivity|]. split.
  - exists (AlertManager.this w'). split; [reflexivity|exact Hdel].
  - intros Hg. destruct (Hnone Hg) as [_ ->]. split; reflexivity.
Qed.

Lemma X17_tracker_removeAlert_witness :
  fst (tracker_removeAlert "nobody" one_alert_tracker) = inr ("nobody", "removed") /\
  alertManager (snd (tracker_removeAlert "nobody" one_alert_tracker))
    = alertManager one_alert_tracker.
Proof.
  destruct (X17_tracker_removeAlert "nobody" one_alert_tracker
              (AlertManager.set_alerts
                 [("u1", AlertManager.mkAlert "u1" "BTCUSDT" 50000 "above" "active" 1000
                           None None None false)]
                 (AlertManager.constructor true (Some 1) None)))
    as (H1 & _ & _ & _ & _ & H6).
  - reflexivity.
  - reflexivity.
  - split; [exact H1|]. apply H6. reflexivity.
Defined.

(** ** The tracker's map and the manager's store *)

Lemma Map_set_same_keys k v v' (m m' : list (string * AlertManager.Alert)) :
  map fst m = map fst m' ->
  map fst (AlertManager.Map_set k v m) = map fst (AlertManager.Map_set k v' m').
Proof.
  intros Hk.
  destruct (AlertManagerSpec.Map_set_keys k v m) as [H1 H2].
  destruct (AlertManagerSpec.Map_set_keys k v' m') as [H1' H2'].
  destruct (List.in_dec String.string_dec k (map fst m)) as [Hin|Hnin].
  - rewrite H1 by exact Hin. rewrite H1' by (rewrite <- Hk; exact Hin). exact Hk.
  - rewrite H2 by exact Hnin. rewrite H2' by (rewrite <- Hk; exact Hnin). now rewrite Hk.
Qed.

Lemma Map_delete_keys k (m : list (string * AlertManager.Alert)) :
  map fst (AlertManager.Map_delete k m) =
  List.filter (fun k' => negb (String.eqb k' k)) (map fst m).
Proof.
  induction m as [|[k' v] m IH]; simpl; [reflexivity|].
  destruct (String.eqb k' k); simpl; now rewrite IH.
Qed.

(** X18. As long as alerts are added and removed through the tracker,
    [activeAlerts] has exactly the keys of the manager's store, in the same
    order: both methods keep it so, whether they succeed or throw,
    provided no alert is added with an [id] that is present and empty (the
    manager stores such an alert under a generated key, the tracker under
    the empty one). *)
Theorem X18_tracker_mirrors_store (t : WhaleTracker) :
  isInitialized t = true ->
  mirrors t ->
  (forall symbol price type options uuid,
     o_id options <> Some "" ->
     mirrors (snd (tracker_addAlert symbol price type options uuid t))) /\
  (forall alertId, mirrors (snd (tracker_removeAlert alertId t))).
Proof.
  intros Hinit (mgr & Hmgr & Hkeys). split.
  - intros symbol price type options uuid Hid.
    unfold tracker_addAlert. rewrite Hinit. simpl negb. cbv iota.
    cbn [alertManager logger_info]. rewrite Hmgr.
    unfold AlertManager.addAlert, AlertManager.bind, AlertManager.Date_now,
      AlertManager.get_this, AlertManager.throw, AlertManager.put_this,
      AlertManager.emit, AlertManager.ret, managerWorld.
    cbn [AlertManager.this AlertManager.clock AlertManager.reads AlertManager.trace
         wt_clock wt_reads managerEvents logger_info].
    destruct (AlertManager.Map_size (AlertManager.alerts mgr)
              >=? AlertManager.maxAlerts mgr).
    + exists mgr. split; [reflexivity|exact Hkeys].
    + eexists. split; [reflexivity|].
      cbn [snd activeAlerts afterManager logger_info AlertManager.alerts
           AlertManager.set_alerts AlertManager.this AlertManager.id
           alertConfigOf AlertManager.cfg_id].
      assert (Hsame : default
                        match o_id options with
                        | Some i => if truthy_string i then i else uuid
                        | None => uuid
                        end (o_id options) =
                      match o_id options with
                      | Some i => if truthy_string i then i else uuid
                      | None => uuid
                      end).
      { destruct (o_id options) as [i|]; simpl; [|reflexivity].
        unfold truthy_string. destruct (String.eqb_spec i ""); [congruence|reflexivity]. }
      rewrite Hsame. now apply Map_set_same_keys.
  - intros alertId.
    unfold tracker_removeAlert. rewrite Hinit. simpl negb. cbv iota.
    cbn [alertManager logger_info]. rewrite Hmgr.
    destruct (removeAlert_resolves alertId
                (managerWorld mgr (logger_info ("Removing alert " +:+ alertId) t)))
      as (b & w' & Hrun & _ & Hdel & _).
    rewrite Hrun. exists (AlertManager.this w'). split; [reflexivity|].
    cbn [snd activeAlerts afterManager logger_info]. rewrite Hdel.
    cbn [managerWorld AlertManager.this].
    now rewrite !Map_delete_keys, Hkeys.
Qed.

Lemma X18_tracker_mirrors_store_witness :
  mirrors (snd (tracker_addAlert "BTCUSDT" 50000 None no_options "u1" small_tracker)).
Proof.
  destruct (X18_tracker_mirrors_store small_tracker) as [Hadd _].
  - reflexivity.
  - eexists. split; reflexivity.
  - apply Hadd. discriminate.
Defined.

End WhaleTrackerSpec.

(** * Properties of the notifications of the manager *)

Module PipelineSpec.
Import AlertManager Pipeline.

Lemma checkAlert_type alert p a1 :
  checkAlert alert p = (true, a1) ->
  type a1 = "above" \/ type a1 = "below" \/ type a1 = "cross".
Proof.
  unfold checkAlert. destruct (negb _); [discriminate|].
  intros H. injection H as H <-. simpl.
  destruct (String.eqb_spec (type alert) "above"); [auto|].
  destruct (String.eqb_spec (type alert) "below"); [auto|].
  destruct (String.eqb_spec (type alert) "cross"); [auto|].
  discriminate H.
Qed.

Lemma notified_app e1 e2 : notified (e1 ++ e2) = (notified e1 ++ notified e2)%list.
Proof. apply omap_app. Qed.

Lemma notified_sendEvents lg ns n : forall i,
  Forall (eq n) (notified (sendEvents lg i ns n)).
Proof.
  induction ns as [|f ns IH]; intros i; simpl; [constructor|].
  constructor; [reflexivity|].
  rewrite notified_app. apply Forall_app. split; [|apply IH].
  destruct (f n); [destruct lg|]; constructor.
Qed.

Lemma loopBody_notifies k p a w a' w' :
  loopBody k p a w = (inr a', w') ->
  exists evs, trace w' = (trace w ++ evs)%list /\ Forall ofFiring (notified evs).
Proof.
  intros Hrun.
  destruct (checkAlert a p) as [b a1] eqn:Hc.
  destruct b; [destruct (cooling w (lastAlertKey a1)) eqn:Hcool|].
  - rewrite (AlertManagerSpec.loopBody_skip k p a w a1 Hc Hcool) in Hrun.
    injection Hrun as <- <-. exists []. rewrite app_nil_r. split; [reflexivity|constructor].
  - rewrite (AlertManagerSpec.loopBody_fire k p a w a1 Hc Hcool) in Hrun.
    injection Hrun as <- <-. cbn [trace]. eexists. split; [reflexivity|].
    set (a2 := markTriggered _ p a1).
    assert (Hn : ofFiring (mkNotification a2 (formatAlertMessage a2))).
    { split; [exact (checkAlert_type a p a1 Hc)|].
      split; [reflexivity|]. split; [discriminate|reflexivity]. }
    cbn [notified omap]. constructor; [exact Hn|].
    eapply Forall_impl; [apply notified_sendEvents|].
    intros n <-. exact Hn.
  - rewrite (AlertManagerSpec.loopBody_nomatch k p a w a1 Hc) in Hrun.
    injection Hrun as <- <-. exists []. rewrite app_nil_r. split; [reflexivity|constructor].
Qed.

Lemma append_assoc (s1 s2 s3 : string) : (s1 +:+ s2) +:+ s3 = s1 +:+ (s2 +:+ s3).
Proof.
  induction s1 as [|c s1 IH]; [reflexivity|].
  change (String c ((s1 +:+ s2) +:+ s3) = String c (s1 +:+ (s2 +:+ s3))).
  now rewrite IH.
Qed.

Lemma formatAlertMessage_truthy a : truthy_string (formatAlertMessage a) = true.
Proof.
  unfold formatAlertMessage. destruct (String.eqb (type a) "above"); reflexivity.
Qed.

(** X21. Every notification a price update hands to the notifiers is that
    of a firing: [processPriceUpdate] returns, and of the events it adds to
    the trace every notification has an alert of type [above], [below] or
    [cross] with status [triggered] and a trigger price, and the formatted
    text as its message.  The Telegram notifier renders such a notification
    with the general emoji, never with one of the price-alert arrows, as its
    type is never [PRICE_ALERT]: whatever its other properties, the text is
    the general emoji, the symbol (if not empty) and the message, each on a
    line, then the detail lines and the time. *)
Theorem X21_alert_notifications :
  (forall (symbol : string) (p : Z) (w : World),
     exists w' evs,
       processPriceUpdate symbol p w = (inr tt, w') /\
       trace w' = (trace w ++ evs)%list /\
       Forall ofFiring (notified evs)) /\
  (forall (direction : option string) (amount impact : option TelegramNotifier.Value)
          (time : string) (n : Notification),
     ofFiring n ->
     exists details,
       TelegramNotifier.formatMessage direction amount impact time (payload n) =
       "ðŸ“¢ " +:+
       (if truthy_string (symbol (n_alert n))
        then symbol (n_alert n) +:+ TelegramNotifier.newline else "") +:+
       message n +:+ TelegramNotifier.newline +:+
       details +:+
       TelegramNotifier.newline +:+ "â° " +:+ time).
Proof.
  split.
  - intros sym p w.
    destruct (AlertManagerSpec.forAlerts_rel
                (fun w1 w2 => exists evs, trace w2 = (trace w1 ++ evs)%list /\
                                          Forall ofFiring (notified evs))
                (mkFilter (Some sym) (Some "active") None) p)
      with (entries := alerts (this w)) (w := w)
      as (entries' & w1 & H & (evs & Htr & Hok) & _).
    + intros w0. exists []. rewrite app_nil_r. split; [reflexivity|constructor].
    + intros w1 w2 w3 (e1 & T1 & N1) (e2 & T2 & N2). exists (e1 ++ e2)%list.
      split; [rewrite T2, T1, <- app_assoc; reflexivity|].
      rewrite notified_app. apply Forall_app. auto.
    + intros k a w0 a' w' Hl. exact (loopBody_notifies k p a w0 a' w' Hl).
    + eexists. exists evs. split; [|split; [|exact Hok]].
      * unfold processPriceUpdate. unfold bind at 1. unfold get_this at 1.
        rewrite (AlertManagerSpec.bind_inr _ _ _ _ _ H). reflexivity.
      * exact Htr.
  - intros direction amount impact time [a m] (Htype & _ & _ & Hm). simpl in *. subst m.
    unfold TelegramNotifier.formatMessage, payload.
    cbn [TelegramNotifier.n_type TelegramNotifier.n_symbol TelegramNotifier.n_message
         TelegramNotifier.n_price n_alert message].
    rewrite formatAlertMessage_truthy.
    assert (Hemoji : (if String.eqb (type a) "WHALE_DETECTED" then "ðŸ‹ "
                      else if String.eqb (type a) "PRICE_ALERT" then
                        match direction with
                        | Some d => if String.eqb d "above" then "ðŸ“ˆ " else "ðŸ“‰ "
                        | None => "ðŸ“‰ "
                        end
                      else if String.eqb (type a) "FLOW_ALERT" then "ðŸ”„ "
                      else "ðŸ“¢ ") = "ðŸ“¢ ").
    { destruct Htype as [-> | [-> | ->]]; reflexivity. }
    rewrite Hemoji.
    eexists
      ((if truthy_number (price a)
        then "Price: $" +:+ pretty (price a) +:+ TelegramNotifier.newline else "") +:+
       (if TelegramNotifier.truthy_value amount
        then "Amount: " +:+ TelegramNotifier.show_value amount +:+ TelegramNotifier.newline
        else "") +:+
       (if TelegramNotifier.truthy_value impact
        then "Impact: " +:+ TelegramNotifier.show_value impact +:+ TelegramNotifier.newline
        else "")).
    rewrite !append_assoc. reflexivity.
Qed.

End PipelineSpec.
